(** * A price-level order book with 128-bit presence bitsets

    Shallow embedding of [orderbook.h], [orderbook.cpp] and
    [message_types.h].  Machine integers are modelled as [Z] with the
    wrap-around of the C++ type written out; the fixed-size quantity
    arrays are lists indexed with stdpp's lookup and insert; the
    mutators are state transformers on the [OrderBook] record. *)

From stdpp Require Import base list sorting.
From Stdlib Require Import ZArith Lia.

Local Open Scope Z_scope.

(** ** Machine integers *)

(** [unsigned int] is 32 bits wide, [uint64_t] 64 bits, [int] 32 bits
    in two's complement, [size_t] 64 bits. *)
Definition uint32_mod : Z := 2 ^ 32.
Definition uint64_mod : Z := 2 ^ 64.

Definition is_uint32 (x : Z) : Prop := 0 <= x < uint32_mod.
Definition is_uint64 (x : Z) : Prop := 0 <= x < uint64_mod.
Definition is_int32 (x : Z) : Prop := - 2 ^ 31 <= x < 2 ^ 31.

(** Result of an [unsigned int] computation: reduction modulo 2^32.  A
    signed operand of a mixed expression is converted to [unsigned int]
    first, which is the same reduction. *)
Definition wrap32 (x : Z) : Z := x mod uint32_mod.

(** Conversion of an [int] argument to [size_t]. *)
Definition to_size_t (x : Z) : Z := x mod uint64_mod.

(** [~x] on a [uint64_t]. *)
Definition not64 (x : Z) : Z := Z.lxor x (uint64_mod - 1).

(** [__builtin_clzll x]: the number of leading 0-bits of the 64-bit
    value [x], counted from the most significant bit position.  The
    compiler leaves the result for [x = 0] undefined; every call in the
    source is guarded by [x != 0]. *)
Fixpoint clz_scan (k : nat) (x : Z) : Z :=
  match k with
  | O => 0
  | S k' => if Z.testbit x (Z.of_nat k') then 0 else 1 + clz_scan k' x
  end.

Definition clzll (x : Z) : Z := clz_scan 64 x.

(** [__builtin_ctzll x]: the number of trailing 0-bits of [x], counted
    from the least significant bit position; undefined for [x = 0]. *)
Fixpoint ctz_scan (k : nat) (i : Z) (x : Z) : Z :=
  match k with
  | O => 0
  | S k' => if Z.testbit x i then 0 else 1 + ctz_scan k' (i + 1) x
  end.

Definition ctzll (x : Z) : Z := ctz_scan 64 0 x.

(** ** Constants *)

(** [static constexpr int kMaxBookLevels = 100;] (message_types.h) *)
Definition kMaxBookLevels : Z := 100.

(** [static constexpr unsigned int kArraySize = kMaxBookLevels;] *)
Definition kArraySize : Z := kMaxBookLevels.

(** [constexpr unsigned int kMaxBitPosition = 128U;] *)
Definition kMaxBitPosition : Z := 128.

(** ** Bitset128 *)

Record Bitset128 : Type := mkBitset128 { low : Z; high : Z }.

Definition SetBit (pos : Z) (s : Bitset128) : Bitset128 :=
  if pos >=? kMaxBitPosition then s
  else if pos <? 64 then
    {| low := Z.lor (low s) (Z.shiftl 1 pos); high := high s |}
  else
    {| low := low s; high := Z.lor (high s) (Z.shiftl 1 (pos - 64)) |}.

Definition ClearBit (pos : Z) (s : Bitset128) : Bitset128 :=
  if pos >=? kMaxBitPosition then s
  else if pos <? 64 then
    {| low := Z.land (low s) (not64 (Z.shiftl 1 pos)); high := high s |}
  else
    {| low := low s;
       high := Z.land (high s) (not64 (Z.shiftl 1 (pos - 64))) |}.

Definition TestBit (s : Bitset128) (pos : Z) : bool :=
  if pos >=? kMaxBitPosition then false
  else if pos <? 64 then
    negb (Z.land (low s) (Z.shiftl 1 pos) =? 0)
  else
    negb (Z.land (high s) (Z.shiftl 1 (pos - 64)) =? 0).

(** The [int] result is [-1] when no bit is set. *)
Definition HighestSetBit (s : Bitset128) : Z :=
  if negb (high s =? 0) then
    let lead := clzll (high s) in 64 + (63 - lead)
  else if negb (low s =? 0) then
    let lead := clzll (low s) in 63 - lead
  else -1.

Definition LowestSetBit (s : Bitset128) : Z :=
  if negb (low s =? 0) then ctzll (low s)
  else if negb (high s =? 0) then 64 + ctzll (high s)
  else -1.

(** The [#else] branches of the two queries, for compilers without the
    builtins: [(x >> i) & 1ULL] tested from bit 63 down, or from bit 0
    up; [None] when the loop falls through to [return -1]. *)
Definition bit_at (x i : Z) : bool := negb (Z.land (Z.shiftr x i) 1 =? 0).

Fixpoint scan_down (k : nat) (x : Z) : option Z :=
  match k with
  | O => None
  | S k' => if bit_at x (Z.of_nat k') then Some (Z.of_nat k') else scan_down k' x
  end.

Fixpoint scan_up (k : nat) (i : Z) (x : Z) : option Z :=
  match k with
  | O => None
  | S k' => if bit_at x i then Some i else scan_up k' (i + 1) x
  end.

Definition HighestSetBit_portable (s : Bitset128) : Z :=
  if negb (high s =? 0) then
    match scan_down 64 (high s) with Some i => 64 + i | None => -1 end
  else if negb (low s =? 0) then
    match scan_down 64 (low s) with Some i => i | None => -1 end
  else -1.

Definition LowestSetBit_portable (s : Bitset128) : Z :=
  if negb (low s =? 0) then
    match scan_up 64 0 (low s) with Some i => i | None => -1 end
  else if negb (high s =? 0) then
    match scan_up 64 0 (high s) with Some i => 64 + i | None => -1 end
  else -1.

Definition empty_bitset : Bitset128 := {| low := 0; high := 0 |}.

(** The two words hold 64-bit values. *)
Definition wf_bitset (s : Bitset128) : Prop :=
  is_uint64 (low s) /\ is_uint64 (high s).

(** ** Messages (message_types.h) *)

(** [enum class Side { kUndefined = 0, kYes, kNo };] *)
Inductive Side : Type := kUndefined | kYes | kNo.

(** The borrowed identifier strings of the three messages and the
    trade timestamp are never read by the book and are left out. *)
Module SnapshotMessage.
Record t : Type := mk {
  yes_count : Z;
  yes_price : list Z;
  yes_qty : list Z;
  no_count : Z;
  no_price : list Z;
  no_qty : list Z
}.
End SnapshotMessage.

Module DeltaMessage.
Record t : Type := mk { price : Z; delta : Z; side : Side }.
End DeltaMessage.

Module TradeMessage.
Record t : Type := mk {
  yes_price : Z;
  no_price : Z;
  count : Z;
  taker_side : Side
}.
End TradeMessage.

(** ** OrderBook *)

Record OrderBook : Type := mkOrderBook {
  bids_ : list Z;
  asks_ : list Z;
  bids_bitset_ : Bitset128;
  asks_bitset_ : Bitset128
}.

(** [a[i]] and [a[i] = v] on a fixed-size array.  Every access in the
    source is guarded by [i < kArraySize]. *)
Definition arr_get (a : list Z) (i : Z) : Z := default 0 (a !! Z.to_nat i).
Definition arr_set (a : list Z) (i : Z) (v : Z) : list Z :=
  <[Z.to_nat i := v]> a.

(** [std::memset(a, 0, sizeof(a))] on an array of [kArraySize] entries. *)
Definition zeroed : list Z := replicate (Z.to_nat kArraySize) 0.

(** [OrderBook::OrderBook()] *)
Definition empty_book : OrderBook :=
  {| bids_ := zeroed; asks_ := zeroed;
     bids_bitset_ := empty_bitset; asks_bitset_ := empty_bitset |}.

(** The first six statements of [ApplySnapshot]. *)
Definition reset (b : OrderBook) : OrderBook :=
  {| bids_ := zeroed; asks_ := zeroed;
     bids_bitset_ := {| low := 0; high := 0 |};
     asks_bitset_ := {| low := 0; high := 0 |} |}.

(** Body of either loading loop of [ApplySnapshot], on one side's
    array and bitset. *)
Definition load_level (st : list Z * Bitset128)
    (price_value quantity_value : Z) : list Z * Bitset128 :=
  if price_value <? kArraySize then
    (arr_set st.1 price_value quantity_value,
     if quantity_value >? 0 then SetBit price_value st.2 else st.2)
  else st.

(** [for (int i = 0; i < count; ++i)] over the message arrays.  Reading
    a message array past its [kMaxBookLevels] entries is undefined in
    the source; the model reads 0 there, and statements about the
    loaded levels assume [count <= kMaxBookLevels]. *)
Definition load_side (count : Z) (prices qtys : list Z)
    (st : list Z * Bitset128) : list Z * Bitset128 :=
  fold_left
    (fun st i => load_level st (default 0 (prices !! i)) (default 0 (qtys !! i)))
    (seq 0 (Z.to_nat count)) st.

Definition ApplySnapshot (snap : SnapshotMessage.t) (b : OrderBook) : OrderBook :=
  let b0 := reset b in
  let yes := load_side (SnapshotMessage.yes_count snap)
               (SnapshotMessage.yes_price snap) (SnapshotMessage.yes_qty snap)
               (bids_ b0, bids_bitset_ b0) in
  let no := load_side (SnapshotMessage.no_count snap)
              (SnapshotMessage.no_price snap) (SnapshotMessage.no_qty snap)
              (asks_ b0, asks_bitset_ b0) in
  {| bids_ := yes.1; asks_ := no.1;
     bids_bitset_ := yes.2; asks_bitset_ := no.2 |}.

Definition ApplyDelta (msg : DeltaMessage.t) (b : OrderBook) : OrderBook :=
  let price_value := DeltaMessage.price msg in
  let delta_value := DeltaMessage.delta msg in
  if price_value >=? kArraySize then b
  else
    match DeltaMessage.side msg with
    | kYes =>
        let q := wrap32 (arr_get (bids_ b) price_value + delta_value) in
        {| bids_ := arr_set (bids_ b) price_value q;
           asks_ := asks_ b;
           bids_bitset_ :=
             if q =? 0 then ClearBit price_value (bids_bitset_ b)
             else SetBit price_value (bids_bitset_ b);
           asks_bitset_ := asks_bitset_ b |}
    | kNo =>
        let q := wrap32 (arr_get (asks_ b) price_value + delta_value) in
        {| bids_ := bids_ b;
           asks_ := arr_set (asks_ b) price_value q;
           bids_bitset_ := bids_bitset_ b;
           asks_bitset_ :=
             if q =? 0 then ClearBit price_value (asks_bitset_ b)
             else SetBit price_value (asks_bitset_ b) |}
    | kUndefined => b
    end.

Definition ApplyTrade (trade : TradeMessage.t) (b : OrderBook) : OrderBook :=
  let remove_qty := TradeMessage.count trade in
  if remove_qty <=? 0 then b
  else
    match TradeMessage.taker_side trade with
    | kYes =>
        let price_value := TradeMessage.no_price trade in
        if price_value <? kArraySize then
          let q := wrap32 (arr_get (asks_ b) price_value - remove_qty) in
          {| bids_ := bids_ b;
             asks_ := arr_set (asks_ b) price_value q;
             bids_bitset_ := bids_bitset_ b;
             asks_bitset_ :=
               if q =? 0 then ClearBit price_value (asks_bitset_ b)
               else asks_bitset_ b |}
        else b
    | kNo =>
        let price_value := TradeMessage.yes_price trade in
        if price_value <? kArraySize then
          let q := wrap32 (arr_get (bids_ b) price_value - remove_qty) in
          {| bids_ := arr_set (bids_ b) price_value q;
             asks_ := asks_ b;
             bids_bitset_ :=
               if q =? 0 then ClearBit price_value (bids_bitset_ b)
               else bids_bitset_ b;
             asks_bitset_ := asks_bitset_ b |}
        else b
    | kUndefined => b
    end.

Definition BestBid (b : OrderBook) : Z * Z :=
  let idx := HighestSetBit (bids_bitset_ b) in
  if (idx >=? 0) && (idx <? kArraySize) then (idx, arr_get (bids_ b) idx)
  else (0, 0).

Definition BestAsk (b : OrderBook) : Z * Z :=
  let idx := LowestSetBit (asks_bitset_ b) in
  if (idx >=? 0) && (idx <? kArraySize) then (idx, arr_get (asks_ b) idx)
  else (0, 0).

(** *** Top-N queries *)

(** A call either returns a value or leaves by a C++ exception. *)
Inductive exception : Type := length_error | bad_alloc.

Inductive outcome (A : Type) : Type :=
  | Returns (a : A)
  | Throws (e : exception).
Arguments Returns {A} a.
Arguments Throws {A} e.

(** [sizeof(std::pair<unsigned int, unsigned int>)] *)
Definition element_size : Z := 8.

(** [std::vector<std::pair<unsigned, unsigned>>::max_size()]: at most
    [PTRDIFF_MAX / sizeof(value_type)] with 8-byte elements.
    [reserve(c)] throws [std::length_error] when [c > max_size()]. *)
Definition vector_max_size : Z := (2 ^ 63 - 1) / element_size.

(** The free store at the time of a call: whether [operator new]
    grants a request of the given number of bytes.  It throws
    [std::bad_alloc] when it does not. *)
Definition heap : Type := Z -> bool.

(** [result.reserve(n)] on the freshly constructed, empty [result].
    The [int] is converted to [size_type] first.  A capacity above
    [max_size()] is refused by [std::length_error]; a capacity of 0 is
    already there; any other capacity is allocated in one request of
    [new_cap * sizeof(value_type)] bytes.  [None] stands for a normal
    return. *)
Definition reserve (h : heap) (n : Z) : option exception :=
  let new_cap := to_size_t n in
  if new_cap >? vector_max_size then Some length_error
  else if new_cap >? 0 then
    if h (element_size * new_cap) then None else Some bad_alloc
  else None.

(** [while (n > 0) { ...; --n; }] of [GetTopNBids]; the counter is the
    structural argument. *)
Fixpoint top_bids_loop (n : nat) (mask : Bitset128) (bids : list Z)
    : list (Z * Z) :=
  match n with
  | O => []
  | S n' =>
      let idx := HighestSetBit mask in
      if (idx <? 0) || (idx >=? kArraySize) then []
      else (idx, arr_get bids idx) :: top_bids_loop n' (ClearBit idx mask) bids
  end.

Fixpoint top_asks_loop (n : nat) (mask : Bitset128) (asks : list Z)
    : list (Z * Z) :=
  match n with
  | O => []
  | S n' =>
      let idx := LowestSetBit mask in
      if (idx <? 0) || (idx >=? kArraySize) then []
      else (idx, arr_get asks idx) :: top_asks_loop n' (ClearBit idx mask) asks
  end.

(** [result.reserve(n)] runs before the loop guard [n > 0] is looked
    at.  The loop appends at most [n] pairs, within the reserved
    capacity, so [reserve] makes the only allocation of the call. *)
Definition GetTopNBids (h : heap) (n : Z) (b : OrderBook)
    : outcome (list (Z * Z)) :=
  match reserve h n with
  | Some e => Throws e
  | None => Returns (top_bids_loop (Z.to_nat n) (bids_bitset_ b) (bids_ b))
  end.

Definition GetTopNAsks (h : heap) (n : Z) (b : OrderBook)
    : outcome (list (Z * Z)) :=
  match reserve h n with
  | Some e => Throws e
  | None => Returns (top_asks_loop (Z.to_nat n) (asks_bitset_ b) (asks_ b))
  end.

(** ** Specification vocabulary *)

(** Position [r] is the most (least) significant set bit of [s]. *)
Definition is_highest (s : Bitset128) (r : Z) : Prop :=
  TestBit s r = true /\ forall p, TestBit s p = true -> p <= r.

Definition is_lowest (s : Bitset128) (r : Z) : Prop :=
  TestBit s r = true /\ forall p, TestBit s p = true -> r <= p.

Definition no_bit_set (s : Bitset128) : Prop :=
  forall p, TestBit s p = false.

(** No presence bit lies outside the price domain. *)
Definition bits_in_domain (s : Bitset128) : Prop :=
  forall p, kArraySize <= p -> TestBit s p = false.

Definition wf_array (a : list Z) : Prop :=
  length a = Z.to_nat kArraySize /\ Forall is_uint32 a.

(** Representation of an [OrderBook] object: two arrays of
    [kArraySize] 32-bit quantities, two bitsets of 64-bit words, and
    presence bits only at array indices. *)
Record wf_book (b : OrderBook) : Prop := mk_wf_book {
  wf_bids : wf_array (bids_ b);
  wf_asks : wf_array (asks_ b);
  wf_bids_bitset : wf_bitset (bids_bitset_ b);
  wf_asks_bitset : wf_bitset (asks_bitset_ b);
  wf_bids_domain : bits_in_domain (bids_bitset_ b);
  wf_asks_domain : bits_in_domain (asks_bitset_ b)
}.

(** The array/bitset invariant of one side, and of the book. *)
Definition side_inv (a : list Z) (s : Bitset128) : Prop :=
  forall p, 0 <= p < kMaxBookLevels ->
    (TestBit s p = true <-> arr_get a p <> 0).

Definition book_inv (b : OrderBook) : Prop :=
  side_inv (bids_ b) (bids_bitset_ b) /\ side_inv (asks_ b) (asks_bitset_ b).

(** Messages as the decoder hands them over: fields within their C++
    types, counts within the message arrays. *)
Definition wf_levels (count : Z) (prices qtys : list Z) : Prop :=
  is_int32 count /\ count <= kMaxBookLevels /\
  length prices = Z.to_nat kMaxBookLevels /\
  length qtys = Z.to_nat kMaxBookLevels /\
  Forall is_uint32 prices /\ Forall is_uint32 qtys.

Definition wf_snapshot (snap : SnapshotMessage.t) : Prop :=
  wf_levels (SnapshotMessage.yes_count snap)
    (SnapshotMessage.yes_price snap) (SnapshotMessage.yes_qty snap) /\
  wf_levels (SnapshotMessage.no_count snap)
    (SnapshotMessage.no_price snap) (SnapshotMessage.no_qty snap).

Definition wf_delta (msg : DeltaMessage.t) : Prop :=
  is_uint32 (DeltaMessage.price msg) /\ is_int32 (DeltaMessage.delta msg).

Definition wf_trade (trade : TradeMessage.t) : Prop :=
  is_uint32 (TradeMessage.yes_price trade) /\
  is_uint32 (TradeMessage.no_price trade) /\
  is_int32 (TradeMessage.count trade).

(** Book states reachable from the freshly constructed book. *)
Inductive reachable : OrderBook -> Prop :=
  | reach_empty : reachable empty_book
  | reach_snapshot snap b :
      wf_snapshot snap -> reachable b -> reachable (ApplySnapshot snap b)
  | reach_delta msg b :
      wf_delta msg -> reachable b -> reachable (ApplyDelta msg b)
  | reach_trade trade b :
      wf_trade trade -> reachable b -> reachable (ApplyTrade trade b).

(** The (price, quantity) pairs a loading loop visits, in order. *)
Definition snapshot_levels (count : Z) (prices qtys : list Z) : list (Z * Z) :=
  map (fun i => (default 0 (prices !! i), default 0 (qtys !! i)))
      (seq 0 (Z.to_nat count)).

(** Quantity of the last pair with price [p], if any. *)
Definition last_qty (p : Z) (l : list (Z * Z)) : option Z :=
  fold_left (fun acc pq => if pq.1 =? p then Some pq.2 else acc) l None.

(** Occupied levels of a side as its presence bitset records them,
    in ascending and in descending price order. *)
Definition occupied_asc (s : Bitset128) : list Z :=
  filter (fun p => TestBit s p = true) (seqZ 0 kArraySize).

Definition occupied_desc (s : Bitset128) : list Z :=
  reverse (occupied_asc s).

Definition levels (a : list Z) (ps : list Z) : list (Z * Z) :=
  map (fun p => (p, arr_get a p)) ps.

(** One side's array and bitset, as the loading loops thread them. *)
Definition wf_side (st : list Z * Bitset128) : Prop :=
  wf_array st.1 /\ wf_bitset st.2 /\ bits_in_domain st.2.

(** What one in-range trade does to the consumed side: [a], [s] are the
    side's array and bitset before, [a'], [s'] after. *)
Definition consumed (a : list Z) (s : Bitset128) (p c : Z)
    (a' : list Z) (s' : Bitset128) : Prop :=
  arr_get a' p = wrap32 (arr_get a p - c) /\
  (c <= arr_get a p -> arr_get a' p = arr_get a p - c) /\
  (forall q, 0 <= q -> q <> p -> arr_get a' q = arr_get a q) /\
  (forall q, q <> p -> TestBit s' q = TestBit s q) /\
  (arr_get a' p = 0 -> TestBit s' p = false) /\
  (arr_get a' p <> 0 -> s' = s).

(** [p] is the greatest (least) price index with a non-zero quantity. *)
Definition max_nonzero (a : list Z) (p : Z) : Prop :=
  0 <= p < kMaxBookLevels /\ arr_get a p <> 0 /\
  forall q, 0 <= q < kMaxBookLevels -> arr_get a q <> 0 -> q <= p.

Definition min_nonzero (a : list Z) (p : Z) : Prop :=
  0 <= p < kMaxBookLevels /\ arr_get a p <> 0 /\
  forall q, 0 <= q < kMaxBookLevels -> arr_get a q <> 0 -> p <= q.

Definition some_nonzero (a : list Z) : Prop :=
  exists p, 0 <= p < kMaxBookLevels /\ arr_get a p <> 0.

(** Outcome of a top-N query for a count [n >= 0] whose loop collects
    [r]: [std::bad_alloc] when [n > 0] and the free store refuses the
    [n * sizeof(value_type)] bytes of the reservation, [r] otherwise. *)
Definition reserved (h : heap) (n : Z) (r : list (Z * Z))
    : outcome (list (Z * Z)) :=
  if (0 <? n) && negb (h (element_size * n)) then Throws bad_alloc
  else Returns r.

(** ** Concrete messages and books *)

(** A free store that grants requests of up to 4096 bytes. *)
Definition small_heap : heap := fun bytes => bytes <=? 4096.


(** A message array of [kMaxBookLevels] entries whose first entries
    are [l]. *)
Definition message_array (l : list Z) : list Z :=
  l ++ replicate (Z.to_nat kMaxBookLevels - length l) 0.

(** The snapshot message a decoder builds from two lists of
    (price, quantity) pairs. *)
Definition snapshot_of (yes no : list (Z * Z)) : SnapshotMessage.t :=
  {| SnapshotMessage.yes_count := Z.of_nat (length yes);
     SnapshotMessage.yes_price := message_array (map fst yes);
     SnapshotMessage.yes_qty := message_array (map snd yes);
     SnapshotMessage.no_count := Z.of_nat (length no);
     SnapshotMessage.no_price := message_array (map fst no);
     SnapshotMessage.no_qty := message_array (map snd no) |}.

(** Bids at 70 and 65, one ask at 40. *)
Definition two_sided_snapshot : SnapshotMessage.t :=
  snapshot_of [(70, 10); (65, 5)] [(40, 8)].

Definition two_sided_book : OrderBook :=
  ApplySnapshot two_sided_snapshot empty_book.

(** Price 0 listed twice on each side, the second time with quantity 0. *)
Definition zero_price_twice : SnapshotMessage.t :=
  snapshot_of [(0, 5); (0, 0)] [(0, 5); (0, 0)].

Definition zero_price_book : OrderBook :=
  ApplySnapshot zero_price_twice empty_book.

(** Price 5 listed twice among the bids, the second time with quantity 0. *)
Definition price_five_twice : SnapshotMessage.t :=
  snapshot_of [(5, 10); (5, 0)] [].

Definition price_five_book : OrderBook :=
  ApplySnapshot price_five_twice empty_book.

(** A "yes" taker hitting the ask level 40 for one contract. *)
Definition one_lot_trade : TradeMessage.t :=
  {| TradeMessage.yes_price := 65; TradeMessage.no_price := 40;
     TradeMessage.count := 1; TradeMessage.taker_side := kYes |}.

Definition wrapped_book : OrderBook := ApplyTrade one_lot_trade empty_book.

(** Bit 127 is the only set bit. *)
Definition top_bit_only : Bitset128 := SetBit 127 empty_bitset.

(** A delta for a price just past the domain, and a trade with count 0. *)
Definition out_of_range_delta : DeltaMessage.t :=
  {| DeltaMessage.price := 100; DeltaMessage.delta := 3;
     DeltaMessage.side := kYes |}.

Definition empty_trade : TradeMessage.t :=
  {| TradeMessage.yes_price := 65; TradeMessage.no_price := 40;
     TradeMessage.count := 0; TradeMessage.taker_side := kYes |}.

(** A "yes" taker consuming the whole ask level 40 of [two_sided_book]. *)
Definition full_fill_trade : TradeMessage.t :=
  {| TradeMessage.yes_price := 65; TradeMessage.no_price := 40;
     TradeMessage.count := 8; TradeMessage.taker_side := kYes |}.

(** Removal of the whole bid level 70 of [two_sided_book]. *)
Definition cancel_best_bid : DeltaMessage.t :=
  {| DeltaMessage.price := 70; DeltaMessage.delta := -10;
     DeltaMessage.side := kYes |}.

(** Boolean form of [side_inv], for concrete books. *)
Definition side_inv_check (a : list Z) (s : Bitset128) : bool :=
  forallb (fun p => Bool.eqb (TestBit s p) (negb (arr_get a p =? 0)))
          (seqZ 0 kMaxBookLevels).

(** What one in-range delta does to the side it names: [a], [s] are
    that side's array and bitset before, [a'], [s'] after. *)
Definition adjusted (a : list Z) (s : Bitset128) (p d : Z)
    (a' : list Z) (s' : Bitset128) : Prop :=
  arr_get a' p = wrap32 (arr_get a p + d) /\
  (0 <= arr_get a p + d < uint32_mod -> arr_get a' p = arr_get a p + d) /\
  (forall q, 0 <= q -> q <> p -> arr_get a' q = arr_get a q) /\
  (forall q, q <> p -> TestBit s' q = TestBit s q) /\
  (TestBit s' p = true <-> arr_get a' p <> 0).

(** Two deltas on the bid level 65 of [two_sided_book], and their sum. *)
Definition add_three : DeltaMessage.t :=
  {| DeltaMessage.price := 65; DeltaMessage.delta := 3;
     DeltaMessage.side := kYes |}.

Definition remove_three : DeltaMessage.t :=
  {| DeltaMessage.price := 65; DeltaMessage.delta := -3;
     DeltaMessage.side := kYes |}.

Definition add_four : DeltaMessage.t :=
  {| DeltaMessage.price := 65; DeltaMessage.delta := 4;
     DeltaMessage.side := kYes |}.

(** A delta on the ask level 40, the one [full_fill_trade] consumes. *)
Definition remove_eight_asks : DeltaMessage.t :=
  {| DeltaMessage.price := 40; DeltaMessage.delta := -8;
     DeltaMessage.side := kNo |}.

(** A new best bid at price 80. *)
Definition improve_bid : DeltaMessage.t :=
  {| DeltaMessage.price := 80; DeltaMessage.delta := 2;
     DeltaMessage.side := kYes |}.

(** A delta that takes the bid level 65 of [two_sided_book], which
    holds 5, below zero. *)
Definition overdraw_bid : DeltaMessage.t :=
  {| DeltaMessage.price := 65; DeltaMessage.delta := -6;
     DeltaMessage.side := kYes |}.

(** [two_sided_snapshot] with other values in the array entries that
    lie past the two counts. *)
Definition two_sided_snapshot_padded : SnapshotMessage.t :=
  {| SnapshotMessage.yes_count := 2;
     SnapshotMessage.yes_price := message_array [70; 65; 99; 98];
     SnapshotMessage.yes_qty := message_array [10; 5; 7; 7];
     SnapshotMessage.no_count := 1;
     SnapshotMessage.no_price := message_array [40; 1; 2];
     SnapshotMessage.no_qty := message_array [8; 9; 9] |}.

(** ** Bit-level facts *)

Lemma testbit_above_pow2 x n i :
  0 <= x < 2 ^ n -> 0 <= n <= i -> Z.testbit x i = false.
Proof.
  intros Hx Hn.
  rewrite <- (Z.mod_small x (2 ^ n)) by lia.
  apply Z.mod_pow2_bits_high. lia.
Qed.

Lemma below_pow2_of_bits x n :
  0 <= n -> 0 <= x -> (forall i, n <= i -> Z.testbit x i = false) ->
  x < 2 ^ n.
Proof.
  intros Hn Hx Hbits.
  destruct (Z.eq_dec x 0) as [->|Hne]; [apply Z.pow_pos_nonneg; lia|].
  assert (Hpos : 0 < x) by lia.
  destruct (Z.lt_ge_cases (Z.log2 x) n) as [Hlt|Hge].
  - apply Z.log2_lt_pow2; lia.
  - pose proof (Z.bit_log2 x Hpos) as Hb.
    rewrite Hbits in Hb by lia. discriminate.
Qed.

Lemma all_bits_clear_zero x :
  0 <= x -> (forall i, 0 <= i -> Z.testbit x i = false) -> x = 0.
Proof.
  intros Hx Hbits. apply Z.bits_inj_0. intros i.
  destruct (Z.neg_nonneg_cases i); [apply Z.testbit_neg_r; lia | auto].
Qed.

Lemma some_bit_set x :
  0 <= x < uint64_mod -> x <> 0 ->
  exists i, 0 <= i < 64 /\ Z.testbit x i = true.
Proof.
  intros Hx Hne. exists (Z.log2 x).
  assert (0 < x) by lia. split.
  - split; [apply Z.log2_nonneg|].
    apply Z.log2_lt_pow2; [lia|]. unfold uint64_mod in Hx. lia.
  - apply Z.bit_log2; lia.
Qed.

(** [x & (1 << p)] is non-zero exactly when bit [p] of [x] is set. *)
Lemma mask_test x p :
  0 <= p -> negb (Z.land x (Z.shiftl 1 p) =? 0) = Z.testbit x p.
Proof.
  intros Hp. rewrite Z.shiftl_1_l.
  destruct (Z.testbit x p) eqn:Hb.
  - apply negb_true_iff, Z.eqb_neq. intros H0.
    assert (Hc : Z.testbit (Z.land x (2 ^ p)) p = true).
    { rewrite Z.land_spec, Hb, Z.pow2_bits_true by lia. reflexivity. }
    rewrite H0, Z.bits_0 in Hc. discriminate.
  - apply negb_false_iff, Z.eqb_eq. apply Z.bits_inj_0. intros i.
    rewrite Z.land_spec.
    destruct (Z.eq_dec i p) as [->|Hne].
    + rewrite Hb. reflexivity.
    + destruct (Z.neg_nonneg_cases i).
      * rewrite (Z.testbit_neg_r x) by lia. reflexivity.
      * rewrite Z.pow2_bits_false by lia. apply andb_false_r.
Qed.

Lemma testbit_set_word x p i :
  0 <= p -> 0 <= i ->
  Z.testbit (Z.lor x (Z.shiftl 1 p)) i = Z.testbit x i || (i =? p).
Proof.
  intros Hp Hi. rewrite Z.lor_spec, Z.shiftl_1_l.
  rewrite Z.pow2_bits_eqb by lia. f_equal. apply Z.eqb_sym.
Qed.

Lemma testbit_not64 x i :
  0 <= i -> Z.testbit (not64 x) i = xorb (Z.testbit x i) (i <? 64).
Proof.
  intros Hi. unfold not64, uint64_mod. rewrite Z.lxor_spec. f_equal.
  change (2 ^ 64 - 1) with (Z.ones 64).
  destruct (Z.ltb_spec i 64).
  - apply Z.ones_spec_low; lia.
  - apply Z.ones_spec_high; lia.
Qed.

Lemma testbit_clear_word x p i :
  0 <= x < uint64_mod -> 0 <= p < 64 -> 0 <= i ->
  Z.testbit (Z.land x (not64 (Z.shiftl 1 p))) i
  = Z.testbit x i && negb (i =? p).
Proof.
  intros Hx Hp Hi. rewrite Z.land_spec, testbit_not64, Z.shiftl_1_l by lia.
  rewrite Z.pow2_bits_eqb by lia. rewrite (Z.eqb_sym p i).
  destruct (Z.ltb_spec i 64).
  - rewrite xorb_true_r. reflexivity.
  - rewrite (testbit_above_pow2 x 64 i) by (unfold uint64_mod in Hx; lia).
    reflexivity.
Qed.

Lemma set_word_range x p :
  0 <= x < uint64_mod -> 0 <= p < 64 ->
  0 <= Z.lor x (Z.shiftl 1 p) < uint64_mod.
Proof.
  intros Hx Hp. unfold uint64_mod in *.
  assert (H0 : 0 <= Z.lor x (Z.shiftl 1 p)).
  { apply Z.lor_nonneg. split; [lia|]. rewrite Z.shiftl_1_l.
    apply Z.pow_nonneg. lia. }
  split; [exact H0|].
  apply below_pow2_of_bits; [lia|exact H0|].
  intros i Hi. rewrite testbit_set_word by lia.
  rewrite (testbit_above_pow2 x 64 i) by lia.
  apply Z.eqb_neq. lia.
Qed.

Lemma clear_word_range x m :
  0 <= x < uint64_mod -> 0 <= Z.land x m < uint64_mod.
Proof.
  intros Hx. unfold uint64_mod in *.
  assert (H0 : 0 <= Z.land x m) by (apply Z.land_nonneg; lia).
  split; [exact H0|].
  apply below_pow2_of_bits; [lia|exact H0|].
  intros i Hi. rewrite Z.land_spec.
  rewrite (testbit_above_pow2 x 64 i) by lia. reflexivity.
Qed.

(** ** Bitset128: reading, setting and clearing bits *)

Lemma TestBit_low s p :
  0 <= p < 64 -> TestBit s p = Z.testbit (low s) p.
Proof.
  intros Hp. unfold TestBit, kMaxBitPosition.
  destruct (Z.geb_spec p 128); [lia|].
  destruct (Z.ltb_spec p 64); [|lia].
  apply mask_test. lia.
Qed.

Lemma TestBit_high s p :
  64 <= p < 128 -> TestBit s p = Z.testbit (high s) (p - 64).
Proof.
  intros Hp. unfold TestBit, kMaxBitPosition.
  destruct (Z.geb_spec p 128); [lia|].
  destruct (Z.ltb_spec p 64); [lia|].
  apply mask_test. lia.
Qed.

Lemma TestBit_outside s p :
  p < 0 \/ 128 <= p -> TestBit s p = false.
Proof.
  intros Hp. unfold TestBit, kMaxBitPosition.
  destruct (Z.geb_spec p 128); [reflexivity|].
  destruct (Z.ltb_spec p 64); [|lia].
  rewrite Z.shiftl_div_pow2 by lia.
  rewrite Z.div_small, Z.land_0_r; [reflexivity|].
  split; [lia|]. apply Z.pow_gt_1; lia.
Qed.

Lemma TestBit_true_range s p :
  TestBit s p = true -> 0 <= p < 128.
Proof.
  intros Hb.
  destruct (Z.lt_ge_cases p 0); [rewrite TestBit_outside in Hb by lia; discriminate|].
  destruct (Z.lt_ge_cases p 128); [lia|].
  rewrite TestBit_outside in Hb by lia. discriminate.
Qed.

(** Case analysis on where a position falls. *)
Ltac bit_cases s p :=
  let H := fresh "Hpos" in
  destruct (Z.lt_ge_cases p 0) as [H|H];
  [ rewrite ?(TestBit_outside _ p) by lia
  | destruct (Z.lt_ge_cases p 64) as [?|?];
    [ rewrite ?(TestBit_low _ p) by lia
    | destruct (Z.lt_ge_cases p 128) as [?|?];
      [ rewrite ?(TestBit_high _ p) by lia
      | rewrite ?(TestBit_outside _ p) by lia ] ] ].

Lemma TestBit_SetBit s p q :
  0 <= p < 128 -> TestBit (SetBit p s) q = TestBit s q || (q =? p).
Proof.
  intros Hp. unfold SetBit, kMaxBitPosition.
  destruct (Z.geb_spec p 128); [lia|].
  destruct (Z.ltb_spec p 64); bit_cases s q; cbn [low high];
    rewrite ?testbit_set_word by lia;
    try reflexivity;
    try (destruct (Z.eqb_spec q p); [lia|]; rewrite ?orb_false_r; reflexivity).
  - f_equal. destruct (Z.eqb_spec (q - 64) (p - 64)), (Z.eqb_spec q p);
      try reflexivity; lia.
Qed.

Lemma TestBit_ClearBit s p q :
  wf_bitset s -> 0 <= p < 128 ->
  TestBit (ClearBit p s) q = TestBit s q && negb (q =? p).
Proof.
  intros [Hl Hh] Hp. unfold ClearBit, kMaxBitPosition.
  destruct (Z.geb_spec p 128); [lia|].
  destruct (Z.ltb_spec p 64); bit_cases s q; cbn [low high];
    rewrite ?testbit_clear_word by (assumption || lia);
    try reflexivity;
    try (destruct (Z.eqb_spec q p); [lia|]; rewrite ?andb_true_r; reflexivity).
  - f_equal. destruct (Z.eqb_spec (q - 64) (p - 64)), (Z.eqb_spec q p);
      try reflexivity; lia.
Qed.

Lemma SetBit_out_of_range s p : kMaxBitPosition <= p -> SetBit p s = s.
Proof.
  intros Hp. unfold SetBit. destruct (Z.geb_spec p kMaxBitPosition); [reflexivity|lia].
Qed.

Lemma ClearBit_out_of_range s p : kMaxBitPosition <= p -> ClearBit p s = s.
Proof.
  intros Hp. unfold ClearBit. destruct (Z.geb_spec p kMaxBitPosition); [reflexivity|lia].
Qed.

Lemma wf_SetBit s p : 0 <= p -> wf_bitset s -> wf_bitset (SetBit p s).
Proof.
  intros Hp [Hl Hh]. unfold SetBit, kMaxBitPosition.
  destruct (Z.geb_spec p 128); [split; assumption|].
  destruct (Z.ltb_spec p 64); split; cbn [low high]; try assumption;
    apply set_word_range; (assumption || lia).
Qed.

Lemma wf_ClearBit s p : wf_bitset s -> wf_bitset (ClearBit p s).
Proof.
  intros [Hl Hh]. unfold ClearBit.
  destruct (p >=? kMaxBitPosition); [split; assumption|].
  destruct (p <? 64); split; cbn [low high]; try assumption;
    apply clear_word_range; assumption.
Qed.

Lemma wf_empty_bitset : wf_bitset empty_bitset.
Proof. split; unfold is_uint64, uint64_mod; cbn; lia. Qed.

Lemma no_bit_set_empty : no_bit_set empty_bitset.
Proof.
  intros p. bit_cases empty_bitset p; try reflexivity; cbn; apply Z.bits_0.
Qed.

Lemma no_bit_set_words s :
  wf_bitset s -> no_bit_set s -> low s = 0 /\ high s = 0.
Proof.
  intros [Hl Hh] Hn. split; apply all_bits_clear_zero;
    try (unfold is_uint64 in *; lia); intros i Hi.
  - destruct (Z.lt_ge_cases i 64).
    + rewrite <- (TestBit_low s i) by lia. apply Hn.
    + apply (testbit_above_pow2 _ 64); unfold is_uint64, uint64_mod in *; lia.
  - destruct (Z.lt_ge_cases i 64).
    + replace i with ((i + 64) - 64) by lia.
      rewrite <- (TestBit_high s (i + 64)) by lia. apply Hn.
    + apply (testbit_above_pow2 _ 64); unfold is_uint64, uint64_mod in *; lia.
Qed.

(** ** Leading and trailing zero counts *)

Lemma clz_scan_spec k x :
  0 <= x -> x <> 0 ->
  (forall i, Z.of_nat k <= i -> Z.testbit x i = false) ->
  0 <= clz_scan k x < Z.of_nat k /\
  Z.testbit x (Z.of_nat k - 1 - clz_scan k x) = true /\
  (forall i, Z.of_nat k - 1 - clz_scan k x < i -> Z.testbit x i = false).
Proof.
  intros Hx Hne. induction k as [|k IH]; intros Hhigh.
  - exfalso. apply Hne. apply all_bits_clear_zero; [assumption|].
    intros i Hi. apply Hhigh. lia.
  - cbn [clz_scan]. destruct (Z.testbit x (Z.of_nat k)) eqn:Hb.
    + repeat split; try lia.
      * replace (Z.of_nat (S k) - 1 - 0) with (Z.of_nat k) by lia. exact Hb.
      * intros i Hi. apply Hhigh. lia.
    + destruct IH as (Hr & Ht & Ha).
      { intros i Hi. destruct (Z.eq_dec i (Z.of_nat k)) as [->|];
          [exact Hb | apply Hhigh; lia]. }
      repeat split; try lia.
      * replace (Z.of_nat (S k) - 1 - (1 + clz_scan k x))
          with (Z.of_nat k - 1 - clz_scan k x) by lia. exact Ht.
      * intros i Hi. apply Ha. lia.
Qed.

Lemma clzll_spec x :
  0 <= x < uint64_mod -> x <> 0 ->
  0 <= 63 - clzll x < 64 /\
  Z.testbit x (63 - clzll x) = true /\
  (forall i, 63 - clzll x < i -> Z.testbit x i = false).
Proof.
  intros Hx Hne. unfold clzll.
  destruct (clz_scan_spec 64 x) as (Hr & Ht & Ha); [lia|assumption| |].
  - intros i Hi. apply (testbit_above_pow2 x 64); unfold uint64_mod in Hx; lia.
  - change (Z.of_nat 64) with 64 in *.
    replace (64 - 1 - clz_scan 64 x) with (63 - clz_scan 64 x) in * by lia.
    repeat split; (lia || assumption).
Qed.

Lemma ctz_scan_spec k : forall i x,
  0 <= i ->
  (forall j, 0 <= j < i -> Z.testbit x j = false) ->
  (exists j, i <= j < i + Z.of_nat k /\ Z.testbit x j = true) ->
  0 <= ctz_scan k i x < Z.of_nat k /\
  Z.testbit x (i + ctz_scan k i x) = true /\
  (forall j, 0 <= j < i + ctz_scan k i x -> Z.testbit x j = false).
Proof.
  induction k as [|k IH]; intros i x Hi Hlow (j & Hj & Hset).
  - lia.
  - cbn [ctz_scan]. destruct (Z.testbit x i) eqn:Hb.
    + rewrite Z.add_0_r. repeat split; (lia || assumption).
    + destruct (IH (i + 1) x) as (Hr & Ht & Hl); [lia| | |].
      * intros j' Hj'. destruct (Z.eq_dec j' i) as [->|];
          [exact Hb | apply Hlow; lia].
      * exists j. split; [|exact Hset].
        assert (j <> i) by (intros ->; congruence). lia.
      * replace (i + (1 + ctz_scan k (i + 1) x))
          with (i + 1 + ctz_scan k (i + 1) x) by lia.
        repeat split; (lia || assumption).
Qed.

Lemma ctzll_spec x :
  0 <= x < uint64_mod -> x <> 0 ->
  0 <= ctzll x < 64 /\
  Z.testbit x (ctzll x) = true /\
  (forall j, 0 <= j < ctzll x -> Z.testbit x j = false).
Proof.
  intros Hx Hne. unfold ctzll.
  destruct (ctz_scan_spec 64 0 x) as (Hr & Ht & Hl); [lia| | |].
  - intros j Hj. lia.
  - destruct (some_bit_set x Hx Hne) as (i & Hi & Hb).
    exists i. split; [lia|exact Hb].
  - change (Z.of_nat 64) with 64 in *. rewrite Z.add_0_l in *.
    repeat split; (lia || assumption).
Qed.

(** ** The portable scans agree with the builtins *)

Lemma bit_at_testbit x i : 0 <= i -> bit_at x i = Z.testbit x i.
Proof.
  intros Hi. unfold bit_at.
  change 1 with (Z.ones 1). rewrite Z.land_ones by lia.
  change (2 ^ 1) with 2. rewrite <- Z.bit0_mod, Z.shiftr_spec by lia.
  rewrite Z.add_0_l. destruct (Z.testbit x i); reflexivity.
Qed.

Lemma scan_down_clz k x :
  (exists i, 0 <= i < Z.of_nat k /\ Z.testbit x i = true) ->
  scan_down k x = Some (Z.of_nat k - 1 - clz_scan k x).
Proof.
  induction k as [|k IH]; intros (i & Hi & Hb); [lia|].
  cbn [scan_down clz_scan]. rewrite bit_at_testbit by lia.
  destruct (Z.testbit x (Z.of_nat k)) eqn:Hk.
  - f_equal. lia.
  - rewrite IH.
    + f_equal. lia.
    + exists i. split; [|exact Hb].
      assert (i <> Z.of_nat k) by (intros ->; congruence). lia.
Qed.

Lemma scan_up_ctz k : forall i x,
  0 <= i ->
  (exists j, i <= j < i + Z.of_nat k /\ Z.testbit x j = true) ->
  scan_up k i x = Some (i + ctz_scan k i x).
Proof.
  induction k as [|k IH]; intros i x Hi (j & Hj & Hb); [lia|].
  cbn [scan_up ctz_scan]. rewrite bit_at_testbit by lia.
  destruct (Z.testbit x i) eqn:Hk.
  - f_equal. lia.
  - rewrite IH.
    + f_equal. lia.
    + lia.
    + exists j. split; [|exact Hb].
      assert (j <> i) by (intros ->; congruence). lia.
Qed.

Lemma scan_down_word x :
  0 <= x < uint64_mod -> x <> 0 -> scan_down 64 x = Some (63 - clzll x).
Proof.
  intros Hx Hne. unfold clzll. rewrite scan_down_clz.
  - f_equal.
  - destruct (some_bit_set x Hx Hne) as (i & Hi & Hb). exists i. split; [lia|exact Hb].
Qed.

Lemma scan_up_word x :
  0 <= x < uint64_mod -> x <> 0 -> scan_up 64 0 x = Some (ctzll x).
Proof.
  intros Hx Hne. unfold ctzll. rewrite scan_up_ctz.
  - f_equal.
  - lia.
  - destruct (some_bit_set x Hx Hne) as (i & Hi & Hb). exists i. split; [lia|exact Hb].
Qed.

Lemma HighestSetBit_portable_eq s :
  wf_bitset s -> HighestSetBit_portable s = HighestSetBit s.
Proof.
  intros [Hl Hh]. unfold HighestSetBit_portable, HighestSetBit.
  destruct (Z.eqb_spec (high s) 0); cbn [negb].
  - destruct (Z.eqb_spec (low s) 0); cbn [negb]; [reflexivity|].
    rewrite scan_down_word by assumption. reflexivity.
  - rewrite scan_down_word by assumption. reflexivity.
Qed.

Lemma LowestSetBit_portable_eq s :
  wf_bitset s -> LowestSetBit_portable s = LowestSetBit s.
Proof.
  intros [Hl Hh]. unfold LowestSetBit_portable, LowestSetBit.
  destruct (Z.eqb_spec (low s) 0); cbn [negb].
  - destruct (Z.eqb_spec (high s) 0); cbn [negb]; [reflexivity|].
    rewrite scan_up_word by assumption. reflexivity.
  - rewrite scan_up_word by assumption. reflexivity.
Qed.

(** ** Extremal set bits *)

Lemma HighestSetBit_empty s :
  wf_bitset s -> no_bit_set s -> HighestSetBit s = -1.
Proof.
  intros Hwf Hn. destruct (no_bit_set_words s Hwf Hn) as [Hl Hh].
  unfold HighestSetBit. rewrite Hl, Hh. reflexivity.
Qed.

Lemma LowestSetBit_empty s :
  wf_bitset s -> no_bit_set s -> LowestSetBit s = -1.
Proof.
  intros Hwf Hn. destruct (no_bit_set_words s Hwf Hn) as [Hl Hh].
  unfold LowestSetBit. rewrite Hl, Hh. reflexivity.
Qed.

Lemma words_zero_no_bit s : low s = 0 -> high s = 0 -> no_bit_set s.
Proof.
  intros Hl Hh p. bit_cases s p; try reflexivity;
    rewrite ?Hl, ?Hh; apply Z.bits_0.
Qed.

Lemma HighestSetBit_is_highest s :
  wf_bitset s -> (exists p, TestBit s p = true) ->
  is_highest s (HighestSetBit s).
Proof.
  intros [Hl Hh] (p0 & Hp0). unfold HighestSetBit.
  destruct (Z.eqb_spec (high s) 0) as [Hhz|Hhnz]; cbn [negb].
  - destruct (Z.eqb_spec (low s) 0) as [Hlz|Hlnz]; cbn [negb].
    + rewrite (words_zero_no_bit s Hlz Hhz p0) in Hp0. discriminate.
    + destruct (clzll_spec (low s) Hl Hlnz) as (Hr & Ht & Ha).
      split.
      * rewrite TestBit_low by lia. exact Ht.
      * intros p Hp. pose proof (TestBit_true_range s p Hp) as Hrange.
        destruct (Z.lt_ge_cases p 64).
        -- rewrite TestBit_low in Hp by lia.
           destruct (Z.le_gt_cases p (63 - clzll (low s))); [assumption|].
           rewrite Ha in Hp by lia. discriminate.
        -- rewrite TestBit_high, Hhz, Z.bits_0 in Hp by lia. discriminate.
  - destruct (clzll_spec (high s) Hh Hhnz) as (Hr & Ht & Ha).
    split.
    + rewrite TestBit_high by lia.
      replace (64 + (63 - clzll (high s)) - 64) with (63 - clzll (high s)) by lia.
      exact Ht.
    + intros p Hp. pose proof (TestBit_true_range s p Hp) as Hrange.
      destruct (Z.lt_ge_cases p 64); [lia|].
      rewrite TestBit_high in Hp by lia.
      destruct (Z.le_gt_cases (p - 64) (63 - clzll (high s))); [lia|].
      rewrite Ha in Hp by lia. discriminate.
Qed.

Lemma LowestSetBit_is_lowest s :
  wf_bitset s -> (exists p, TestBit s p = true) ->
  is_lowest s (LowestSetBit s).
Proof.
  intros [Hl Hh] (p0 & Hp0). unfold LowestSetBit.
  destruct (Z.eqb_spec (low s) 0) as [Hlz|Hlnz]; cbn [negb].
  - destruct (Z.eqb_spec (high s) 0) as [Hhz|Hhnz]; cbn [negb].
    + rewrite (words_zero_no_bit s Hlz Hhz p0) in Hp0. discriminate.
    + destruct (ctzll_spec (high s) Hh Hhnz) as (Hr & Ht & Ha).
      split.
      * rewrite TestBit_high by lia.
        replace (64 + ctzll (high s) - 64) with (ctzll (high s)) by lia.
        exact Ht.
      * intros p Hp. pose proof (TestBit_true_range s p Hp) as Hrange.
        destruct (Z.lt_ge_cases p 64).
        -- rewrite TestBit_low, Hlz, Z.bits_0 in Hp by lia. discriminate.
        -- rewrite TestBit_high in Hp by lia.
           destruct (Z.le_gt_cases (ctzll (high s)) (p - 64)); [lia|].
           rewrite Ha in Hp by lia. discriminate.
  - destruct (ctzll_spec (low s) Hl Hlnz) as (Hr & Ht & Ha).
    split.
    + rewrite TestBit_low by lia. exact Ht.
    + intros p Hp. pose proof (TestBit_true_range s p Hp) as Hrange.
      destruct (Z.lt_ge_cases p 64); [|lia].
      rewrite TestBit_low in Hp by lia.
      destruct (Z.le_gt_cases (ctzll (low s)) p); [assumption|].
      rewrite Ha in Hp by lia. discriminate.
Qed.

Lemma is_highest_unique s r1 r2 : is_highest s r1 -> is_highest s r2 -> r1 = r2.
Proof. intros [H1 M1] [H2 M2]. specialize (M1 _ H2). specialize (M2 _ H1). lia. Qed.

Lemma is_lowest_unique s r1 r2 : is_lowest s r1 -> is_lowest s r2 -> r1 = r2.
Proof. intros [H1 M1] [H2 M2]. specialize (M1 _ H2). specialize (M2 _ H1). lia. Qed.

Lemma bitset_empty_or_bit s :
  wf_bitset s -> no_bit_set s \/ exists p, TestBit s p = true.
Proof.
  intros [Hl Hh].
  destruct (Z.eq_dec (low s) 0) as [Hlz|Hlnz].
  - destruct (Z.eq_dec (high s) 0) as [Hhz|Hhnz].
    + left. apply words_zero_no_bit; assumption.
    + right. destruct (some_bit_set (high s) Hh Hhnz) as (i & Hi & Hb).
      exists (i + 64). rewrite TestBit_high by lia.
      replace (i + 64 - 64) with i by lia. exact Hb.
  - right. destruct (some_bit_set (low s) Hl Hlnz) as (i & Hi & Hb).
    exists i. rewrite TestBit_low by lia. exact Hb.
Qed.

(** ** Bitset128: the extremal-bit queries and the range guard *)

Lemma only_bit_extremal s r :
  wf_bitset s -> (forall p, TestBit s p = true <-> p = r) ->
  HighestSetBit s = r /\ LowestSetBit s = r.
Proof.
  intros Hwf Honly.
  assert (Hr : TestBit s r = true) by (apply Honly; reflexivity).
  destruct (HighestSetBit_is_highest s Hwf) as [Hh _]; [eauto|].
  destruct (LowestSetBit_is_lowest s Hwf) as [Hl _]; [eauto|].
  split; apply Honly; assumption.
Qed.

(** C9. On a [Bitset128] with no bit set [HighestSetBit] and
    [LowestSetBit] both return -1; otherwise they return the position
    of the most significant and of the least significant set bit; when
    bit 127 is the only set bit both return 127.  [SetBit] and
    [ClearBit] at a position of 128 or more leave both words unchanged
    and [TestBit] is false there.  The loops compiled in the absence of
    the bit-scan builtins return the same results. *)
Theorem C9_bitset_queries (s : Bitset128) (pos : Z) :
  wf_bitset s ->
  (no_bit_set s -> HighestSetBit s = -1 /\ LowestSetBit s = -1) /\
  ((exists p, TestBit s p = true) ->
     is_highest s (HighestSetBit s) /\ is_lowest s (LowestSetBit s)) /\
  ((forall p, TestBit s p = true <-> p = 127) ->
     HighestSetBit s = 127 /\ LowestSetBit s = 127) /\
  (kMaxBitPosition <= pos ->
     SetBit pos s = s /\ ClearBit pos s = s /\ TestBit s pos = false) /\
  (HighestSetBit_portable s = HighestSetBit s /\
   LowestSetBit_portable s = LowestSetBit s).
Proof.
  intros Hwf. repeat apply conj.
  - intros Hn. split; [apply HighestSetBit_empty | apply LowestSetBit_empty];
      assumption.
  - intros Hex. split;
      [apply HighestSetBit_is_highest | apply LowestSetBit_is_lowest]; assumption.
  - apply only_bit_extremal. assumption.
  - intros Hpos. repeat apply conj.
    + apply SetBit_out_of_range. assumption.
    + apply ClearBit_out_of_range. assumption.
    + apply TestBit_outside. unfold kMaxBitPosition in *. lia.
  - apply HighestSetBit_portable_eq. assumption.
  - apply LowestSetBit_portable_eq. assumption.
Qed.

(** ** Arrays *)

Lemma arr_get_set_eq a i v :
  0 <= i -> (Z.to_nat i < length a)%nat -> arr_get (arr_set a i v) i = v.
Proof.
  intros Hi Hlen. unfold arr_get, arr_set.
  rewrite list_lookup_insert_eq by assumption. reflexivity.
Qed.

Lemma arr_get_set_ne a i j v :
  0 <= i -> 0 <= j -> i <> j -> arr_get (arr_set a i v) j = arr_get a j.
Proof.
  intros Hi Hj Hne. unfold arr_get, arr_set.
  rewrite list_lookup_insert_ne by lia. reflexivity.
Qed.

Lemma wf_array_set a i v : wf_array a -> is_uint32 v -> wf_array (arr_set a i v).
Proof.
  intros [Hlen Hall] Hv. split.
  - unfold arr_set. rewrite length_insert. exact Hlen.
  - unfold arr_set. apply Forall_insert; assumption.
Qed.

Lemma wf_array_zeroed : wf_array zeroed.
Proof.
  split.
  - unfold zeroed. apply length_replicate.
  - unfold zeroed. apply Forall_replicate. unfold is_uint32, uint32_mod. lia.
Qed.

Lemma arr_get_zeroed p : arr_get zeroed p = 0.
Proof.
  unfold arr_get, zeroed.
  destruct (replicate (Z.to_nat kArraySize) 0 !! Z.to_nat p) eqn:Hl; [|reflexivity].
  apply lookup_replicate in Hl as [-> _]. reflexivity.
Qed.

Lemma arr_get_uint32 a p : wf_array a -> is_uint32 (arr_get a p).
Proof.
  intros [_ Hall]. unfold arr_get.
  destruct (a !! Z.to_nat p) eqn:Hl; cbn.
  - eapply Forall_lookup_1; eassumption.
  - unfold is_uint32, uint32_mod. lia.
Qed.

Lemma wf_array_index a p :
  wf_array a -> 0 <= p < kArraySize -> (Z.to_nat p < length a)%nat.
Proof. intros [Hlen _] Hp. rewrite Hlen. lia. Qed.

Lemma wrap32_uint32 x : is_uint32 (wrap32 x).
Proof. unfold is_uint32, wrap32, uint32_mod. apply Z.mod_pos_bound. lia. Qed.

(** ** The representation is kept by every mutator *)

Lemma bits_in_domain_SetBit s p :
  0 <= p < kArraySize -> bits_in_domain s -> bits_in_domain (SetBit p s).
Proof.
  intros Hp Hd q Hq. unfold kArraySize, kMaxBookLevels in *.
  rewrite TestBit_SetBit by lia. rewrite Hd by assumption.
  apply Z.eqb_neq. lia.
Qed.

Lemma bits_in_domain_ClearBit s p :
  wf_bitset s -> 0 <= p -> bits_in_domain s -> bits_in_domain (ClearBit p s).
Proof.
  intros Hwf Hp Hd q Hq.
  destruct (Z.lt_ge_cases p 128).
  - rewrite TestBit_ClearBit by (assumption || lia). rewrite Hd by assumption.
    reflexivity.
  - rewrite ClearBit_out_of_range by (unfold kMaxBitPosition; lia). auto.
Qed.

Lemma bits_in_domain_empty : bits_in_domain empty_bitset.
Proof. intros p _. apply no_bit_set_empty. Qed.

Lemma wf_empty_book : wf_book empty_book.
Proof.
  constructor; cbn; auto using wf_array_zeroed, wf_empty_bitset, bits_in_domain_empty.
Qed.

Lemma wf_load_level st p q :
  is_uint32 p -> is_uint32 q -> wf_side st -> wf_side (load_level st p q).
Proof.
  intros Hp Hq (Ha & Hs & Hd). unfold load_level.
  destruct (Z.ltb_spec p kArraySize); [|exact (conj Ha (conj Hs Hd))].
  unfold is_uint32 in Hp.
  split; [|split]; cbn [fst snd].
  - apply wf_array_set; assumption.
  - destruct (q >? 0); [apply wf_SetBit; (assumption || lia) | assumption].
  - destruct (q >? 0); [apply bits_in_domain_SetBit; (assumption || lia) | assumption].
Qed.

Lemma lookup_default_uint32 (l : list Z) i :
  Forall is_uint32 l -> is_uint32 (default 0 (l !! i)).
Proof.
  intros Hall. destruct (l !! i) eqn:Hl; cbn.
  - eapply Forall_lookup_1; eassumption.
  - unfold is_uint32, uint32_mod. lia.
Qed.

Lemma wf_load_side count prices qtys st :
  Forall is_uint32 prices -> Forall is_uint32 qtys ->
  wf_side st -> wf_side (load_side count prices qtys st).
Proof.
  intros Hp Hq. unfold load_side.
  generalize (seq 0 (Z.to_nat count)) as l. intros l. revert st.
  induction l as [|i l IH]; intros st Hst; cbn [fold_left]; [assumption|].
  apply IH. apply wf_load_level; auto using lookup_default_uint32.
Qed.

Lemma wf_ApplySnapshot snap b : wf_snapshot snap -> wf_book (ApplySnapshot snap b).
Proof.
  intros [(_ & _ & _ & _ & Hyp & Hyq) (_ & _ & _ & _ & Hnp & Hnq)].
  assert (H0 : wf_side (zeroed, {| low := 0; high := 0 |})).
  { exact (conj wf_array_zeroed (conj wf_empty_bitset bits_in_domain_empty)). }
  pose proof (wf_load_side (SnapshotMessage.yes_count snap) _ _ _ Hyp Hyq H0)
    as (? & ? & ?).
  pose proof (wf_load_side (SnapshotMessage.no_count snap) _ _ _ Hnp Hnq H0)
    as (? & ? & ?).
  unfold ApplySnapshot. constructor; cbn [bids_ asks_ bids_bitset_ asks_bitset_ reset];
    assumption.
Qed.

Lemma wf_ApplyDelta msg b : wf_delta msg -> wf_book b -> wf_book (ApplyDelta msg b).
Proof.
  intros [Hp _] Hwf. destruct Hwf. unfold ApplyDelta, is_uint32 in *.
  destruct (Z.geb_spec (DeltaMessage.price msg) kArraySize); [constructor; assumption|].
  destruct (DeltaMessage.side msg); constructor;
    cbn [bids_ asks_ bids_bitset_ asks_bitset_]; try assumption;
    try (apply wf_array_set; [assumption | apply wrap32_uint32]);
    match goal with
    | |- context [if ?c then _ else _] => destruct c
    end;
    auto using wf_ClearBit, wf_SetBit;
    try (apply bits_in_domain_ClearBit; (assumption || lia));
    try (apply bits_in_domain_SetBit; (assumption || lia));
    apply wf_SetBit; (assumption || lia).
Qed.

Lemma wf_ApplyTrade trade b : wf_trade trade -> wf_book b -> wf_book (ApplyTrade trade b).
Proof.
  intros (Hy & Hn & _) Hwf. destruct Hwf. unfold ApplyTrade, is_uint32 in *.
  destruct (TradeMessage.count trade <=? 0); [constructor; assumption|].
  destruct (TradeMessage.taker_side trade); [constructor; assumption| |].
  - destruct (Z.ltb_spec (TradeMessage.no_price trade) kArraySize);
      constructor; cbn [bids_ asks_ bids_bitset_ asks_bitset_]; try assumption;
      try (apply wf_array_set; [assumption | apply wrap32_uint32]);
      match goal with
      | |- context [if ?c then _ else _] => destruct c
      end;
      auto using wf_ClearBit;
      apply bits_in_domain_ClearBit; (assumption || lia).
  - destruct (Z.ltb_spec (TradeMessage.yes_price trade) kArraySize);
      constructor; cbn [bids_ asks_ bids_bitset_ asks_bitset_]; try assumption;
      try (apply wf_array_set; [assumption | apply wrap32_uint32]);
      match goal with
      | |- context [if ?c then _ else _] => destruct c
      end;
      auto using wf_ClearBit;
      apply bits_in_domain_ClearBit; (assumption || lia).
Qed.

Lemma reachable_wf b : reachable b -> wf_book b.
Proof.
  induction 1;
    auto using wf_empty_book, wf_ApplySnapshot, wf_ApplyDelta, wf_ApplyTrade.
Qed.

(** ** Deciding the representation of concrete values *)

Lemma bits_in_domain_words s :
  wf_bitset s -> high s < 2 ^ (kArraySize - 64) -> bits_in_domain s.
Proof.
  intros [_ Hh] Hlt p Hp. unfold kArraySize, kMaxBookLevels in *.
  destruct (Z.lt_ge_cases p 128); [|apply TestBit_outside; lia].
  rewrite TestBit_high by lia.
  apply (testbit_above_pow2 _ (100 - 64)); unfold is_uint64 in Hh; lia.
Qed.

Lemma uint32_check (l : list Z) :
  forallb (fun q => (0 <=? q) && (q <? uint32_mod)) l = true ->
  Forall is_uint32 l.
Proof.
  intros Hall. apply Forall_forall. intros q Hq.
  rewrite forallb_forall in Hall. apply list_elem_of_In in Hq.
  specialize (Hall q Hq). apply andb_true_iff in Hall as [H0 H1].
  unfold is_uint32. split; [apply Z.leb_le | apply Z.ltb_lt]; assumption.
Qed.

Lemma wf_array_check a :
  length a = Z.to_nat kArraySize ->
  forallb (fun q => (0 <=? q) && (q <? uint32_mod)) a = true ->
  wf_array a.
Proof. intros Hlen Hall. split; [exact Hlen | apply uint32_check, Hall]. Qed.

Lemma wf_levels_check count prices qtys :
  (- 2 ^ 31 <=? count) && (count <? 2 ^ 31) && (count <=? kMaxBookLevels) = true ->
  length prices = Z.to_nat kMaxBookLevels ->
  length qtys = Z.to_nat kMaxBookLevels ->
  forallb (fun q => (0 <=? q) && (q <? uint32_mod)) prices = true ->
  forallb (fun q => (0 <=? q) && (q <? uint32_mod)) qtys = true ->
  wf_levels count prices qtys.
Proof.
  intros Hc Hlp Hlq Hp Hq.
  apply andb_true_iff in Hc as [Hc Hc3]. apply andb_true_iff in Hc as [Hc1 Hc2].
  apply Z.leb_le in Hc1, Hc3. apply Z.ltb_lt in Hc2.
  unfold wf_levels, is_int32.
  repeat split; auto using uint32_check.
Qed.

Lemma wf_bitset_check s :
  (0 <=? low s) && (low s <? uint64_mod) &&
  (0 <=? high s) && (high s <? uint64_mod) = true ->
  wf_bitset s.
Proof.
  intros H. repeat (apply andb_true_iff in H as [H ?]).
  unfold wf_bitset, is_uint64.
  repeat split; (apply Z.leb_le || apply Z.ltb_lt); assumption.
Qed.

Lemma wf_book_check b :
  length (bids_ b) = Z.to_nat kArraySize ->
  length (asks_ b) = Z.to_nat kArraySize ->
  forallb (fun q => (0 <=? q) && (q <? uint32_mod)) (bids_ b) = true ->
  forallb (fun q => (0 <=? q) && (q <? uint32_mod)) (asks_ b) = true ->
  (0 <=? low (bids_bitset_ b)) && (low (bids_bitset_ b) <? uint64_mod) &&
  (0 <=? high (bids_bitset_ b)) && (high (bids_bitset_ b) <? uint64_mod) = true ->
  (0 <=? low (asks_bitset_ b)) && (low (asks_bitset_ b) <? uint64_mod) &&
  (0 <=? high (asks_bitset_ b)) && (high (asks_bitset_ b) <? uint64_mod) = true ->
  high (bids_bitset_ b) < 2 ^ (kArraySize - 64) ->
  high (asks_bitset_ b) < 2 ^ (kArraySize - 64) ->
  wf_book b.
Proof.
  intros. constructor;
    auto using wf_array_check, wf_bitset_check, bits_in_domain_words.
Qed.

Lemma wf_one_lot_trade : wf_trade one_lot_trade.
Proof. unfold wf_trade, is_uint32, is_int32, uint32_mod. cbn. lia. Qed.

Lemma wf_price_five_twice : wf_snapshot price_five_twice.
Proof. split; apply wf_levels_check; reflexivity. Qed.

(** ** ApplySnapshot replaces the whole state *)

Lemma ApplySnapshot_ignores_state snap b1 b2 :
  ApplySnapshot snap b1 = ApplySnapshot snap b2.
Proof. reflexivity. Qed.

(** C5. Applying a snapshot twice in a row leaves the book in the
    state reached by applying it once. *)
Theorem C5_snapshot_idempotent (snap : SnapshotMessage.t) (b : OrderBook) :
  ApplySnapshot snap (ApplySnapshot snap b) = ApplySnapshot snap b.
Proof. apply ApplySnapshot_ignores_state. Qed.

(** ** What a snapshot loads *)

Lemma load_side_levels count prices qtys st :
  load_side count prices qtys st
  = fold_left (fun st pq => load_level st pq.1 pq.2)
      (snapshot_levels count prices qtys) st.
Proof.
  unfold load_side, snapshot_levels.
  generalize (seq 0 (Z.to_nat count)) as l. intros l. revert st.
  induction l as [|i l IH]; intros st; [reflexivity|].
  cbn [map fold_left fst snd]. apply IH.
Qed.

Lemma last_qty_from p l : forall acc,
  fold_left (fun acc pq => if pq.1 =? p then Some pq.2 else acc) l acc
  = match last_qty p l with Some v => Some v | None => acc end.
Proof.
  unfold last_qty. induction l as [|[p2 q2] l IH]; intros acc; [reflexivity|].
  cbn [fold_left fst snd]. rewrite IH. symmetry. rewrite IH.
  destruct (fold_left _ l None); [reflexivity|].
  destruct (p2 =? p); reflexivity.
Qed.

Lemma last_qty_cons p p1 q1 l :
  last_qty p ((p1, q1) :: l)
  = match last_qty p l with
    | Some v => Some v
    | None => if p1 =? p then Some q1 else None
    end.
Proof. unfold last_qty at 1. cbn [fold_left fst snd]. apply last_qty_from. Qed.

Lemma load_level_get a s p1 q1 p :
  wf_array a -> 0 <= p1 -> 0 <= p < kArraySize ->
  arr_get (load_level (a, s) p1 q1).1 p
  = if p1 =? p then q1 else arr_get a p.
Proof.
  intros Ha Hp1 Hp. unfold load_level. cbn [fst snd].
  destruct (Z.ltb_spec p1 kArraySize); cbn [fst].
  - destruct (Z.eqb_spec p1 p) as [->|Hne].
    + apply arr_get_set_eq; [lia|]. apply wf_array_index; assumption.
    + apply arr_get_set_ne; lia.
  - destruct (Z.eqb_spec p1 p); [lia|reflexivity].
Qed.

Lemma load_level_bit a s p1 q1 p :
  0 <= p1 -> 0 <= p < kArraySize ->
  TestBit (load_level (a, s) p1 q1).2 p
  = TestBit s p || ((p1 =? p) && (q1 >? 0)).
Proof.
  intros Hp1 Hp. unfold load_level. cbn [fst snd].
  assert (Hk : kArraySize <= 128) by (unfold kArraySize, kMaxBookLevels; lia).
  destruct (Z.ltb_spec p1 kArraySize); cbn [snd].
  - destruct (q1 >? 0).
    + rewrite TestBit_SetBit by lia. rewrite (Z.eqb_sym p p1), andb_true_r.
      reflexivity.
    + rewrite andb_false_r, orb_false_r. reflexivity.
  - destruct (Z.eqb_spec p1 p); [lia|]. rewrite orb_false_r. reflexivity.
Qed.

(** After the pairs [l] are loaded into array [a] and bitset [s], an
    in-range price holds the quantity of its last pair in [l] (its old
    quantity when [l] does not list it), and its presence bit is set
    exactly when it was set before or some pair of [l] with that price
    has a positive quantity. *)
Lemma load_levels_spec l : forall a s,
  wf_side (a, s) -> Forall (fun pq => is_uint32 pq.1 /\ is_uint32 pq.2) l ->
  forall p, 0 <= p < kArraySize ->
    let st := fold_left (fun st pq => load_level st pq.1 pq.2) l (a, s) in
    arr_get st.1 p = default (arr_get a p) (last_qty p l) /\
    (TestBit st.2 p = true <->
     TestBit s p = true \/ exists q, (p, q) ∈ l /\ 0 < q).
Proof.
  induction l as [|[p1 q1] l IH]; intros a s Hwf Hall p Hp; cbn zeta.
  - cbn. split; [reflexivity|]. split; [auto|].
    intros [H|(q & Hin & _)]; [exact H|]. inversion Hin.
  - apply Forall_cons in Hall as [[Hp1 Hq1] Hall]. cbn [fst snd] in Hp1, Hq1.
    cbn [fold_left fst snd].
    pose proof (wf_load_level (a, s) p1 q1 Hp1 Hq1 Hwf) as Hwf1.
    destruct (load_level (a, s) p1 q1) as [a1 s1] eqn:Hst1.
    destruct (IH a1 s1 Hwf1 Hall p Hp) as [Hget Hbit]. cbn zeta in Hget, Hbit.
    assert (Ha1 : arr_get a1 p = if p1 =? p then q1 else arr_get a p).
    { change a1 with (a1, s1).1. rewrite <- Hst1.
      apply load_level_get; [apply Hwf | apply Hp1 | exact Hp]. }
    assert (Hs1 : TestBit s1 p = TestBit s p || ((p1 =? p) && (q1 >? 0))).
    { change s1 with (a1, s1).2. rewrite <- Hst1.
      apply load_level_bit; [apply Hp1 | exact Hp]. }
    split.
    + rewrite Hget, Ha1, last_qty_cons.
      destruct (last_qty p l); [reflexivity|].
      destruct (p1 =? p); reflexivity.
    + rewrite Hbit, Hs1. rewrite orb_true_iff, andb_true_iff.
      rewrite Z.eqb_eq, Z.gtb_lt. split.
      * intros [[H|[-> Hq]]|(q & Hin & Hq)]; [left; exact H | |].
        -- right. exists q1. split; [left|exact Hq].
        -- right. exists q. split; [right; exact Hin|exact Hq].
      * intros [H|(q & Hin & Hq)]; [left; left; exact H|].
        apply elem_of_cons in Hin as [Heq|Hin].
        -- inversion Heq; subst. left. right. split; [reflexivity|exact Hq].
        -- right. exists q. split; assumption.
Qed.

Lemma snapshot_levels_uint32 count prices qtys :
  Forall is_uint32 prices -> Forall is_uint32 qtys ->
  Forall (fun pq => is_uint32 pq.1 /\ is_uint32 pq.2)
    (snapshot_levels count prices qtys).
Proof.
  intros Hp Hq. unfold snapshot_levels.
  induction (seq 0 (Z.to_nat count)) as [|i l IH]; cbn [map]; constructor;
    [|exact IH].
  cbn [fst snd]. split; apply lookup_default_uint32; assumption.
Qed.

Lemma last_qty_elem p l v : last_qty p l = Some v -> (p, v) ∈ l.
Proof.
  induction l as [|[p1 q1] l IH]; [discriminate|].
  rewrite last_qty_cons. destruct (last_qty p l) as [w|].
  - intros [= ->]. right. apply IH. reflexivity.
  - destruct (Z.eqb_spec p1 p) as [->|]; [|discriminate].
    intros [= ->]. left.
Qed.

Lemma last_qty_none p l : last_qty p l = None <-> forall q, (p, q) ∉ l.
Proof.
  induction l as [|[p1 q1] l IH].
  - split; [intros _ q Hin; inversion Hin | reflexivity].
  - rewrite last_qty_cons. destruct (last_qty p l) as [w|] eqn:Hl.
    + split; [discriminate|]. intros Hnot. exfalso.
      apply (Hnot w). right. apply last_qty_elem. exact Hl.
    + destruct (Z.eqb_spec p1 p) as [->|Hne].
      * split; [discriminate|]. intros Hnot. exfalso. apply (Hnot q1). left.
      * split; [|reflexivity]. intros _ q Hin.
        apply elem_of_cons in Hin as [Heq|Hin]; [congruence|].
        destruct IH as [IH _]. exact (IH eq_refl q Hin).
Qed.

(** The state after [ApplySnapshot], level by level: the array holds
    the quantity of the last pair listed for the price, 0 when none is;
    the presence bit is set exactly when some pair listed for the price
    has a positive quantity.  Pairs with a price outside the domain
    reach neither the array nor the bitset ([wf_ApplySnapshot]). *)
Lemma ApplySnapshot_levels snap b p :
  wf_snapshot snap -> 0 <= p < kMaxBookLevels ->
  let yes := snapshot_levels (SnapshotMessage.yes_count snap)
               (SnapshotMessage.yes_price snap) (SnapshotMessage.yes_qty snap) in
  let no := snapshot_levels (SnapshotMessage.no_count snap)
              (SnapshotMessage.no_price snap) (SnapshotMessage.no_qty snap) in
  arr_get (bids_ (ApplySnapshot snap b)) p = default 0 (last_qty p yes) /\
  (TestBit (bids_bitset_ (ApplySnapshot snap b)) p = true <->
   exists q, (p, q) ∈ yes /\ 0 < q) /\
  arr_get (asks_ (ApplySnapshot snap b)) p = default 0 (last_qty p no) /\
  (TestBit (asks_bitset_ (ApplySnapshot snap b)) p = true <->
   exists q, (p, q) ∈ no /\ 0 < q).
Proof.
  intros [(_ & _ & _ & _ & Hyp & Hyq) (_ & _ & _ & _ & Hnp & Hnq)] Hp yes no.
  assert (H0 : wf_side (zeroed, {| low := 0; high := 0 |}))
    by exact (conj wf_array_zeroed (conj wf_empty_bitset bits_in_domain_empty)).
  unfold ApplySnapshot. cbn [bids_ asks_ bids_bitset_ asks_bitset_ reset].
  rewrite !load_side_levels. fold yes. fold no.
  destruct (load_levels_spec yes _ _ H0
              (snapshot_levels_uint32 _ _ _ Hyp Hyq) p Hp) as [Hyg Hyb].
  destruct (load_levels_spec no _ _ H0
              (snapshot_levels_uint32 _ _ _ Hnp Hnq) p Hp) as [Hng Hnb].
  cbn zeta in *. rewrite arr_get_zeroed in Hyg, Hng.
  change (TestBit {| low := 0; high := 0 |} p) with (TestBit empty_bitset p)
    in Hyb, Hnb.
  rewrite no_bit_set_empty in Hyb, Hnb.
  repeat split; try assumption.
  - intros H. apply Hyb in H as [H|H]; [discriminate|exact H].
  - intros H. apply Hyb. right. exact H.
  - intros H. apply Hnb in H as [H|H]; [discriminate|exact H].
  - intros H. apply Hnb. right. exact H.
Qed.

(** ** Which pairs of a snapshot decide the presence bit *)

(** C4 fails on the code.  After a snapshot whose bid list is
    (5, 10), (5, 0) the bid array at 5 holds the last quantity, 0, but
    the presence bit of price 5 is set: the bit follows the first pair,
    not the last one. *)
Theorem C4_duplicate_price_leaves_stale_bit :
  wf_snapshot price_five_twice /\
  snapshot_levels (SnapshotMessage.yes_count price_five_twice)
    (SnapshotMessage.yes_price price_five_twice)
    (SnapshotMessage.yes_qty price_five_twice) = [(5, 10); (5, 0)] /\
  last_qty 5 [(5, 10); (5, 0)] = Some 0 /\
  arr_get (bids_ (ApplySnapshot price_five_twice empty_book)) 5 = 0 /\
  TestBit (bids_bitset_ (ApplySnapshot price_five_twice empty_book)) 5 = true.
Proof.
  split; [apply wf_price_five_twice|]. repeat split; reflexivity.
Qed.

(** ** Guards of ApplyDelta and ApplyTrade *)

(** C6. [ApplyDelta] with a price outside the price domain or with an
    undefined side returns the book unchanged; so does [ApplyTrade]
    with a count that is not positive, with an undefined taker side,
    or with the consumed side's price outside the domain. *)
Theorem C6_guarded_calls_are_noops
    (b : OrderBook) (msg : DeltaMessage.t) (trade : TradeMessage.t) :
  wf_delta msg -> wf_trade trade ->
  (~ (0 <= DeltaMessage.price msg < kMaxBookLevels) \/
   DeltaMessage.side msg = kUndefined ->
   ApplyDelta msg b = b) /\
  (TradeMessage.count trade <= 0 \/
   TradeMessage.taker_side trade = kUndefined \/
   (TradeMessage.taker_side trade = kYes /\
    ~ (0 <= TradeMessage.no_price trade < kMaxBookLevels)) \/
   (TradeMessage.taker_side trade = kNo /\
    ~ (0 <= TradeMessage.yes_price trade < kMaxBookLevels)) ->
   ApplyTrade trade b = b).
Proof.
  intros [Hdp _] (Hty & Htn & _). unfold is_uint32, kArraySize in *. split.
  - intros [Hout | Hside]; unfold ApplyDelta, kArraySize.
    + destruct (Z.geb_spec (DeltaMessage.price msg) kMaxBookLevels);
        [reflexivity | lia].
    + rewrite Hside.
      destruct (DeltaMessage.price msg >=? kMaxBookLevels); reflexivity.
  - intros Hcases. unfold ApplyTrade, kArraySize.
    destruct (Z.leb_spec (TradeMessage.count trade) 0); [reflexivity|].
    destruct Hcases as [Hc | [Hside | [[Hside Hout] | [Hside Hout]]]];
      [lia | rewrite Hside; reflexivity | |]; rewrite Hside.
    + destruct (Z.ltb_spec (TradeMessage.no_price trade) kMaxBookLevels);
        [lia | reflexivity].
    + destruct (Z.ltb_spec (TradeMessage.yes_price trade) kMaxBookLevels);
        [lia | reflexivity].
Qed.

(** ** ApplyTrade on an in-range level *)

Lemma ApplyTrade_yes b trade :
  0 < TradeMessage.count trade ->
  TradeMessage.taker_side trade = kYes ->
  TradeMessage.no_price trade < kArraySize ->
  let p := TradeMessage.no_price trade in
  let q := wrap32 (arr_get (asks_ b) p - TradeMessage.count trade) in
  ApplyTrade trade b =
  {| bids_ := bids_ b;
     asks_ := arr_set (asks_ b) p q;
     bids_bitset_ := bids_bitset_ b;
     asks_bitset_ := if q =? 0 then ClearBit p (asks_bitset_ b) else asks_bitset_ b |}.
Proof.
  intros Hc Hside Hp. unfold ApplyTrade. rewrite Hside.
  destruct (Z.leb_spec (TradeMessage.count trade) 0); [lia|].
  destruct (Z.ltb_spec (TradeMessage.no_price trade) kArraySize); [reflexivity|lia].
Qed.

Lemma ApplyTrade_no b trade :
  0 < TradeMessage.count trade ->
  TradeMessage.taker_side trade = kNo ->
  TradeMessage.yes_price trade < kArraySize ->
  let p := TradeMessage.yes_price trade in
  let q := wrap32 (arr_get (bids_ b) p - TradeMessage.count trade) in
  ApplyTrade trade b =
  {| bids_ := arr_set (bids_ b) p q;
     asks_ := asks_ b;
     bids_bitset_ := if q =? 0 then ClearBit p (bids_bitset_ b) else bids_bitset_ b;
     asks_bitset_ := asks_bitset_ b |}.
Proof.
  intros Hc Hside Hp. unfold ApplyTrade. rewrite Hside.
  destruct (Z.leb_spec (TradeMessage.count trade) 0); [lia|].
  destruct (Z.ltb_spec (TradeMessage.yes_price trade) kArraySize); [reflexivity|lia].
Qed.

Lemma ApplyTrade_yes_keeps_bids b trade :
  TradeMessage.taker_side trade = kYes ->
  bids_ (ApplyTrade trade b) = bids_ b /\
  bids_bitset_ (ApplyTrade trade b) = bids_bitset_ b.
Proof.
  intros Hside. unfold ApplyTrade. rewrite Hside.
  destruct (TradeMessage.count trade <=? 0); [auto|].
  destruct (TradeMessage.no_price trade <? kArraySize); auto.
Qed.

Lemma ApplyTrade_no_keeps_asks b trade :
  TradeMessage.taker_side trade = kNo ->
  asks_ (ApplyTrade trade b) = asks_ b /\
  asks_bitset_ (ApplyTrade trade b) = asks_bitset_ b.
Proof.
  intros Hside. unfold ApplyTrade. rewrite Hside.
  destruct (TradeMessage.count trade <=? 0); [auto|].
  destruct (TradeMessage.yes_price trade <? kArraySize); auto.
Qed.

Lemma consumed_intro a s p c :
  wf_array a -> wf_bitset s -> 0 <= p < kArraySize -> 0 < c ->
  let q := wrap32 (arr_get a p - c) in
  consumed a s p c (arr_set a p q) (if q =? 0 then ClearBit p s else s).
Proof.
  intros Ha Hs Hp Hc q. unfold consumed.
  pose proof (wf_array_index a p Ha Hp) as Hidx.
  pose proof (arr_get_uint32 a p Ha) as Hq.
  assert (Hp128 : 0 <= p < 128) by (unfold kArraySize, kMaxBookLevels in Hp; lia).
  rewrite arr_get_set_eq by (lia || assumption).
  repeat apply conj.
  - reflexivity.
  - intros Hle. subst q. unfold wrap32, is_uint32, uint32_mod in *.
    apply Z.mod_small. lia.
  - intros r Hr Hne. apply arr_get_set_ne; lia.
  - intros r Hne. destruct (q =? 0); [|reflexivity].
    rewrite TestBit_ClearBit by assumption.
    destruct (Z.eqb_spec r p); [contradiction|]. apply andb_true_r.
  - intros Hz. rewrite Hz. cbn.
    rewrite TestBit_ClearBit by assumption. rewrite Z.eqb_refl. apply andb_false_r.
  - intros Hnz. destruct (Z.eqb_spec q 0); [contradiction|reflexivity].
Qed.

Lemma ApplyTrade_yes_consumed b trade :
  wf_book b -> wf_trade trade -> 0 < TradeMessage.count trade ->
  TradeMessage.taker_side trade = kYes ->
  TradeMessage.no_price trade < kMaxBookLevels ->
  consumed (asks_ b) (asks_bitset_ b)
    (TradeMessage.no_price trade) (TradeMessage.count trade)
    (asks_ (ApplyTrade trade b)) (asks_bitset_ (ApplyTrade trade b)).
Proof.
  intros Hwf (Hy & Hn & _) Hc Hside Hp. destruct Hwf. unfold is_uint32 in *.
  rewrite (ApplyTrade_yes b trade Hc Hside Hp). cbn [asks_ asks_bitset_].
  apply consumed_intro; (assumption || (unfold kArraySize; lia)).
Qed.

Lemma ApplyTrade_no_consumed b trade :
  wf_book b -> wf_trade trade -> 0 < TradeMessage.count trade ->
  TradeMessage.taker_side trade = kNo ->
  TradeMessage.yes_price trade < kMaxBookLevels ->
  consumed (bids_ b) (bids_bitset_ b)
    (TradeMessage.yes_price trade) (TradeMessage.count trade)
    (bids_ (ApplyTrade trade b)) (bids_bitset_ (ApplyTrade trade b)).
Proof.
  intros Hwf (Hy & Hn & _) Hc Hside Hp. destruct Hwf. unfold is_uint32 in *.
  rewrite (ApplyTrade_no b trade Hc Hside Hp). cbn [bids_ bids_bitset_].
  apply consumed_intro; (assumption || (unfold kArraySize; lia)).
Qed.

(** C7. A trade with a positive count and taker side "yes" lowers the
    ask quantity at [no_price] by the count (in 32-bit unsigned
    arithmetic) when that price is in the domain, clears the ask
    presence bit of that price exactly when the new quantity is zero,
    and leaves the bid side as it was; taker side "no" does the same to
    the bid side at [yes_price] and leaves the ask side as it was. *)
Theorem C7_trade_consumes_opposite_side (b : OrderBook) (trade : TradeMessage.t) :
  wf_book b -> wf_trade trade -> 0 < TradeMessage.count trade ->
  (TradeMessage.taker_side trade = kYes ->
     bids_ (ApplyTrade trade b) = bids_ b /\
     bids_bitset_ (ApplyTrade trade b) = bids_bitset_ b /\
     (TradeMessage.no_price trade < kMaxBookLevels ->
        consumed (asks_ b) (asks_bitset_ b)
          (TradeMessage.no_price trade) (TradeMessage.count trade)
          (asks_ (ApplyTrade trade b)) (asks_bitset_ (ApplyTrade trade b)))) /\
  (TradeMessage.taker_side trade = kNo ->
     asks_ (ApplyTrade trade b) = asks_ b /\
     asks_bitset_ (ApplyTrade trade b) = asks_bitset_ b /\
     (TradeMessage.yes_price trade < kMaxBookLevels ->
        consumed (bids_ b) (bids_bitset_ b)
          (TradeMessage.yes_price trade) (TradeMessage.count trade)
          (bids_ (ApplyTrade trade b)) (bids_bitset_ (ApplyTrade trade b)))).
Proof.
  intros Hwf Hwt Hc. split; intros Hside.
  - destruct (ApplyTrade_yes_keeps_bids b trade Hside) as [-> ->].
    split; [reflexivity|]. split; [reflexivity|]. intros Hp.
    apply ApplyTrade_yes_consumed; assumption.
  - destruct (ApplyTrade_no_keeps_asks b trade Hside) as [-> ->].
    split; [reflexivity|]. split; [reflexivity|]. intros Hp.
    apply ApplyTrade_no_consumed; assumption.
Qed.

(** ** ApplyTrade never sets a presence bit *)

Lemma TestBit_ClearBit_true s p q :
  wf_bitset s -> 0 <= p ->
  TestBit (ClearBit p s) q = true -> TestBit s q = true.
Proof.
  intros Hwf Hp. destruct (Z.lt_ge_cases p 128).
  - rewrite TestBit_ClearBit by (assumption || lia).
    intros Hb. apply andb_true_iff in Hb as [Hb _]. exact Hb.
  - rewrite ClearBit_out_of_range by (unfold kMaxBitPosition; lia). auto.
Qed.

Lemma ApplyTrade_bits_subset b trade :
  wf_book b -> wf_trade trade ->
  forall p,
    (TestBit (bids_bitset_ (ApplyTrade trade b)) p = true ->
     TestBit (bids_bitset_ b) p = true) /\
    (TestBit (asks_bitset_ (ApplyTrade trade b)) p = true ->
     TestBit (asks_bitset_ b) p = true).
Proof.
  intros Hwf (Hy & Hn & _) p. destruct Hwf. unfold is_uint32 in *.
  unfold ApplyTrade.
  destruct (TradeMessage.count trade <=? 0); [auto|].
  destruct (TradeMessage.taker_side trade); [auto| |].
  - destruct (TradeMessage.no_price trade <? kArraySize); [|auto].
    cbn [bids_bitset_ asks_bitset_]. split; [auto|].
    match goal with |- context [if ?c then _ else _] => destruct c end; [|auto].
    apply TestBit_ClearBit_true; (assumption || lia).
  - destruct (TradeMessage.yes_price trade <? kArraySize); [|auto].
    cbn [bids_bitset_ asks_bitset_]. split; [|auto].
    match goal with |- context [if ?c then _ else _] => destruct c end; [|auto].
    apply TestBit_ClearBit_true; (assumption || lia).
Qed.

Lemma wrap32_underflow c :
  0 < c < 2 ^ 31 -> wrap32 (0 - c) = 2 ^ 32 - c /\ wrap32 (0 - c) <> 0.
Proof.
  intros Hc. unfold wrap32, uint32_mod.
  assert (Heq : (0 - c) mod 2 ^ 32 = 2 ^ 32 - c).
  { symmetry. apply Z.mod_unique with (q := -1); lia. }
  rewrite Heq. lia.
Qed.

(** C10. [ApplyTrade] never sets a presence bit: every bit set after
    the call was set before it.  Hence a trade with a positive count
    on an in-range level of the consumed side that stores zero wraps
    the quantity to 2^32 - count, which is not zero, and leaves that
    side's bitset as it was, so a clear presence bit stays clear. *)
Theorem C10_trade_wraps_and_never_sets_bit (b : OrderBook) (trade : TradeMessage.t) :
  wf_book b -> wf_trade trade ->
  (forall p,
     (TestBit (bids_bitset_ (ApplyTrade trade b)) p = true ->
      TestBit (bids_bitset_ b) p = true) /\
     (TestBit (asks_bitset_ (ApplyTrade trade b)) p = true ->
      TestBit (asks_bitset_ b) p = true)) /\
  (0 < TradeMessage.count trade ->
   TradeMessage.taker_side trade = kYes ->
   TradeMessage.no_price trade < kMaxBookLevels ->
   arr_get (asks_ b) (TradeMessage.no_price trade) = 0 ->
   arr_get (asks_ (ApplyTrade trade b)) (TradeMessage.no_price trade)
     = 2 ^ 32 - TradeMessage.count trade /\
   arr_get (asks_ (ApplyTrade trade b)) (TradeMessage.no_price trade) <> 0 /\
   asks_bitset_ (ApplyTrade trade b) = asks_bitset_ b /\
   (TestBit (asks_bitset_ b) (TradeMessage.no_price trade) = false ->
    TestBit (asks_bitset_ (ApplyTrade trade b)) (TradeMessage.no_price trade) = false)) /\
  (0 < TradeMessage.count trade ->
   TradeMessage.taker_side trade = kNo ->
   TradeMessage.yes_price trade < kMaxBookLevels ->
   arr_get (bids_ b) (TradeMessage.yes_price trade) = 0 ->
   arr_get (bids_ (ApplyTrade trade b)) (TradeMessage.yes_price trade)
     = 2 ^ 32 - TradeMessage.count trade /\
   arr_get (bids_ (ApplyTrade trade b)) (TradeMessage.yes_price trade) <> 0 /\
   bids_bitset_ (ApplyTrade trade b) = bids_bitset_ b /\
   (TestBit (bids_bitset_ b) (TradeMessage.yes_price trade) = false ->
    TestBit (bids_bitset_ (ApplyTrade trade b)) (TradeMessage.yes_price trade) = false)).
Proof.
  intros Hwf Hwt. split; [apply ApplyTrade_bits_subset; assumption|].
  pose proof Hwt as (Hy & Hn & Hcnt). unfold is_uint32, is_int32 in *.
  split; intros Hc Hside Hp Hzero.
  - destruct (ApplyTrade_yes_consumed b trade Hwf Hwt Hc Hside Hp)
      as (Hq & _ & _ & _ & _ & Hkeep).
    rewrite Hzero in Hq.
    destruct (wrap32_underflow (TradeMessage.count trade)) as [Hw Hnz]; [lia|].
    rewrite Hw in Hq.
    assert (Hne : arr_get (asks_ (ApplyTrade trade b)) (TradeMessage.no_price trade) <> 0)
      by (rewrite Hq; lia).
    repeat split; try assumption.
    + apply Hkeep. assumption.
    + rewrite (Hkeep Hne). auto.
  - destruct (ApplyTrade_no_consumed b trade Hwf Hwt Hc Hside Hp)
      as (Hq & _ & _ & _ & _ & Hkeep).
    rewrite Hzero in Hq.
    destruct (wrap32_underflow (TradeMessage.count trade)) as [Hw Hnz]; [lia|].
    rewrite Hw in Hq.
    assert (Hne : arr_get (bids_ (ApplyTrade trade b)) (TradeMessage.yes_price trade) <> 0)
      by (rewrite Hq; lia).
    repeat split; try assumption.
    + apply Hkeep. assumption.
    + rewrite (Hkeep Hne). auto.
Qed.

(** ** Mutations that keep the array/bitset invariant *)

Lemma side_inv_recomputed a s p q :
  wf_array a -> wf_bitset s -> 0 <= p < kArraySize ->
  side_inv a s ->
  side_inv (arr_set a p q) (if q =? 0 then ClearBit p s else SetBit p s).
Proof.
  intros Ha Hs Hp Hinv r Hr.
  assert (Hp128 : 0 <= p < 128) by (unfold kArraySize, kMaxBookLevels in Hp; lia).
  destruct (Z.eq_dec r p) as [->|Hne].
  - rewrite arr_get_set_eq by (lia || apply wf_array_index; assumption).
    destruct (Z.eqb_spec q 0) as [Hq|Hq].
    + rewrite TestBit_ClearBit, Z.eqb_refl, andb_false_r by assumption.
      split; [discriminate|contradiction].
    + rewrite TestBit_SetBit, Z.eqb_refl, orb_true_r by assumption.
      split; auto.
  - rewrite arr_get_set_ne by lia. rewrite <- (Hinv r Hr).
    destruct (q =? 0).
    + rewrite TestBit_ClearBit by assumption.
      destruct (Z.eqb_spec r p); [contradiction|]. rewrite andb_true_r. reflexivity.
    + rewrite TestBit_SetBit by assumption.
      destruct (Z.eqb_spec r p); [contradiction|]. rewrite orb_false_r. reflexivity.
Qed.

Lemma side_inv_consumed a s p q :
  wf_array a -> wf_bitset s -> 0 <= p < kArraySize ->
  arr_get a p <> 0 ->
  side_inv a s ->
  side_inv (arr_set a p q) (if q =? 0 then ClearBit p s else s).
Proof.
  intros Ha Hs Hp Hocc Hinv r Hr.
  assert (Hp128 : 0 <= p < 128) by (unfold kArraySize, kMaxBookLevels in Hp; lia).
  destruct (Z.eq_dec r p) as [->|Hne].
  - rewrite arr_get_set_eq by (lia || apply wf_array_index; assumption).
    destruct (Z.eqb_spec q 0) as [Hq|Hq].
    + rewrite TestBit_ClearBit, Z.eqb_refl, andb_false_r by assumption.
      split; [discriminate|contradiction].
    + split; [auto|]. intros _. apply Hinv; assumption.
  - rewrite arr_get_set_ne by lia. rewrite <- (Hinv r Hr).
    destruct (q =? 0); [|reflexivity].
    rewrite TestBit_ClearBit by assumption.
    destruct (Z.eqb_spec r p); [contradiction|]. rewrite andb_true_r. reflexivity.
Qed.

(** [ApplyDelta] keeps the invariant. *)
Lemma ApplyDelta_keeps_inv msg b :
  wf_book b -> wf_delta msg -> book_inv b -> book_inv (ApplyDelta msg b).
Proof.
  intros Hwf [Hp _] [Hbi Hai]. destruct Hwf. unfold is_uint32 in Hp.
  unfold ApplyDelta.
  destruct (Z.geb_spec (DeltaMessage.price msg) kArraySize); [split; assumption|].
  destruct (DeltaMessage.side msg); split;
    cbn [bids_ asks_ bids_bitset_ asks_bitset_]; try assumption;
    apply side_inv_recomputed; (assumption || lia).
Qed.

(** [ApplyTrade] keeps the invariant when the level it consumes holds
    a non-zero quantity. *)
Lemma ApplyTrade_keeps_inv trade b :
  wf_book b -> wf_trade trade -> book_inv b ->
  (TradeMessage.taker_side trade = kYes ->
   arr_get (asks_ b) (TradeMessage.no_price trade) <> 0) ->
  (TradeMessage.taker_side trade = kNo ->
   arr_get (bids_ b) (TradeMessage.yes_price trade) <> 0) ->
  book_inv (ApplyTrade trade b).
Proof.
  intros Hwf (Hy & Hn & _) [Hbi Hai] Hyes Hno. destruct Hwf.
  unfold is_uint32 in *. unfold ApplyTrade.
  destruct (TradeMessage.count trade <=? 0); [split; assumption|].
  destruct (TradeMessage.taker_side trade); [split; assumption| |].
  - destruct (Z.ltb_spec (TradeMessage.no_price trade) kArraySize);
      [|split; assumption].
    split; cbn [bids_ asks_ bids_bitset_ asks_bitset_]; [assumption|].
    apply side_inv_consumed; auto; lia.
  - destruct (Z.ltb_spec (TradeMessage.yes_price trade) kArraySize);
      [|split; assumption].
    split; cbn [bids_ asks_ bids_bitset_ asks_bitset_]; [|assumption].
    apply side_inv_consumed; auto; lia.
Qed.

Lemma last_qty_nodup p q l :
  NoDup (map fst l) -> (p, q) ∈ l -> last_qty p l = Some q.
Proof.
  induction l as [|[p1 q1] l IH]; intros Hnd Hin; [inversion Hin|].
  cbn [map fst] in Hnd. apply NoDup_cons in Hnd as [Hfresh Hnd].
  rewrite last_qty_cons. apply elem_of_cons in Hin as [Heq|Hin].
  - inversion Heq; subst p1 q1.
    assert (Hnone : last_qty p l = None).
    { apply last_qty_none. intros q' Hin'. apply Hfresh.
      apply list_elem_of_In, in_map_iff. exists (p, q'). split; [reflexivity|].
      apply list_elem_of_In. exact Hin'. }
    rewrite Hnone, Z.eqb_refl. reflexivity.
  - rewrite (IH Hnd Hin). reflexivity.
Qed.

(** [ApplySnapshot] establishes the invariant when no price is listed
    twice on a side. *)
Lemma ApplySnapshot_inv snap b :
  wf_snapshot snap ->
  NoDup (map fst (snapshot_levels (SnapshotMessage.yes_count snap)
           (SnapshotMessage.yes_price snap) (SnapshotMessage.yes_qty snap))) ->
  NoDup (map fst (snapshot_levels (SnapshotMessage.no_count snap)
           (SnapshotMessage.no_price snap) (SnapshotMessage.no_qty snap))) ->
  book_inv (ApplySnapshot snap b).
Proof.
  intros Hwf Hyes Hno.
  pose proof Hwf as [(_ & _ & _ & _ & Hyp & Hyq) (_ & _ & _ & _ & Hnp & Hnq)].
  pose proof (snapshot_levels_uint32 (SnapshotMessage.yes_count snap) _ _ Hyp Hyq)
    as Hyu.
  pose proof (snapshot_levels_uint32 (SnapshotMessage.no_count snap) _ _ Hnp Hnq)
    as Hnu.
  split; intros p Hp;
    destruct (ApplySnapshot_levels snap b p Hwf Hp) as (Hbg & Hbb & Hag & Hab);
    cbn zeta in *.
  - rewrite Hbb, Hbg. clear Hbg Hbb Hag Hab. split.
    + intros (q & Hin & Hq). rewrite (last_qty_nodup p q _ Hyes Hin). cbn. lia.
    + destruct (last_qty p _) as [v|] eqn:Hl; cbn; intros Hnz; [|contradiction].
      apply last_qty_elem in Hl. exists v. split; [exact Hl|].
      rewrite Forall_forall in Hyu. destruct (Hyu _ Hl) as [_ [Hv _]].
      cbn in Hv. lia.
  - rewrite Hab, Hag. clear Hbg Hbb Hag Hab. split.
    + intros (q & Hin & Hq). rewrite (last_qty_nodup p q _ Hno Hin). cbn. lia.
    + destruct (last_qty p _) as [v|] eqn:Hl; cbn; intros Hnz; [|contradiction].
      apply last_qty_elem in Hl. exists v. split; [exact Hl|].
      rewrite Forall_forall in Hnu. destruct (Hnu _ Hl) as [_ [Hv _]].
      cbn in Hv. lia.
Qed.

(** ** Where the array/bitset invariant is lost *)

(** C1 fails on the code.  One trade against the freshly constructed
    book wraps the ask quantity at price 40 to 2^32 - 1 and leaves its
    presence bit clear, so a reachable state breaks the invariant.  A
    snapshot listing bid price 5 with quantity 10 and then with
    quantity 0 stores 0 and leaves the presence bit set, which breaks
    it as well. *)
Theorem C1_reachable_states_break_invariant :
  (reachable wrapped_book /\
   arr_get (asks_ wrapped_book) 40 = 2 ^ 32 - 1 /\
   TestBit (asks_bitset_ wrapped_book) 40 = false /\
   ~ book_inv wrapped_book) /\
  (reachable price_five_book /\
   arr_get (bids_ price_five_book) 5 = 0 /\
   TestBit (bids_bitset_ price_five_book) 5 = true /\
   ~ book_inv price_five_book).
Proof.
  split.
  - split; [apply reach_trade; [apply wf_one_lot_trade | apply reach_empty]|].
    split; [reflexivity|]. split; [reflexivity|].
    intros [_ Hasks].
    assert (H40 : 0 <= 40 < kMaxBookLevels) by (unfold kMaxBookLevels; lia).
    destruct (Hasks 40 H40) as [_ Hset].
    assert (Hbit : TestBit (asks_bitset_ wrapped_book) 40 = true)
      by (apply Hset; discriminate).
    discriminate Hbit.
  - split; [apply reach_snapshot; [apply wf_price_five_twice | apply reach_empty]|].
    split; [reflexivity|]. split; [reflexivity|].
    intros [Hbids _].
    assert (H5 : 0 <= 5 < kMaxBookLevels) by (unfold kMaxBookLevels; lia).
    destruct (Hbids 5 H5) as [Hnz _].
    apply Hnz; reflexivity.
Qed.

(** ** Best prices *)

Lemma highest_in_domain s h :
  bits_in_domain s -> is_highest s h -> 0 <= h < kArraySize.
Proof.
  intros Hd [Hb _]. pose proof (TestBit_true_range s h Hb).
  destruct (Z.lt_ge_cases h kArraySize); [lia|].
  rewrite Hd in Hb by assumption. discriminate.
Qed.

Lemma lowest_in_domain s h :
  bits_in_domain s -> is_lowest s h -> 0 <= h < kArraySize.
Proof.
  intros Hd [Hb _]. pose proof (TestBit_true_range s h Hb).
  destruct (Z.lt_ge_cases h kArraySize); [lia|].
  rewrite Hd in Hb by assumption. discriminate.
Qed.

Lemma HighestSetBit_eq s h : wf_bitset s -> is_highest s h -> HighestSetBit s = h.
Proof.
  intros Hwf Hh. apply (is_highest_unique s); [|assumption].
  apply HighestSetBit_is_highest; [assumption|]. destruct Hh. eauto.
Qed.

Lemma LowestSetBit_eq s h : wf_bitset s -> is_lowest s h -> LowestSetBit s = h.
Proof.
  intros Hwf Hh. apply (is_lowest_unique s); [|assumption].
  apply LowestSetBit_is_lowest; [assumption|]. destruct Hh. eauto.
Qed.

Lemma BestBid_occupied b h :
  wf_book b -> is_highest (bids_bitset_ b) h ->
  BestBid b = (h, arr_get (bids_ b) h).
Proof.
  intros Hwf Hh. destruct Hwf.
  pose proof (highest_in_domain _ _ wf_bids_domain0 Hh).
  unfold BestBid. rewrite (HighestSetBit_eq _ h) by assumption.
  destruct (Z.geb_spec h 0); [|lia].
  destruct (Z.ltb_spec h kArraySize); [reflexivity|lia].
Qed.

Lemma BestAsk_occupied b h :
  wf_book b -> is_lowest (asks_bitset_ b) h ->
  BestAsk b = (h, arr_get (asks_ b) h).
Proof.
  intros Hwf Hh. destruct Hwf.
  pose proof (lowest_in_domain _ _ wf_asks_domain0 Hh).
  unfold BestAsk. rewrite (LowestSetBit_eq _ h) by assumption.
  destruct (Z.geb_spec h 0); [|lia].
  destruct (Z.ltb_spec h kArraySize); [reflexivity|lia].
Qed.

Lemma BestBid_empty_side b :
  wf_bitset (bids_bitset_ b) -> no_bit_set (bids_bitset_ b) -> BestBid b = (0, 0).
Proof.
  intros Hwf Hn. unfold BestBid. rewrite HighestSetBit_empty by assumption.
  reflexivity.
Qed.

Lemma BestAsk_empty_side b :
  wf_bitset (asks_bitset_ b) -> no_bit_set (asks_bitset_ b) -> BestAsk b = (0, 0).
Proof.
  intros Hwf Hn. unfold BestAsk. rewrite LowestSetBit_empty by assumption.
  reflexivity.
Qed.

(** C2. On a book that satisfies the array/bitset invariant: when some
    bid quantity is non-zero [BestBid] returns [(p, bids[p])] for the
    greatest index [p] with a non-zero bid quantity, and when some ask
    quantity is non-zero [BestAsk] returns [(q, asks[q])] for the least
    index [q] with a non-zero ask quantity.  The book is an [OrderBook]
    object in its representation [wf_book] (arrays of [kArraySize]
    32-bit quantities, 64-bit bitset words, no presence bit at an index
    of [kMaxBookLevels] or more), which every reachable state has
    ([reachable_wf]). *)
Theorem C2_best_prices_are_extremal_nonzero (b : OrderBook) :
  wf_book b -> book_inv b ->
  (some_nonzero (bids_ b) ->
     exists p, max_nonzero (bids_ b) p /\ BestBid b = (p, arr_get (bids_ b) p)) /\
  (some_nonzero (asks_ b) ->
     exists q, min_nonzero (asks_ b) q /\ BestAsk b = (q, arr_get (asks_ b) q)).
Proof.
  intros Hwf [Hbi Hai]. split; intros (p0 & Hp0 & Hnz).
  - assert (Hex : exists p, TestBit (bids_bitset_ b) p = true)
      by (exists p0; apply Hbi; assumption).
    pose proof (HighestSetBit_is_highest _ (wf_bids_bitset b Hwf) Hex) as Hh.
    exists (HighestSetBit (bids_bitset_ b)).
    split; [|apply BestBid_occupied; assumption].
    pose proof (highest_in_domain _ _ (wf_bids_domain b Hwf) Hh) as Hr.
    destruct Hh as [Hset Hmax]. unfold max_nonzero, kArraySize in *.
    split; [exact Hr|]. split; [apply Hbi; assumption|].
    intros q Hq Hqnz. apply Hmax, Hbi; assumption.
  - assert (Hex : exists p, TestBit (asks_bitset_ b) p = true)
      by (exists p0; apply Hai; assumption).
    pose proof (LowestSetBit_is_lowest _ (wf_asks_bitset b Hwf) Hex) as Hh.
    exists (LowestSetBit (asks_bitset_ b)).
    split; [|apply BestAsk_occupied; assumption].
    pose proof (lowest_in_domain _ _ (wf_asks_domain b Hwf) Hh) as Hr.
    destruct Hh as [Hset Hmin]. unfold min_nonzero, kArraySize in *.
    split; [exact Hr|]. split; [apply Hai; assumption|].
    intros q Hq Hqnz. apply Hmin, Hai; assumption.
Qed.

(** ** The result of the best-price queries on an empty side *)

Lemma reachable_zero_price_book : reachable zero_price_book.
Proof.
  apply reach_snapshot; [|apply reach_empty].
  split; apply wf_levels_check; reflexivity.
Qed.

(** C3, as stated, fails.  [BestBid] and [BestAsk] have no result
    apart from pairs of a price and a quantity: for an empty side they
    return the pair (0, 0), on the empty book the pair of price 0 and
    the quantity stored there.  The reachable book [zero_price_book],
    left by a snapshot that lists price 0 twice (see C4), has the level
    at price 0 occupied on both sides with stored quantity zero, and
    the two queries return on it the pair they return on the empty
    book. *)
Lemma C3_empty_result_is_not_distinguishable :
  (reachable empty_book /\ reachable zero_price_book /\
   no_bit_set (bids_bitset_ empty_book) /\
   no_bit_set (asks_bitset_ empty_book) /\
   TestBit (bids_bitset_ zero_price_book) 0 = true /\
   arr_get (bids_ zero_price_book) 0 = 0 /\
   TestBit (asks_bitset_ zero_price_book) 0 = true /\
   arr_get (asks_ zero_price_book) 0 = 0 /\
   BestBid empty_book = (0, 0) /\ BestBid zero_price_book = (0, 0) /\
   BestAsk empty_book = (0, 0) /\ BestAsk zero_price_book = (0, 0)) /\
  (BestBid empty_book = (0, arr_get (bids_ empty_book) 0) /\
   BestAsk empty_book = (0, arr_get (asks_ empty_book) 0)) /\
  ~ (forall b b0 : OrderBook,
       reachable b -> reachable b0 ->
       no_bit_set (bids_bitset_ b) ->
       is_highest (bids_bitset_ b0) 0 -> arr_get (bids_ b0) 0 = 0 ->
       BestBid b <> BestBid b0) /\
  ~ (forall b b0 : OrderBook,
       reachable b -> reachable b0 ->
       no_bit_set (asks_bitset_ b) ->
       is_lowest (asks_bitset_ b0) 0 -> arr_get (asks_ b0) 0 = 0 ->
       BestAsk b <> BestAsk b0).
Proof.
  assert (Hex : exists p, TestBit {| low := 1; high := 0 |} p = true)
    by (exists 0; reflexivity).
  assert (Hwf : wf_bitset {| low := 1; high := 0 |})
    by (apply wf_bitset_check; reflexivity).
  split; [|split; [split; reflexivity|split; intros Hclaim]].
  - repeat split;
      auto using reach_empty, reachable_zero_price_book, no_bit_set_empty.
  - apply (Hclaim empty_book zero_price_book);
      auto using reach_empty, reachable_zero_price_book, no_bit_set_empty.
    apply (HighestSetBit_is_highest _ Hwf Hex).
  - apply (Hclaim empty_book zero_price_book);
      auto using reach_empty, reachable_zero_price_book, no_bit_set_empty.
    apply (LowestSetBit_is_lowest _ Hwf Hex).
Qed.

Lemma BestBid_zero_pair_empty b :
  wf_book b -> side_inv (bids_ b) (bids_bitset_ b) ->
  BestBid b = (0, 0) -> no_bit_set (bids_bitset_ b).
Proof.
  intros Hwf Hinv Hz.
  destruct (bitset_empty_or_bit _ (wf_bids_bitset b Hwf)) as [Hn|Hex];
    [exact Hn|exfalso].
  pose proof (HighestSetBit_is_highest _ (wf_bids_bitset b Hwf) Hex) as Hh.
  pose proof (highest_in_domain _ _ (wf_bids_domain b Hwf) Hh) as Hr.
  rewrite (BestBid_occupied b _ Hwf Hh) in Hz.
  destruct Hh as [Hset _]. unfold kArraySize in Hr.
  apply (Hinv _ Hr) in Hset. congruence.
Qed.

Lemma BestAsk_zero_pair_empty b :
  wf_book b -> side_inv (asks_ b) (asks_bitset_ b) ->
  BestAsk b = (0, 0) -> no_bit_set (asks_bitset_ b).
Proof.
  intros Hwf Hinv Hz.
  destruct (bitset_empty_or_bit _ (wf_asks_bitset b Hwf)) as [Hn|Hex];
    [exact Hn|exfalso].
  pose proof (LowestSetBit_is_lowest _ (wf_asks_bitset b Hwf) Hex) as Hl.
  pose proof (lowest_in_domain _ _ (wf_asks_domain b Hwf) Hl) as Hr.
  rewrite (BestAsk_occupied b _ Hwf Hl) in Hz.
  destruct Hl as [Hset _]. unfold kArraySize in Hr.
  apply (Hinv _ Hr) in Hset. congruence.
Qed.

(** C3, amended.  On a book whose bid (ask) side has no presence bit
    set, [BestBid] ([BestAsk]) returns the sentinel pair (0, 0) rather
    than a separate empty value.  On a book that satisfies the
    array/bitset invariant the pair (0, 0) is returned only for an
    empty side: every occupied level is returned with its non-zero
    quantity, so its result differs from the sentinel.  On the empty
    book both queries return (0, 0). *)
Theorem C3_empty_side_returns_zero_pair (b : OrderBook) :
  wf_book b ->
  (no_bit_set (bids_bitset_ b) -> BestBid b = (0, 0)) /\
  (no_bit_set (asks_bitset_ b) -> BestAsk b = (0, 0)) /\
  (book_inv b ->
     (BestBid b = (0, 0) <-> no_bit_set (bids_bitset_ b)) /\
     (BestAsk b = (0, 0) <-> no_bit_set (asks_bitset_ b)) /\
     (forall p, is_highest (bids_bitset_ b) p ->
        BestBid b = (p, arr_get (bids_ b) p) /\ arr_get (bids_ b) p <> 0 /\
        BestBid b <> (0, 0)) /\
     (forall p, is_lowest (asks_bitset_ b) p ->
        BestAsk b = (p, arr_get (asks_ b) p) /\ arr_get (asks_ b) p <> 0 /\
        BestAsk b <> (0, 0))) /\
  BestBid empty_book = (0, 0) /\ BestAsk empty_book = (0, 0).
Proof.
  intros Hwf.
  split; [apply BestBid_empty_side, Hwf|].
  split; [apply BestAsk_empty_side, Hwf|].
  split; [|split; reflexivity].
  intros [Hbi Hai].
  split; [split; [apply BestBid_zero_pair_empty; assumption
                 |apply BestBid_empty_side, Hwf]|].
  split; [split; [apply BestAsk_zero_pair_empty; assumption
                 |apply BestAsk_empty_side, Hwf]|].
  split; intros p Hp.
  - pose proof (highest_in_domain _ _ (wf_bids_domain b Hwf) Hp) as Hr.
    assert (Hq : arr_get (bids_ b) p <> 0)
      by (apply Hbi; [exact Hr | apply Hp]).
    rewrite (BestBid_occupied b p Hwf Hp).
    split; [reflexivity|]. split; [exact Hq|]. congruence.
  - pose proof (lowest_in_domain _ _ (wf_asks_domain b Hwf) Hp) as Hr.
    assert (Hq : arr_get (asks_ b) p <> 0)
      by (apply Hai; [exact Hr | apply Hp]).
    rewrite (BestAsk_occupied b p Hwf Hp).
    split; [reflexivity|]. split; [exact Hq|]. congruence.
Qed.

(** ** Top-N queries for a count that is not negative *)

Lemma filter_bits_agree (s s' : Bitset128) (l : list Z) :
  (forall p, p ∈ l -> TestBit s' p = TestBit s p) ->
  filter (fun p => TestBit s' p = true) l = filter (fun p => TestBit s p = true) l.
Proof.
  induction l as [|x l IH]; intros Hagree; [reflexivity|].
  assert (Hx : TestBit s' x = TestBit s x) by (apply Hagree; left).
  assert (Hl : forall p, p ∈ l -> TestBit s' p = TestBit s p)
    by (intros p Hp; apply Hagree; right; exact Hp).
  rewrite !filter_cons. rewrite (IH Hl).
  destruct (decide (TestBit s' x = true)), (decide (TestBit s x = true));
    congruence.
Qed.

Lemma no_bit_set_outside s lo hi :
  bits_in_domain s -> hi <= kArraySize ->
  (forall p, p < lo -> TestBit s p = false) ->
  (forall p, hi <= p -> TestBit s p = false) ->
  hi <= lo -> no_bit_set s.
Proof.
  intros Hd Hhi Hlo Hup Hle p.
  destruct (Z.lt_ge_cases p lo); [apply Hlo | apply Hup]; lia.
Qed.

Lemma top_asks_loop_empty n s a :
  wf_bitset s -> no_bit_set s -> top_asks_loop n s a = [].
Proof.
  intros Hwf Hn. destruct n; [reflexivity|]. cbn [top_asks_loop].
  rewrite LowestSetBit_empty by assumption. reflexivity.
Qed.

Lemma top_bids_loop_empty n s a :
  wf_bitset s -> no_bit_set s -> top_bids_loop n s a = [].
Proof.
  intros Hwf Hn. destruct n; [reflexivity|]. cbn [top_bids_loop].
  rewrite HighestSetBit_empty by assumption. reflexivity.
Qed.

Lemma top_asks_loop_scan k : forall i n s a,
  wf_bitset s -> bits_in_domain s ->
  0 <= i -> i + Z.of_nat k = kArraySize ->
  (forall p, p < i -> TestBit s p = false) ->
  top_asks_loop n s a
  = take n (levels a (filter (fun p => TestBit s p = true) (seqZ i (Z.of_nat k)))).
Proof.
  induction k as [|k IH]; intros i n s a Hwf Hd Hi Hik Hlow.
  - rewrite seqZ_nil, filter_nil by lia. cbn [levels map]. rewrite take_nil.
    apply top_asks_loop_empty; [assumption|].
    intros p. destruct (Z.lt_ge_cases p i); [apply Hlow | apply Hd]; lia.
  - rewrite seqZ_cons by lia.
    replace (Z.pred (Z.of_nat (S k))) with (Z.of_nat k) by lia.
    rewrite filter_cons.
    destruct (decide (TestBit s i = true)) as [Hset|Hclear].
    + destruct n as [|n]; [reflexivity|].
      assert (Hlowest : is_lowest s i).
      { split; [exact Hset|]. intros p Hp.
        destruct (Z.le_gt_cases i p); [assumption|].
        rewrite Hlow in Hp by lia. discriminate. }
      cbn [top_asks_loop levels map take].
      rewrite (LowestSetBit_eq s i Hwf Hlowest).
      destruct (Z.ltb_spec i 0); [lia|].
      destruct (Z.geb_spec i kArraySize); [lia|]. cbn [orb].
      assert (Hi128 : 0 <= i < 128) by (unfold kArraySize, kMaxBookLevels in *; lia).
      f_equal. rewrite (IH (Z.succ i)).
      * unfold levels. f_equal. f_equal. apply filter_bits_agree.
        intros p Hp. apply elem_of_seqZ in Hp.
        rewrite TestBit_ClearBit by assumption.
        destruct (Z.eqb_spec p i); [lia|]. apply andb_true_r.
      * apply wf_ClearBit; assumption.
      * apply bits_in_domain_ClearBit; (assumption || lia).
      * lia.
      * lia.
      * intros p Hp. rewrite TestBit_ClearBit by assumption.
        destruct (Z.eqb_spec p i); [apply andb_false_r|].
        rewrite Hlow by lia. reflexivity.
    + apply IH; try (assumption || lia).
      intros p Hp. destruct (Z.eq_dec p i) as [->|];
        [destruct (TestBit s i); congruence | apply Hlow; lia].
Qed.

Lemma top_bids_loop_scan k : forall n s a,
  wf_bitset s -> Z.of_nat k <= kArraySize ->
  (forall p, Z.of_nat k <= p -> TestBit s p = false) ->
  top_bids_loop n s a
  = take n (levels a
      (reverse (filter (fun p => TestBit s p = true) (seqZ 0 (Z.of_nat k))))).
Proof.
  induction k as [|k IH]; intros n s a Hwf Hk Hup.
  - rewrite seqZ_nil, filter_nil by lia. cbn [levels map reverse rev_append].
    rewrite take_nil. apply top_bids_loop_empty; [assumption|].
    intros p. destruct (Z.lt_ge_cases p 0);
      [apply TestBit_outside; lia | apply Hup; lia].
  - rewrite seqZ_S, filter_app, reverse_app, Z.add_0_l.
    rewrite filter_cons, filter_nil.
    destruct (decide (TestBit s (Z.of_nat k) = true)) as [Hset|Hclear].
    + destruct n as [|n]; [reflexivity|].
      assert (Hhighest : is_highest s (Z.of_nat k)).
      { split; [exact Hset|]. intros p Hp.
        destruct (Z.le_gt_cases p (Z.of_nat k)); [assumption|].
        rewrite Hup in Hp by lia. discriminate. }
      cbn [reverse rev_append app top_bids_loop levels map take].
      rewrite (HighestSetBit_eq s _ Hwf Hhighest).
      destruct (Z.ltb_spec (Z.of_nat k) 0); [lia|].
      destruct (Z.geb_spec (Z.of_nat k) kArraySize); [lia|]. cbn [orb].
      assert (Hk128 : 0 <= Z.of_nat k < 128)
        by (unfold kArraySize, kMaxBookLevels in *; lia).
      f_equal. rewrite (IH n (ClearBit (Z.of_nat k) s)).
      * unfold levels. f_equal. f_equal. f_equal. apply filter_bits_agree.
        intros p Hp. apply elem_of_seqZ in Hp.
        rewrite TestBit_ClearBit by assumption.
        destruct (Z.eqb_spec p (Z.of_nat k)); [lia|]. apply andb_true_r.
      * apply wf_ClearBit; assumption.
      * lia.
      * intros p Hp. rewrite TestBit_ClearBit by assumption.
        destruct (Z.eqb_spec p (Z.of_nat k)); [apply andb_false_r|].
        rewrite Hup by lia. reflexivity.
    + cbn [reverse rev_append app]. apply IH; try (assumption || lia).
      intros p Hp. destruct (Z.eq_dec p (Z.of_nat k)) as [->|];
        [destruct (TestBit s (Z.of_nat k)); congruence | apply Hup; lia].
Qed.

Lemma max_size_value : vector_max_size = 1152921504606846975.
Proof. reflexivity. Qed.

Lemma to_size_t_nonneg n : 0 <= n -> is_int32 n -> to_size_t n = n.
Proof.
  intros Hn [_ Hlt]. unfold to_size_t, uint64_mod. apply Z.mod_small. lia.
Qed.

Lemma to_size_t_negative n : n < 0 -> is_int32 n -> to_size_t n = 2 ^ 64 + n.
Proof.
  intros Hn [Hge _]. unfold to_size_t, uint64_mod. symmetry.
  apply Z.mod_unique with (q := -1); lia.
Qed.

Lemma reserve_accepts h n :
  0 <= n -> is_int32 n ->
  reserve h n
  = if (0 <? n) && negb (h (element_size * n)) then Some bad_alloc else None.
Proof.
  intros Hn Hint. unfold reserve. rewrite to_size_t_nonneg by assumption.
  pose proof max_size_value as Hmax. destruct Hint as [_ Hlt].
  destruct (Z.gtb_spec n vector_max_size); [lia|].
  destruct (Z.gtb_spec n 0), (Z.ltb_spec 0 n); try lia; [|reflexivity].
  destruct (h (element_size * n)); reflexivity.
Qed.

Lemma reserve_rejects h n :
  n < 0 -> is_int32 n -> reserve h n = Some length_error.
Proof.
  intros Hn Hint. unfold reserve. rewrite to_size_t_negative by assumption.
  pose proof max_size_value as Hmax. destruct Hint as [Hge _].
  destruct (Z.gtb_spec (2 ^ 64 + n) vector_max_size); [reflexivity|lia].
Qed.

Lemma GetTopNBids_loop h b n :
  0 <= n -> is_int32 n ->
  GetTopNBids h n b
  = reserved h n (top_bids_loop (Z.to_nat n) (bids_bitset_ b) (bids_ b)).
Proof.
  intros Hn Hint. unfold GetTopNBids, reserved.
  rewrite reserve_accepts by assumption.
  destruct ((0 <? n) && negb (h (element_size * n))); reflexivity.
Qed.

Lemma GetTopNAsks_loop h b n :
  0 <= n -> is_int32 n ->
  GetTopNAsks h n b
  = reserved h n (top_asks_loop (Z.to_nat n) (asks_bitset_ b) (asks_ b)).
Proof.
  intros Hn Hint. unfold GetTopNAsks, reserved.
  rewrite reserve_accepts by assumption.
  destruct ((0 <? n) && negb (h (element_size * n))); reflexivity.
Qed.

Lemma reserved_granted h n r :
  n <= 0 \/ h (element_size * n) = true -> reserved h n r = Returns r.
Proof.
  intros [Hn|Hg]; unfold reserved.
  - destruct (Z.ltb_spec 0 n); [lia|reflexivity].
  - rewrite Hg, andb_false_r. reflexivity.
Qed.

Lemma reserved_refused h n r :
  0 < n -> h (element_size * n) = false -> reserved h n r = Throws bad_alloc.
Proof.
  intros Hn Hr. unfold reserved. rewrite Hr.
  destruct (Z.ltb_spec 0 n); [reflexivity|lia].
Qed.

Lemma GetTopNBids_prefix h b n :
  wf_book b -> 0 <= n -> is_int32 n ->
  GetTopNBids h n b
  = reserved h n
      (take (Z.to_nat n) (levels (bids_ b) (occupied_desc (bids_bitset_ b)))).
Proof.
  intros Hwf Hn Hint. destruct Hwf.
  rewrite GetTopNBids_loop by assumption. f_equal.
  unfold occupied_desc, occupied_asc.
  replace kArraySize with (Z.of_nat (Z.to_nat kArraySize)) at 1 by reflexivity.
  apply top_bids_loop_scan; [assumption|reflexivity|].
  intros p Hp. apply wf_bids_domain0. exact Hp.
Qed.

Lemma GetTopNAsks_prefix h b n :
  wf_book b -> 0 <= n -> is_int32 n ->
  GetTopNAsks h n b
  = reserved h n
      (take (Z.to_nat n) (levels (asks_ b) (occupied_asc (asks_bitset_ b)))).
Proof.
  intros Hwf Hn Hint. destruct Hwf.
  rewrite GetTopNAsks_loop by assumption. f_equal.
  unfold occupied_asc.
  replace kArraySize with (Z.of_nat (Z.to_nat kArraySize)) at 1 by reflexivity.
  apply top_asks_loop_scan; try assumption; try reflexivity.
  intros p Hp. apply TestBit_outside. lia.
Qed.

Lemma GetTopN_negative h b n :
  n < 0 -> is_int32 n ->
  GetTopNBids h n b = Throws length_error /\
  GetTopNAsks h n b = Throws length_error.
Proof.
  intros Hn Hint. unfold GetTopNBids, GetTopNAsks.
  rewrite reserve_rejects by assumption. split; reflexivity.
Qed.

Lemma elem_of_occupied_asc s p :
  p ∈ occupied_asc s <-> 0 <= p < kArraySize /\ TestBit s p = true.
Proof.
  unfold occupied_asc. rewrite list_elem_of_filter, elem_of_seqZ.
  split; intros [? ?]; split; (assumption || lia).
Qed.

Lemma elem_of_occupied_desc s p :
  p ∈ occupied_desc s <-> 0 <= p < kArraySize /\ TestBit s p = true.
Proof.
  unfold occupied_desc. rewrite elem_of_reverse. apply elem_of_occupied_asc.
Qed.

Lemma seqZ_sorted k : forall m, StronglySorted Z.lt (seqZ m (Z.of_nat k)).
Proof.
  induction k as [|k IH]; intros m.
  - rewrite seqZ_nil by lia. constructor.
  - rewrite seqZ_cons by lia.
    replace (Z.pred (Z.of_nat (S k))) with (Z.of_nat k) by lia.
    constructor; [apply IH|].
    apply Forall_seqZ. intros q Hq. lia.
Qed.

Lemma filter_sorted (R : Z -> Z -> Prop) (P : Z -> Prop)
    `{!forall x, Decision (P x)} (l : list Z) :
  StronglySorted R l -> StronglySorted R (filter P l).
Proof.
  induction 1 as [|x l Hs IH Hall]; [constructor|].
  rewrite filter_cons. destruct (decide (P x)); [|exact IH].
  constructor; [exact IH|].
  apply Forall_forall. intros y Hy. apply list_elem_of_filter in Hy as [_ Hy].
  rewrite Forall_forall in Hall. auto.
Qed.

Lemma reverse_sorted (l : list Z) :
  StronglySorted Z.lt l -> StronglySorted Z.gt (reverse l).
Proof.
  induction 1 as [|x l Hs IH Hall]; [constructor|].
  rewrite reverse_cons. apply StronglySorted_app_2.
  - intros y z Hy Hz. apply list_elem_of_singleton in Hz as ->.
    rewrite elem_of_reverse in Hy. rewrite Forall_forall in Hall.
    specialize (Hall y Hy). lia.
  - exact IH.
  - repeat constructor.
Qed.

Lemma take_sorted (R : Z -> Z -> Prop) (l : list Z) n :
  StronglySorted R l -> StronglySorted R (take n l).
Proof.
  intros Hs. rewrite <- (take_drop n l) in Hs.
  eapply StronglySorted_app_1_l. exact Hs.
Qed.

Lemma occupied_asc_sorted s : StronglySorted Z.lt (occupied_asc s).
Proof.
  unfold occupied_asc. apply filter_sorted.
  replace kArraySize with (Z.of_nat (Z.to_nat kArraySize)) by reflexivity.
  apply seqZ_sorted.
Qed.

Lemma occupied_desc_sorted s : StronglySorted Z.gt (occupied_desc s).
Proof. apply reverse_sorted, occupied_asc_sorted. Qed.

Lemma levels_prices a ps : map fst (levels a ps) = ps.
Proof.
  unfold levels. induction ps as [|p ps IH]; [reflexivity|].
  cbn [map fst]. rewrite IH. reflexivity.
Qed.

Lemma levels_take a ps n : take n (levels a ps) = levels a (take n ps).
Proof.
  unfold levels. revert n. induction ps as [|p ps IH]; intros [|n];
    try reflexivity.
  cbn [map take]. rewrite IH. reflexivity.
Qed.

(** For a count [n >= 0] the top-N queries return the first
    [min n (number of occupied levels)] occupied levels, bids by
    strictly descending and asks by strictly ascending price, unless
    the reservation of [n] elements is refused by [std::bad_alloc]. *)
Lemma GetTopN_nonnegative h b n :
  wf_book b -> 0 <= n -> is_int32 n ->
  exists rb ra,
    GetTopNBids h n b = reserved h n (levels (bids_ b) rb) /\
    GetTopNAsks h n b = reserved h n (levels (asks_ b) ra) /\
    rb = take (Z.to_nat n) (occupied_desc (bids_bitset_ b)) /\
    ra = take (Z.to_nat n) (occupied_asc (asks_bitset_ b)) /\
    StronglySorted Z.gt rb /\ StronglySorted Z.lt ra /\
    length rb = Nat.min (Z.to_nat n) (length (occupied_desc (bids_bitset_ b))) /\
    length ra = Nat.min (Z.to_nat n) (length (occupied_asc (asks_bitset_ b))).
Proof.
  intros Hwf Hn Hint.
  exists (take (Z.to_nat n) (occupied_desc (bids_bitset_ b))),
         (take (Z.to_nat n) (occupied_asc (asks_bitset_ b))).
  rewrite GetTopNBids_prefix, GetTopNAsks_prefix, !levels_take by assumption.
  repeat split;
    auto using take_sorted, occupied_desc_sorted, occupied_asc_sorted, length_take.
Qed.

(** ** A negative request to the top-N queries *)

(** C8 fails on the code for a negative [n]: [reserve] gets the count
    converted to [size_type], 2^64 - 1 for -1, which exceeds
    [max_size()], and the call leaves by [std::length_error] instead of
    returning an empty sequence, whatever the state [h] of the free
    store.  For [n = 0] nothing is allocated and the result is empty. *)
Theorem C8_negative_count_throws (h : heap) :
  is_int32 (-1) /\
  to_size_t (-1) = 2 ^ 64 - 1 /\
  GetTopNBids h (-1) empty_book = Throws length_error /\
  GetTopNAsks h (-1) empty_book = Throws length_error /\
  GetTopNBids h 0 empty_book = Returns [] /\
  GetTopNAsks h 0 empty_book = Returns [].
Proof.
  split; [unfold is_int32; lia|]. repeat split; reflexivity.
Qed.

(** ** The scenarios of the specification, run on the model *)

Lemma side_inv_check_sound a s : side_inv_check a s = true -> side_inv a s.
Proof.
  unfold side_inv_check. rewrite forallb_forall. intros Hall p Hp.
  assert (Hin : In p (seqZ 0 kMaxBookLevels))
    by (apply list_elem_of_In, elem_of_seqZ; lia).
  specialize (Hall p Hin). apply Bool.eqb_prop in Hall. rewrite Hall.
  destruct (Z.eqb_spec (arr_get a p) 0); cbn; split; congruence.
Qed.

Lemma wf_two_sided_book : wf_book two_sided_book.
Proof. apply wf_book_check; try reflexivity; vm_compute; reflexivity. Qed.

Lemma book_inv_two_sided_book : book_inv two_sided_book.
Proof. split; apply side_inv_check_sound; vm_compute; reflexivity. Qed.

Example scenario_empty_book :
  BestBid empty_book = (0, 0) /\ BestAsk empty_book = (0, 0) /\
  GetTopNBids small_heap 5 empty_book = Returns [].
Proof. repeat split; reflexivity. Qed.

Example scenario_snapshot :
  BestBid two_sided_book = (70, 10) /\ BestAsk two_sided_book = (40, 8) /\
  GetTopNBids small_heap 2 two_sided_book = Returns [(70, 10); (65, 5)].
Proof. repeat split; vm_compute; reflexivity. Qed.

(** A count that the free store cannot hold: the reservation of
    [INT_MAX] pairs asks for 8 * (2^31 - 1) bytes before any level is
    looked at. *)
Example scenario_large_count :
  GetTopNBids small_heap (2 ^ 31 - 1) two_sided_book = Throws bad_alloc /\
  GetTopNAsks small_heap (2 ^ 31 - 1) two_sided_book = Throws bad_alloc.
Proof. split; reflexivity. Qed.

Example scenario_delta :
  TestBit (bids_bitset_ (ApplyDelta cancel_best_bid two_sided_book)) 70 = false /\
  BestBid (ApplyDelta cancel_best_bid two_sided_book) = (65, 5).
Proof. split; vm_compute; reflexivity. Qed.

Example scenario_trade :
  arr_get (asks_ (ApplyTrade full_fill_trade two_sided_book)) 40 = 0 /\
  TestBit (asks_bitset_ (ApplyTrade full_fill_trade two_sided_book)) 40 = false /\
  BestAsk (ApplyTrade full_fill_trade two_sided_book) = (0, 0).
Proof. repeat split; vm_compute; reflexivity. Qed.

Example scenario_bitset :
  HighestSetBit empty_bitset = -1 /\ LowestSetBit empty_bitset = -1 /\
  HighestSetBit top_bit_only = 127 /\ LowestSetBit top_bit_only = 127.
Proof. repeat split; vm_compute; reflexivity. Qed.

(** ** Instances of the theorems on concrete books *)

Lemma top_bit_only_bits p : TestBit top_bit_only p = true <-> p = 127.
Proof.
  unfold top_bit_only. rewrite TestBit_SetBit by lia.
  rewrite no_bit_set_empty. cbn [orb]. apply Z.eqb_eq.
Qed.

Lemma C9_bitset_queries_witness :
  wf_bitset empty_bitset /\ wf_bitset top_bit_only /\
  (HighestSetBit empty_bitset = -1 /\ LowestSetBit empty_bitset = -1) /\
  (is_highest top_bit_only (HighestSetBit top_bit_only) /\
   is_lowest top_bit_only (LowestSetBit top_bit_only)) /\
  (HighestSetBit top_bit_only = 127 /\ LowestSetBit top_bit_only = 127) /\
  (SetBit 128 top_bit_only = top_bit_only /\
   ClearBit 128 top_bit_only = top_bit_only /\
   TestBit top_bit_only 128 = false).
Proof.
  assert (H0 : wf_bitset empty_bitset) by (apply wf_bitset_check; reflexivity).
  assert (H1 : wf_bitset top_bit_only) by (apply wf_bitset_check; reflexivity).
  split; [exact H0|]. split; [exact H1|].
  destruct (C9_bitset_queries empty_bitset 128 H0) as (Hnone & _).
  destruct (C9_bitset_queries top_bit_only 128 H1)
    as (_ & Hsome & Honly & Hout & _).
  split; [apply Hnone, no_bit_set_empty|].
  split; [apply Hsome; exists 127; reflexivity|].
  split; [apply Honly, top_bit_only_bits|].
  apply Hout. unfold kMaxBitPosition. lia.
Defined.

Lemma C6_guarded_calls_are_noops_witness :
  wf_delta out_of_range_delta /\ wf_trade empty_trade /\
  ApplyDelta out_of_range_delta two_sided_book = two_sided_book /\
  ApplyTrade empty_trade two_sided_book = two_sided_book.
Proof.
  assert (Hd : wf_delta out_of_range_delta)
    by (unfold wf_delta, is_uint32, is_int32, uint32_mod; cbn; lia).
  assert (Ht : wf_trade empty_trade)
    by (unfold wf_trade, is_uint32, is_int32, uint32_mod; cbn; lia).
  split; [exact Hd|]. split; [exact Ht|].
  destruct (C6_guarded_calls_are_noops two_sided_book _ _ Hd Ht) as [Hdelta Htrade].
  split.
  - apply Hdelta. left. unfold kMaxBookLevels. cbn. lia.
  - apply Htrade. left. cbn. lia.
Defined.

Lemma wf_full_fill_trade : wf_trade full_fill_trade.
Proof. unfold wf_trade, is_uint32, is_int32, uint32_mod. cbn. lia. Qed.

Lemma C7_trade_consumes_opposite_side_witness :
  wf_book two_sided_book /\ wf_trade full_fill_trade /\
  0 < TradeMessage.count full_fill_trade /\
  bids_ (ApplyTrade full_fill_trade two_sided_book) = bids_ two_sided_book /\
  bids_bitset_ (ApplyTrade full_fill_trade two_sided_book)
    = bids_bitset_ two_sided_book /\
  arr_get (asks_ (ApplyTrade full_fill_trade two_sided_book)) 40 = 8 - 8 /\
  TestBit (asks_bitset_ (ApplyTrade full_fill_trade two_sided_book)) 40 = false.
Proof.
  assert (Hc : 0 < TradeMessage.count full_fill_trade) by (cbn; lia).
  split; [exact wf_two_sided_book|]. split; [exact wf_full_fill_trade|].
  split; [exact Hc|].
  destruct (C7_trade_consumes_opposite_side two_sided_book full_fill_trade
              wf_two_sided_book wf_full_fill_trade Hc) as [Hyes _].
  destruct (Hyes eq_refl) as (Hb & Hbs & Hcons).
  split; [exact Hb|]. split; [exact Hbs|].
  assert (Hp : TradeMessage.no_price full_fill_trade < kMaxBookLevels)
    by (unfold kMaxBookLevels; cbn; lia).
  destruct (Hcons Hp) as (_ & Hexact & _ & _ & Hclear & _).
  assert (Hq : arr_get (asks_ (ApplyTrade full_fill_trade two_sided_book)) 40 = 8 - 8).
  { apply Hexact. vm_compute. discriminate. }
  split; [exact Hq|]. apply Hclear. exact Hq.
Defined.

Lemma C10_trade_wraps_and_never_sets_bit_witness :
  wf_book empty_book /\ wf_trade one_lot_trade /\
  arr_get (asks_ (ApplyTrade one_lot_trade empty_book)) 40 = 2 ^ 32 - 1 /\
  arr_get (asks_ (ApplyTrade one_lot_trade empty_book)) 40 <> 0 /\
  TestBit (asks_bitset_ (ApplyTrade one_lot_trade empty_book)) 40 = false.
Proof.
  split; [exact wf_empty_book|]. split; [exact wf_one_lot_trade|].
  destruct (C10_trade_wraps_and_never_sets_bit empty_book one_lot_trade
              wf_empty_book wf_one_lot_trade) as (_ & Hyes & _).
  assert (Hc : 0 < TradeMessage.count one_lot_trade) by (cbn; lia).
  assert (Hp : TradeMessage.no_price one_lot_trade < kMaxBookLevels)
    by (unfold kMaxBookLevels; cbn; lia).
  destruct (Hyes Hc eq_refl Hp eq_refl) as (Hq & Hnz & _ & Hbit).
  split; [exact Hq|]. split; [exact Hnz|]. apply Hbit. reflexivity.
Defined.

Lemma C2_best_prices_are_extremal_nonzero_witness :
  wf_book two_sided_book /\ book_inv two_sided_book /\
  (exists p, max_nonzero (bids_ two_sided_book) p /\
             BestBid two_sided_book = (p, arr_get (bids_ two_sided_book) p)) /\
  (exists q, min_nonzero (asks_ two_sided_book) q /\
             BestAsk two_sided_book = (q, arr_get (asks_ two_sided_book) q)).
Proof.
  split; [exact wf_two_sided_book|]. split; [exact book_inv_two_sided_book|].
  destruct (C2_best_prices_are_extremal_nonzero two_sided_book
              wf_two_sided_book book_inv_two_sided_book) as [Hbid Hask].
  split.
  - apply Hbid. exists 65. split; [unfold kMaxBookLevels; lia|].
    vm_compute. discriminate.
  - apply Hask. exists 40. split; [unfold kMaxBookLevels; lia|].
    vm_compute. discriminate.
Defined.

Lemma wf_zero_price_book : wf_book zero_price_book.
Proof. apply wf_book_check; try reflexivity; vm_compute; reflexivity. Qed.

Lemma C3_empty_side_returns_zero_pair_witness :
  wf_book empty_book /\ wf_book two_sided_book /\ book_inv two_sided_book /\
  BestBid empty_book = (0, 0) /\ BestAsk empty_book = (0, 0) /\
  BestBid two_sided_book <> (0, 0) /\ BestAsk two_sided_book <> (0, 0) /\
  ~ no_bit_set (bids_bitset_ two_sided_book) /\
  ~ no_bit_set (asks_bitset_ two_sided_book).
Proof.
  split; [exact wf_empty_book|]. split; [exact wf_two_sided_book|].
  split; [exact book_inv_two_sided_book|].
  destruct (C3_empty_side_returns_zero_pair empty_book wf_empty_book)
    as (Hbid & Hask & _).
  destruct (C3_empty_side_returns_zero_pair two_sided_book wf_two_sided_book)
    as (_ & _ & Hinv & _).
  destruct (Hinv book_inv_two_sided_book) as (Hb & Ha & _).
  split; [apply Hbid, no_bit_set_empty|].
  split; [apply Hask, no_bit_set_empty|].
  split; [vm_compute; discriminate|].
  split; [vm_compute; discriminate|].
  split; intros Hn.
  - apply Hb in Hn. vm_compute in Hn. discriminate.
  - apply Ha in Hn. vm_compute in Hn. discriminate.
Defined.

(** ** Bitset128: writes, reads and round trips *)

Lemma bitset_ext s1 s2 :
  wf_bitset s1 -> wf_bitset s2 ->
  (forall p, TestBit s1 p = TestBit s2 p) -> s1 = s2.
Proof.
  intros [Hl1 Hh1] [Hl2 Hh2] Hbits. unfold is_uint64, uint64_mod in *.
  assert (Hlow : low s1 = low s2).
  { apply Z.bits_inj'. intros i Hi. destruct (Z.lt_ge_cases i 64).
    - rewrite <- !TestBit_low by lia. apply Hbits.
    - rewrite !(testbit_above_pow2 _ 64 i) by lia. reflexivity. }
  assert (Hhigh : high s1 = high s2).
  { apply Z.bits_inj'. intros i Hi. destruct (Z.lt_ge_cases i 64).
    - replace i with ((i + 64) - 64) by lia.
      rewrite <- !TestBit_high by lia. apply Hbits.
    - rewrite !(testbit_above_pow2 _ 64 i) by lia. reflexivity. }
  destruct s1, s2. cbn in *. subst. reflexivity.
Qed.

Lemma SetBit_on_set_bit s p :
  wf_bitset s -> TestBit s p = true -> SetBit p s = s.
Proof.
  intros Hwf Hb. pose proof (TestBit_true_range s p Hb) as Hp.
  apply bitset_ext; [apply wf_SetBit; (assumption || lia) | assumption |].
  intros q. rewrite TestBit_SetBit by lia.
  destruct (Z.eqb_spec q p) as [->|]; [rewrite Hb|rewrite orb_false_r]; reflexivity.
Qed.

Lemma ClearBit_on_clear_bit s p :
  wf_bitset s -> 0 <= p -> TestBit s p = false -> ClearBit p s = s.
Proof.
  intros Hwf Hp Hb. destruct (Z.lt_ge_cases p 128).
  - apply bitset_ext; [apply wf_ClearBit; assumption | assumption |].
    intros q. rewrite TestBit_ClearBit by (assumption || lia).
    destruct (Z.eqb_spec q p) as [->|]; [rewrite Hb|rewrite andb_true_r]; reflexivity.
  - apply ClearBit_out_of_range. unfold kMaxBitPosition. lia.
Qed.

Lemma ClearBit_SetBit s p :
  wf_bitset s -> 0 <= p -> ClearBit p (SetBit p s) = ClearBit p s.
Proof.
  intros Hwf Hp. destruct (Z.lt_ge_cases p 128).
  - apply bitset_ext; auto using wf_ClearBit, wf_SetBit.
    intros q. rewrite !TestBit_ClearBit, TestBit_SetBit by (auto using wf_SetBit; lia).
    destruct (Z.eqb_spec q p); [rewrite !andb_false_r | rewrite orb_false_r];
      reflexivity.
  - rewrite (SetBit_out_of_range s p) by (unfold kMaxBitPosition; lia). reflexivity.
Qed.

Lemma SetBit_ClearBit s p :
  wf_bitset s -> 0 <= p -> SetBit p (ClearBit p s) = SetBit p s.
Proof.
  intros Hwf Hp. destruct (Z.lt_ge_cases p 128).
  - apply bitset_ext; auto using wf_ClearBit, wf_SetBit.
    intros q. rewrite !TestBit_SetBit, TestBit_ClearBit by (assumption || lia).
    destruct (Z.eqb_spec q p); [rewrite !orb_true_r | rewrite andb_true_r];
      reflexivity.
  - rewrite (ClearBit_out_of_range s p) by (unfold kMaxBitPosition; lia). reflexivity.
Qed.

Lemma SetBit_SetBit s p : wf_bitset s -> 0 <= p -> SetBit p (SetBit p s) = SetBit p s.
Proof.
  intros Hwf Hp. destruct (Z.lt_ge_cases p 128).
  - apply SetBit_on_set_bit; [apply wf_SetBit; assumption|].
    rewrite TestBit_SetBit, Z.eqb_refl by lia. apply orb_true_r.
  - rewrite !SetBit_out_of_range by (unfold kMaxBitPosition; lia). reflexivity.
Qed.

Lemma ClearBit_ClearBit s p :
  wf_bitset s -> 0 <= p -> ClearBit p (ClearBit p s) = ClearBit p s.
Proof.
  intros Hwf Hp. destruct (Z.lt_ge_cases p 128).
  - apply ClearBit_on_clear_bit; [apply wf_ClearBit; assumption|assumption|].
    rewrite TestBit_ClearBit, Z.eqb_refl by (assumption || lia).
    apply andb_false_r.
  - rewrite !ClearBit_out_of_range by (unfold kMaxBitPosition; lia). reflexivity.
Qed.

Lemma HighestSetBit_SetBit s pos :
  wf_bitset s -> 0 <= pos < 128 ->
  HighestSetBit (SetBit pos s) = Z.max pos (HighestSetBit s).
Proof.
  intros Hwf Hpos.
  assert (Hwf' : wf_bitset (SetBit pos s)) by (apply wf_SetBit; (assumption || lia)).
  destruct (bitset_empty_or_bit s Hwf) as [Hn|Hex].
  - rewrite (HighestSetBit_empty s) by assumption. rewrite Z.max_l by lia.
    apply only_bit_extremal; [assumption|]. intros p.
    rewrite TestBit_SetBit, Hn by assumption. cbn [orb]. apply Z.eqb_eq.
  - destruct (HighestSetBit_is_highest s Hwf Hex) as [Hh Hmax].
    apply HighestSetBit_eq; [assumption|]. split.
    + rewrite TestBit_SetBit by assumption.
      destruct (Z.max_spec pos (HighestSetBit s)) as [[_ ->]|[_ ->]];
        [rewrite Hh; reflexivity | rewrite Z.eqb_refl; apply orb_true_r].
    + intros p. rewrite TestBit_SetBit by assumption. intros Hp.
      apply orb_true_iff in Hp as [Hp|Hp].
      * specialize (Hmax _ Hp). lia.
      * apply Z.eqb_eq in Hp. lia.
Qed.

Lemma LowestSetBit_SetBit s pos :
  wf_bitset s -> 0 <= pos < 128 ->
  LowestSetBit (SetBit pos s)
  = if LowestSetBit s =? -1 then pos else Z.min pos (LowestSetBit s).
Proof.
  intros Hwf Hpos.
  assert (Hwf' : wf_bitset (SetBit pos s)) by (apply wf_SetBit; (assumption || lia)).
  destruct (bitset_empty_or_bit s Hwf) as [Hn|Hex].
  - rewrite (LowestSetBit_empty s) by assumption. cbn [Z.eqb].
    apply only_bit_extremal; [assumption|]. intros p.
    rewrite TestBit_SetBit, Hn by assumption. cbn [orb]. apply Z.eqb_eq.
  - destruct (LowestSetBit_is_lowest s Hwf Hex) as [Hl Hmin].
    pose proof (TestBit_true_range _ _ Hl) as Hlr.
    destruct (Z.eqb_spec (LowestSetBit s) (-1)); [lia|].
    apply LowestSetBit_eq; [assumption|]. split.
    + rewrite TestBit_SetBit by assumption.
      destruct (Z.min_spec pos (LowestSetBit s)) as [[_ ->]|[_ ->]];
        [rewrite Z.eqb_refl; apply orb_true_r | rewrite Hl; reflexivity].
    + intros p. rewrite TestBit_SetBit by assumption. intros Hp.
      apply orb_true_iff in Hp as [Hp|Hp].
      * specialize (Hmin _ Hp). lia.
      * apply Z.eqb_eq in Hp. lia.
Qed.

(** X1. [SetBit] at a position below 128 makes [TestBit] true at that
    position, leaves the answer of [TestBit] at every other position
    as it was, and keeps both words within 64 bits. *)
Theorem X1_SetBit_sets_one_bit (s : Bitset128) (pos : Z) :
  wf_bitset s -> 0 <= pos < kMaxBitPosition ->
  TestBit (SetBit pos s) pos = true /\
  (forall q, q <> pos -> TestBit (SetBit pos s) q = TestBit s q) /\
  wf_bitset (SetBit pos s).
Proof.
  intros Hwf Hpos. unfold kMaxBitPosition in Hpos. split; [|split].
  - rewrite TestBit_SetBit, Z.eqb_refl by assumption. apply orb_true_r.
  - intros q Hq. rewrite TestBit_SetBit by assumption.
    destruct (Z.eqb_spec q pos); [contradiction|apply orb_false_r].
  - apply wf_SetBit; (assumption || lia).
Qed.

(** X2. [ClearBit] at a position below 128 makes [TestBit] false at
    that position, leaves the answer of [TestBit] at every other
    position as it was, and keeps both words within 64 bits. *)
Theorem X2_ClearBit_clears_one_bit (s : Bitset128) (pos : Z) :
  wf_bitset s -> 0 <= pos < kMaxBitPosition ->
  TestBit (ClearBit pos s) pos = false /\
  (forall q, q <> pos -> TestBit (ClearBit pos s) q = TestBit s q) /\
  wf_bitset (ClearBit pos s).
Proof.
  intros Hwf Hpos. unfold kMaxBitPosition in Hpos. split; [|split].
  - rewrite TestBit_ClearBit, Z.eqb_refl by assumption. apply andb_false_r.
  - intros q Hq. rewrite TestBit_ClearBit by assumption.
    destruct (Z.eqb_spec q pos); [contradiction|apply andb_true_r].
  - apply wf_ClearBit; assumption.
Qed.

(** X3. Setting a clear bit and clearing it again gives back the same
    two words, and so does clearing a set bit and setting it again;
    setting a bit twice, or clearing it twice, is the same as doing it
    once. *)
Theorem X3_set_clear_round_trip (s : Bitset128) (pos : Z) :
  wf_bitset s -> 0 <= pos ->
  (TestBit s pos = false -> ClearBit pos (SetBit pos s) = s) /\
  (TestBit s pos = true -> SetBit pos (ClearBit pos s) = s) /\
  SetBit pos (SetBit pos s) = SetBit pos s /\
  ClearBit pos (ClearBit pos s) = ClearBit pos s.
Proof.
  intros Hwf Hpos. repeat apply conj.
  - intros Hb. rewrite ClearBit_SetBit by assumption.
    apply ClearBit_on_clear_bit; assumption.
  - intros Hb. rewrite SetBit_ClearBit by assumption.
    apply SetBit_on_set_bit; assumption.
  - apply SetBit_SetBit; assumption.
  - apply ClearBit_ClearBit; assumption.
Qed.

(** X4. Two bitsets on which [TestBit] gives the same answer at every
    position hold the same two words. *)
Theorem X4_TestBit_determines_words (s1 s2 : Bitset128) :
  wf_bitset s1 -> wf_bitset s2 ->
  (forall p, 0 <= p < kMaxBitPosition -> TestBit s1 p = TestBit s2 p) ->
  s1 = s2.
Proof.
  intros Hwf1 Hwf2 Hbits. apply bitset_ext; try assumption.
  intros p. unfold kMaxBitPosition in Hbits.
  destruct (Z.lt_ge_cases p 0); [rewrite !TestBit_outside by lia; reflexivity|].
  destruct (Z.lt_ge_cases p 128); [apply Hbits; lia|].
  rewrite !TestBit_outside by lia. reflexivity.
Qed.

(** X5. [HighestSetBit] and [LowestSetBit] return -1 exactly when no
    bit is set; otherwise both results lie in 0..127, are set bits, and
    the lowest is at most the highest. *)
Theorem X5_extremal_results (s : Bitset128) :
  wf_bitset s ->
  (HighestSetBit s = -1 <-> no_bit_set s) /\
  (LowestSetBit s = -1 <-> no_bit_set s) /\
  (HighestSetBit s <> -1 ->
     0 <= LowestSetBit s <= HighestSetBit s /\ HighestSetBit s < kMaxBitPosition /\
     TestBit s (LowestSetBit s) = true /\ TestBit s (HighestSetBit s) = true).
Proof.
  intros Hwf. unfold kMaxBitPosition.
  destruct (bitset_empty_or_bit s Hwf) as [Hn|Hex].
  - rewrite HighestSetBit_empty, LowestSetBit_empty by assumption.
    repeat split; auto; contradiction.
  - destruct (HighestSetBit_is_highest s Hwf Hex) as [Hh Hmax].
    destruct (LowestSetBit_is_lowest s Hwf Hex) as [Hl Hmin].
    pose proof (TestBit_true_range _ _ Hh). pose proof (TestBit_true_range _ _ Hl).
    pose proof (Hmax _ Hl).
    assert (Hne : ~ no_bit_set s)
      by (intros Hn; rewrite Hn in Hh; discriminate).
    split; [split; [lia|contradiction]|].
    split; [split; [lia|contradiction]|].
    intros _. repeat split; (assumption || lia).
Qed.

(** X6. After [SetBit] at a position [pos] below 128 the highest set
    bit is the greater of [pos] and the former highest set bit, and
    the lowest set bit is [pos] on a formerly empty bitset and the
    lesser of [pos] and the former lowest set bit otherwise. *)
Theorem X6_extremal_after_SetBit (s : Bitset128) (pos : Z) :
  wf_bitset s -> 0 <= pos < kMaxBitPosition ->
  HighestSetBit (SetBit pos s) = Z.max pos (HighestSetBit s) /\
  LowestSetBit (SetBit pos s)
  = if LowestSetBit s =? -1 then pos else Z.min pos (LowestSetBit s).
Proof.
  intros Hwf Hpos. unfold kMaxBitPosition in Hpos. split.
  - apply HighestSetBit_SetBit; assumption.
  - apply LowestSetBit_SetBit; assumption.
Qed.

(** ** ApplyDelta on an in-range level *)

Lemma ApplyDelta_yes b msg :
  DeltaMessage.side msg = kYes -> DeltaMessage.price msg < kArraySize ->
  let p := DeltaMessage.price msg in
  let q := wrap32 (arr_get (bids_ b) p + DeltaMessage.delta msg) in
  ApplyDelta msg b =
  {| bids_ := arr_set (bids_ b) p q;
     asks_ := asks_ b;
     bids_bitset_ := if q =? 0 then ClearBit p (bids_bitset_ b)
                     else SetBit p (bids_bitset_ b);
     asks_bitset_ := asks_bitset_ b |}.
Proof.
  intros Hside Hp. unfold ApplyDelta. rewrite Hside.
  destruct (Z.geb_spec (DeltaMessage.price msg) kArraySize); [lia|reflexivity].
Qed.

Lemma ApplyDelta_no b msg :
  DeltaMessage.side msg = kNo -> DeltaMessage.price msg < kArraySize ->
  let p := DeltaMessage.price msg in
  let q := wrap32 (arr_get (asks_ b) p + DeltaMessage.delta msg) in
  ApplyDelta msg b =
  {| bids_ := bids_ b;
     asks_ := arr_set (asks_ b) p q;
     bids_bitset_ := bids_bitset_ b;
     asks_bitset_ := if q =? 0 then ClearBit p (asks_bitset_ b)
                     else SetBit p (asks_bitset_ b) |}.
Proof.
  intros Hside Hp. unfold ApplyDelta. rewrite Hside.
  destruct (Z.geb_spec (DeltaMessage.price msg) kArraySize); [lia|reflexivity].
Qed.

Lemma adjusted_intro a s p d :
  wf_array a -> wf_bitset s -> 0 <= p < kArraySize ->
  let q := wrap32 (arr_get a p + d) in
  adjusted a s p d (arr_set a p q) (if q =? 0 then ClearBit p s else SetBit p s).
Proof.
  intros Ha Hs Hp q. unfold adjusted.
  pose proof (wf_array_index a p Ha Hp) as Hidx.
  assert (Hp128 : 0 <= p < 128) by (unfold kArraySize, kMaxBookLevels in Hp; lia).
  rewrite arr_get_set_eq by (lia || assumption).
  repeat apply conj.
  - reflexivity.
  - intros Hr. subst q. unfold wrap32. apply Z.mod_small. exact Hr.
  - intros r Hr Hne. apply arr_get_set_ne; lia.
  - intros r Hne. destruct (q =? 0).
    + rewrite TestBit_ClearBit by assumption.
      destruct (Z.eqb_spec r p); [contradiction|]. apply andb_true_r.
    + rewrite TestBit_SetBit by assumption.
      destruct (Z.eqb_spec r p); [contradiction|]. apply orb_false_r.
  - destruct (Z.eqb_spec q 0) as [Hz|Hnz].
    + rewrite TestBit_ClearBit, Z.eqb_refl, andb_false_r by assumption.
      discriminate.
    + intros _. exact Hnz.
  - destruct (Z.eqb_spec q 0) as [Hz|Hnz]; [contradiction|]. intros _.
    rewrite TestBit_SetBit, Z.eqb_refl by assumption. apply orb_true_r.
Qed.

(** X7. A delta for an in-range price on side "yes" replaces the bid
    quantity at that price by the old quantity plus the delta in
    32-bit unsigned arithmetic, makes the bid presence bit of that
    price agree with the new quantity (set iff non-zero), and changes
    no other bid level, no other bid bit and nothing on the ask side;
    side "no" does the same to the ask side. *)
Theorem X7_delta_adjusts_one_level (b : OrderBook) (msg : DeltaMessage.t) :
  wf_book b -> wf_delta msg -> DeltaMessage.price msg < kMaxBookLevels ->
  (DeltaMessage.side msg = kYes ->
     adjusted (bids_ b) (bids_bitset_ b)
       (DeltaMessage.price msg) (DeltaMessage.delta msg)
       (bids_ (ApplyDelta msg b)) (bids_bitset_ (ApplyDelta msg b)) /\
     asks_ (ApplyDelta msg b) = asks_ b /\
     asks_bitset_ (ApplyDelta msg b) = asks_bitset_ b) /\
  (DeltaMessage.side msg = kNo ->
     adjusted (asks_ b) (asks_bitset_ b)
       (DeltaMessage.price msg) (DeltaMessage.delta msg)
       (asks_ (ApplyDelta msg b)) (asks_bitset_ (ApplyDelta msg b)) /\
     bids_ (ApplyDelta msg b) = bids_ b /\
     bids_bitset_ (ApplyDelta msg b) = bids_bitset_ b).
Proof.
  intros Hwf [Hp _] Hlt. destruct Hwf. unfold is_uint32 in Hp.
  split; intros Hside.
  - rewrite (ApplyDelta_yes b msg Hside Hlt).
    cbn [bids_ asks_ bids_bitset_ asks_bitset_].
    split; [|split; reflexivity].
    apply adjusted_intro; (assumption || (unfold kArraySize; lia)).
  - rewrite (ApplyDelta_no b msg Hside Hlt).
    cbn [bids_ asks_ bids_bitset_ asks_bitset_].
    split; [|split; reflexivity].
    apply adjusted_intro; (assumption || (unfold kArraySize; lia)).
Qed.

(** X8. [ApplyDelta] keeps the array/bitset invariant. [ApplyTrade]
    keeps it when the level it consumes stores a non-zero quantity.
    [ApplySnapshot] establishes it, from any state, when no price is
    listed twice on a side. *)
Theorem X8_mutators_and_the_invariant
    (b : OrderBook) (msg : DeltaMessage.t) (trade : TradeMessage.t)
    (snap : SnapshotMessage.t) :
  wf_book b -> book_inv b ->
  (wf_delta msg -> book_inv (ApplyDelta msg b)) /\
  (wf_trade trade ->
   (TradeMessage.taker_side trade = kYes ->
    arr_get (asks_ b) (TradeMessage.no_price trade) <> 0) ->
   (TradeMessage.taker_side trade = kNo ->
    arr_get (bids_ b) (TradeMessage.yes_price trade) <> 0) ->
   book_inv (ApplyTrade trade b)) /\
  (wf_snapshot snap ->
   NoDup (map fst (snapshot_levels (SnapshotMessage.yes_count snap)
            (SnapshotMessage.yes_price snap) (SnapshotMessage.yes_qty snap))) ->
   NoDup (map fst (snapshot_levels (SnapshotMessage.no_count snap)
            (SnapshotMessage.no_price snap) (SnapshotMessage.no_qty snap))) ->
   book_inv (ApplySnapshot snap b)).
Proof.
  intros Hwf Hinv. repeat apply conj.
  - intros Hd. apply ApplyDelta_keeps_inv; assumption.
  - intros Ht Hyes Hno. apply ApplyTrade_keeps_inv; assumption.
  - intros Hs Hy Hn. apply ApplySnapshot_inv; assumption.
Qed.

(** ** How deltas and trades compose *)

Lemma arr_set_twice a p v w : arr_set (arr_set a p v) p w = arr_set a p w.
Proof. unfold arr_set. apply list_insert_insert_eq. Qed.

Lemma arr_set_same a p :
  0 <= p -> (Z.to_nat p < length a)%nat -> arr_set a p (arr_get a p) = a.
Proof.
  intros Hp Hlen. unfold arr_set, arr_get.
  destruct (lookup_lt_is_Some_2 a (Z.to_nat p) Hlen) as [v Hv].
  rewrite Hv. cbn. apply list_insert_id. exact Hv.
Qed.

Lemma arr_set_commute a p1 p2 v w :
  0 <= p1 -> 0 <= p2 -> p1 <> p2 ->
  arr_set (arr_set a p1 v) p2 w = arr_set (arr_set a p2 w) p1 v.
Proof.
  intros H1 H2 Hne. unfold arr_set. apply list_insert_insert_ne. lia.
Qed.

Lemma wrap32_add_l x d : wrap32 (wrap32 x + d) = wrap32 (x + d).
Proof. unfold wrap32. apply Z.add_mod_idemp_l. unfold uint32_mod. lia. Qed.

Lemma wrap32_small x : is_uint32 x -> wrap32 x = x.
Proof. intros Hx. unfold wrap32. apply Z.mod_small. exact Hx. Qed.

Lemma bit_written_twice s p (c1 c2 : bool) :
  wf_bitset s -> 0 <= p ->
  (if c2 then ClearBit p (if c1 then ClearBit p s else SetBit p s)
   else SetBit p (if c1 then ClearBit p s else SetBit p s))
  = if c2 then ClearBit p s else SetBit p s.
Proof.
  intros Hwf Hp. destruct c1, c2;
    auto using ClearBit_ClearBit, SetBit_ClearBit, ClearBit_SetBit, SetBit_SetBit.
Qed.

Lemma bit_writes_commute s p1 p2 (c1 c2 : bool) :
  wf_bitset s -> 0 <= p1 < 128 -> 0 <= p2 < 128 -> p1 <> p2 ->
  (if c2 then ClearBit p2 (if c1 then ClearBit p1 s else SetBit p1 s)
   else SetBit p2 (if c1 then ClearBit p1 s else SetBit p1 s))
  = if c1 then ClearBit p1 (if c2 then ClearBit p2 s else SetBit p2 s)
    else SetBit p1 (if c2 then ClearBit p2 s else SetBit p2 s).
Proof.
  intros Hwf H1 H2 Hne.
  assert (W1 : wf_bitset (ClearBit p1 s)) by (apply wf_ClearBit; assumption).
  assert (W2 : wf_bitset (ClearBit p2 s)) by (apply wf_ClearBit; assumption).
  assert (W3 : wf_bitset (SetBit p1 s)) by (apply wf_SetBit; (assumption || lia)).
  assert (W4 : wf_bitset (SetBit p2 s)) by (apply wf_SetBit; (assumption || lia)).
  destruct c1, c2; apply bitset_ext;
    try (apply wf_ClearBit; assumption);
    try (apply wf_SetBit; (assumption || lia));
    intros q;
    rewrite ?TestBit_ClearBit, ?TestBit_SetBit, ?TestBit_ClearBit, ?TestBit_SetBit
      by assumption;
    destruct (TestBit s q), (Z.eqb_spec q p1), (Z.eqb_spec q p2);
    try reflexivity; lia.
Qed.

(** Two deltas on the same level of one side's array and bitset. *)
Lemma level_adjusted_twice a s p d1 d2 :
  wf_array a -> wf_bitset s -> 0 <= p < kArraySize ->
  let q1 := wrap32 (arr_get a p + d1) in
  let a1 := arr_set a p q1 in
  let s1 := if q1 =? 0 then ClearBit p s else SetBit p s in
  let q2 := wrap32 (arr_get a1 p + d2) in
  let q := wrap32 (arr_get a p + (d1 + d2)) in
  arr_set a1 p q2 = arr_set a p q /\
  (if q2 =? 0 then ClearBit p s1 else SetBit p s1)
  = (if q =? 0 then ClearBit p s else SetBit p s).
Proof.
  intros Ha Hs Hp q1 a1 s1 q2 q.
  pose proof (wf_array_index a p Ha Hp) as Hidx.
  assert (Hq : q2 = q).
  { subst q2 a1 q q1. rewrite arr_get_set_eq by (lia || assumption).
    rewrite wrap32_add_l. f_equal. lia. }
  rewrite Hq. split.
  - subst a1. apply arr_set_twice.
  - subst s1. apply bit_written_twice; (assumption || lia).
Qed.

(** X9. Two deltas for the same side and price act as one delta
    carrying the sum of the two: the book after both is the book after
    that single delta. *)
Theorem X9_deltas_on_one_level_add_up (b : OrderBook) (d1 d2 : DeltaMessage.t) :
  wf_book b -> wf_delta d1 -> wf_delta d2 ->
  is_int32 (DeltaMessage.delta d1 + DeltaMessage.delta d2) ->
  DeltaMessage.price d2 = DeltaMessage.price d1 ->
  DeltaMessage.side d2 = DeltaMessage.side d1 ->
  ApplyDelta d2 (ApplyDelta d1 b)
  = ApplyDelta {| DeltaMessage.price := DeltaMessage.price d1;
                  DeltaMessage.delta := DeltaMessage.delta d1 + DeltaMessage.delta d2;
                  DeltaMessage.side := DeltaMessage.side d1 |} b.
Proof.
  intros Hwf [Hp1 _] _ _ Hprice Hside. destruct Hwf. unfold is_uint32 in Hp1.
  destruct (Z.lt_ge_cases (DeltaMessage.price d1) kArraySize) as [Hlt|Hge].
  - destruct (DeltaMessage.side d1) eqn:Hs1.
    + unfold ApplyDelta. cbn [DeltaMessage.price DeltaMessage.side].
      rewrite Hside, Hs1.
      destruct (DeltaMessage.price d2 >=? kArraySize),
               (DeltaMessage.price d1 >=? kArraySize); reflexivity.
    + rewrite (ApplyDelta_yes b d1 Hs1 Hlt).
      rewrite ApplyDelta_yes by (congruence || (rewrite Hprice; exact Hlt)).
      rewrite ApplyDelta_yes by (cbn; (reflexivity || assumption)).
      cbn [bids_ asks_ bids_bitset_ asks_bitset_ DeltaMessage.price DeltaMessage.delta].
      rewrite Hprice.
      destruct (level_adjusted_twice (bids_ b) (bids_bitset_ b)
                  (DeltaMessage.price d1) (DeltaMessage.delta d1)
                  (DeltaMessage.delta d2)) as [Ha Hb];
        try (assumption || lia).
      cbn zeta in Ha, Hb. rewrite Ha, Hb. reflexivity.
    + rewrite (ApplyDelta_no b d1 Hs1 Hlt).
      rewrite ApplyDelta_no by (congruence || (rewrite Hprice; exact Hlt)).
      rewrite ApplyDelta_no by (cbn; (reflexivity || assumption)).
      cbn [bids_ asks_ bids_bitset_ asks_bitset_ DeltaMessage.price DeltaMessage.delta].
      rewrite Hprice.
      destruct (level_adjusted_twice (asks_ b) (asks_bitset_ b)
                  (DeltaMessage.price d1) (DeltaMessage.delta d1)
                  (DeltaMessage.delta d2)) as [Ha Hb];
        try (assumption || lia).
      cbn zeta in Ha, Hb. rewrite Ha, Hb. reflexivity.
  - unfold ApplyDelta. cbn [DeltaMessage.price]. rewrite Hprice.
    destruct (Z.geb_spec (DeltaMessage.price d1) kArraySize); [|lia].
    destruct (Z.geb_spec (DeltaMessage.price d1) kArraySize); [reflexivity|lia].
Qed.

Lemma level_adjusted_back a s p d :
  wf_array a -> wf_bitset s -> 0 <= p < kArraySize ->
  (TestBit s p = true <-> arr_get a p <> 0) ->
  let q1 := wrap32 (arr_get a p + d) in
  let a1 := arr_set a p q1 in
  let s1 := if q1 =? 0 then ClearBit p s else SetBit p s in
  let q2 := wrap32 (arr_get a1 p + - d) in
  arr_set a1 p q2 = a /\
  (if q2 =? 0 then ClearBit p s1 else SetBit p s1) = s.
Proof.
  intros Ha Hs Hp Hinv q1 a1 s1 q2.
  destruct (level_adjusted_twice a s p d (- d) Ha Hs Hp) as [Harr Hbit].
  cbn zeta in Harr, Hbit. fold q1 a1 s1 q2 in Harr, Hbit.
  replace (arr_get a p + (d + - d)) with (arr_get a p) in Harr, Hbit by lia.
  rewrite (wrap32_small (arr_get a p)) in Harr, Hbit
    by (apply arr_get_uint32; assumption).
  rewrite Harr, Hbit. split.
  - apply arr_set_same; [lia|]. apply wf_array_index; assumption.
  - destruct (Z.eqb_spec (arr_get a p) 0) as [Hz|Hnz].
    + apply ClearBit_on_clear_bit; [assumption|lia|].
      destruct (TestBit s p) eqn:Hb; [|reflexivity].
      exfalso. apply (proj1 Hinv); [reflexivity|exact Hz].
    + apply SetBit_on_set_bit; [assumption|]. apply Hinv. exact Hnz.
Qed.

(** X10. On a book that satisfies the array/bitset invariant, a delta
    followed by the delta of the opposite amount for the same side and
    price gives back the book, bit for bit. *)
Theorem X10_delta_then_opposite_delta (b : OrderBook) (msg : DeltaMessage.t) :
  wf_book b -> book_inv b -> wf_delta msg ->
  is_int32 (- DeltaMessage.delta msg) ->
  ApplyDelta {| DeltaMessage.price := DeltaMessage.price msg;
                DeltaMessage.delta := - DeltaMessage.delta msg;
                DeltaMessage.side := DeltaMessage.side msg |}
             (ApplyDelta msg b) = b.
Proof.
  intros Hwf [Hbi Hai] [Hp _] _. destruct Hwf. unfold is_uint32 in Hp.
  destruct (Z.lt_ge_cases (DeltaMessage.price msg) kArraySize) as [Hlt|Hge].
  - assert (Hr : 0 <= DeltaMessage.price msg < kMaxBookLevels)
      by (unfold kArraySize in Hlt; lia).
    destruct (DeltaMessage.side msg) eqn:Hs.
    + unfold ApplyDelta. cbn [DeltaMessage.price DeltaMessage.side]. rewrite Hs.
      destruct (DeltaMessage.price msg >=? kArraySize); reflexivity.
    + rewrite (ApplyDelta_yes b msg Hs Hlt).
      rewrite ApplyDelta_yes by (cbn; (reflexivity || assumption)).
      cbn [bids_ asks_ bids_bitset_ asks_bitset_ DeltaMessage.price DeltaMessage.delta].
      destruct (level_adjusted_back (bids_ b) (bids_bitset_ b)
                  (DeltaMessage.price msg) (DeltaMessage.delta msg))
        as [Ha Hb]; try (assumption || lia); [apply Hbi; exact Hr|].
      cbn zeta in Ha, Hb. rewrite Ha, Hb. destruct b; reflexivity.
    + rewrite (ApplyDelta_no b msg Hs Hlt).
      rewrite ApplyDelta_no by (cbn; (reflexivity || assumption)).
      cbn [bids_ asks_ bids_bitset_ asks_bitset_ DeltaMessage.price DeltaMessage.delta].
      destruct (level_adjusted_back (asks_ b) (asks_bitset_ b)
                  (DeltaMessage.price msg) (DeltaMessage.delta msg))
        as [Ha Hb]; try (assumption || lia); [apply Hai; exact Hr|].
      cbn zeta in Ha, Hb. rewrite Ha, Hb. destruct b; reflexivity.
  - unfold ApplyDelta. cbn [DeltaMessage.price].
    destruct (Z.geb_spec (DeltaMessage.price msg) kArraySize); [|lia].
    destruct (Z.geb_spec (DeltaMessage.price msg) kArraySize); [reflexivity|lia].
Qed.

Lemma level_adjusted_commute a s p1 d1 p2 d2 :
  wf_array a -> wf_bitset s ->
  0 <= p1 < kArraySize -> 0 <= p2 < kArraySize -> p1 <> p2 ->
  let q1 := wrap32 (arr_get a p1 + d1) in
  let q2 := wrap32 (arr_get a p2 + d2) in
  let a1 := arr_set a p1 q1 in
  let s1 := if q1 =? 0 then ClearBit p1 s else SetBit p1 s in
  let a2 := arr_set a p2 q2 in
  let s2 := if q2 =? 0 then ClearBit p2 s else SetBit p2 s in
  let q12 := wrap32 (arr_get a1 p2 + d2) in
  let q21 := wrap32 (arr_get a2 p1 + d1) in
  arr_set a1 p2 q12 = arr_set a2 p1 q21 /\
  (if q12 =? 0 then ClearBit p2 s1 else SetBit p2 s1)
  = (if q21 =? 0 then ClearBit p1 s2 else SetBit p1 s2).
Proof.
  intros Ha Hs H1 H2 Hne q1 q2 a1 s1 a2 s2 q12 q21.
  assert (E12 : q12 = q2)
    by (subst q12 a1 q2; rewrite arr_get_set_ne by lia; reflexivity).
  assert (E21 : q21 = q1)
    by (subst q21 a2 q1; rewrite arr_get_set_ne by lia; reflexivity).
  rewrite E12, E21. split.
  - subst a1 a2. apply arr_set_commute; lia.
  - subst s1 s2. unfold kArraySize, kMaxBookLevels in *.
    apply bit_writes_commute; (assumption || lia).
Qed.

Lemma ApplyDelta_ignored b msg :
  kArraySize <= DeltaMessage.price msg \/ DeltaMessage.side msg = kUndefined ->
  ApplyDelta msg b = b.
Proof.
  intros [Hge|Hs]; unfold ApplyDelta.
  - destruct (Z.geb_spec (DeltaMessage.price msg) kArraySize); [reflexivity|lia].
  - rewrite Hs. destruct (DeltaMessage.price msg >=? kArraySize); reflexivity.
Qed.

(** X11. Two deltas that differ in price or in side can be applied in
    either order: the resulting books are equal. *)
Theorem X11_deltas_commute (b : OrderBook) (d1 d2 : DeltaMessage.t) :
  wf_book b -> wf_delta d1 -> wf_delta d2 ->
  DeltaMessage.price d1 <> DeltaMessage.price d2 \/
  DeltaMessage.side d1 <> DeltaMessage.side d2 ->
  ApplyDelta d2 (ApplyDelta d1 b) = ApplyDelta d1 (ApplyDelta d2 b).
Proof.
  intros Hwf [Hp1 _] [Hp2 _] Hdiff. destruct Hwf. unfold is_uint32 in *.
  destruct (Z.lt_ge_cases (DeltaMessage.price d1) kArraySize) as [Hlt1|Hge1];
    [|rewrite !(ApplyDelta_ignored _ d1) by (left; exact Hge1); reflexivity].
  destruct (Z.lt_ge_cases (DeltaMessage.price d2) kArraySize) as [Hlt2|Hge2];
    [|rewrite !(ApplyDelta_ignored _ d2) by (left; exact Hge2); reflexivity].
  destruct (DeltaMessage.side d1) eqn:Hs1;
    [rewrite !(ApplyDelta_ignored _ d1) by (right; exact Hs1); reflexivity| |];
  (destruct (DeltaMessage.side d2) eqn:Hs2;
    [rewrite !(ApplyDelta_ignored _ d2) by (right; exact Hs2); reflexivity| |]).
  - assert (Hne : DeltaMessage.price d1 <> DeltaMessage.price d2)
      by (destruct Hdiff as [H|H]; [exact H|congruence]).
    rewrite (ApplyDelta_yes b d1 Hs1 Hlt1), (ApplyDelta_yes b d2 Hs2 Hlt2).
    rewrite (ApplyDelta_yes _ d2 Hs2 Hlt2), (ApplyDelta_yes _ d1 Hs1 Hlt1).
    cbn [bids_ asks_ bids_bitset_ asks_bitset_].
    destruct (level_adjusted_commute (bids_ b) (bids_bitset_ b)
                (DeltaMessage.price d1) (DeltaMessage.delta d1)
                (DeltaMessage.price d2) (DeltaMessage.delta d2))
      as [Ha Hb]; try (assumption || lia).
    cbn zeta in Ha, Hb. rewrite Ha, Hb. reflexivity.
  - rewrite (ApplyDelta_yes b d1 Hs1 Hlt1), (ApplyDelta_no b d2 Hs2 Hlt2).
    rewrite (ApplyDelta_no _ d2 Hs2 Hlt2), (ApplyDelta_yes _ d1 Hs1 Hlt1).
    reflexivity.
  - rewrite (ApplyDelta_no b d1 Hs1 Hlt1), (ApplyDelta_yes b d2 Hs2 Hlt2).
    rewrite (ApplyDelta_yes _ d2 Hs2 Hlt2), (ApplyDelta_no _ d1 Hs1 Hlt1).
    reflexivity.
  - assert (Hne : DeltaMessage.price d1 <> DeltaMessage.price d2)
      by (destruct Hdiff as [H|H]; [exact H|congruence]).
    rewrite (ApplyDelta_no b d1 Hs1 Hlt1), (ApplyDelta_no b d2 Hs2 Hlt2).
    rewrite (ApplyDelta_no _ d2 Hs2 Hlt2), (ApplyDelta_no _ d1 Hs1 Hlt1).
    cbn [bids_ asks_ bids_bitset_ asks_bitset_].
    destruct (level_adjusted_commute (asks_ b) (asks_bitset_ b)
                (DeltaMessage.price d1) (DeltaMessage.delta d1)
                (DeltaMessage.price d2) (DeltaMessage.delta d2))
      as [Ha Hb]; try (assumption || lia).
    cbn zeta in Ha, Hb. rewrite Ha, Hb. reflexivity.
Qed.

(** X12. A trade with a positive count whose consumed level has its
    presence bit set is the delta of minus the count on the consumed
    side: taker "yes" at [no_price] acts as a "no" delta, taker "no"
    at [yes_price] as a "yes" delta. *)
Theorem X12_trade_is_a_negative_delta (b : OrderBook) (trade : TradeMessage.t) :
  wf_book b -> wf_trade trade -> 0 < TradeMessage.count trade ->
  (TradeMessage.taker_side trade = kYes ->
   TradeMessage.no_price trade < kMaxBookLevels ->
   TestBit (asks_bitset_ b) (TradeMessage.no_price trade) = true ->
   ApplyTrade trade b
   = ApplyDelta {| DeltaMessage.price := TradeMessage.no_price trade;
                   DeltaMessage.delta := - TradeMessage.count trade;
                   DeltaMessage.side := kNo |} b) /\
  (TradeMessage.taker_side trade = kNo ->
   TradeMessage.yes_price trade < kMaxBookLevels ->
   TestBit (bids_bitset_ b) (TradeMessage.yes_price trade) = true ->
   ApplyTrade trade b
   = ApplyDelta {| DeltaMessage.price := TradeMessage.yes_price trade;
                   DeltaMessage.delta := - TradeMessage.count trade;
                   DeltaMessage.side := kYes |} b).
Proof.
  intros Hwf _ Hc. destruct Hwf. split; intros Hside Hp Hbit.
  - rewrite (ApplyTrade_yes b trade Hc Hside Hp).
    rewrite ApplyDelta_no by (cbn; (reflexivity || assumption)).
    cbn [DeltaMessage.price DeltaMessage.delta].
    replace (arr_get (asks_ b) (TradeMessage.no_price trade) + - TradeMessage.count trade)
      with (arr_get (asks_ b) (TradeMessage.no_price trade) - TradeMessage.count trade)
      by lia.
    rewrite (SetBit_on_set_bit _ _ wf_asks_bitset0 Hbit). reflexivity.
  - rewrite (ApplyTrade_no b trade Hc Hside Hp).
    rewrite ApplyDelta_yes by (cbn; (reflexivity || assumption)).
    cbn [DeltaMessage.price DeltaMessage.delta].
    replace (arr_get (bids_ b) (TradeMessage.yes_price trade) + - TradeMessage.count trade)
      with (arr_get (bids_ b) (TradeMessage.yes_price trade) - TradeMessage.count trade)
      by lia.
    rewrite (SetBit_on_set_bit _ _ wf_bids_bitset0 Hbit). reflexivity.
Qed.

(** ** Deltas that leave the 32-bit range *)

Lemma level_wraps a s p d :
  wf_array a -> wf_bitset s -> 0 <= p < kArraySize -> is_int32 d ->
  let q := wrap32 (arr_get a p + d) in
  let s' := if q =? 0 then ClearBit p s else SetBit p s in
  (arr_get a p + d < 0 ->
     q = arr_get a p + d + 2 ^ 32 /\ 2 ^ 31 <= q /\ TestBit s' p = true) /\
  (2 ^ 32 <= arr_get a p + d ->
     q = arr_get a p + d - 2 ^ 32 /\ q < 2 ^ 31 /\
     (TestBit s' p = true <-> arr_get a p + d <> 2 ^ 32)).
Proof.
  intros Ha Hs Hp Hd q s'.
  pose proof (arr_get_uint32 a p Ha) as Hq.
  assert (Hp128 : 0 <= p < 128) by (unfold kArraySize, kMaxBookLevels in Hp; lia).
  unfold is_uint32, uint32_mod, is_int32 in *. split; intros Hout.
  - assert (Heq : q = arr_get a p + d + 2 ^ 32).
    { subst q. unfold wrap32, uint32_mod. symmetry.
      apply Z.mod_unique with (q := -1); lia. }
    split; [exact Heq|]. split; [lia|]. subst s'.
    destruct (Z.eqb_spec q 0); [lia|].
    rewrite TestBit_SetBit, Z.eqb_refl by assumption. apply orb_true_r.
  - assert (Heq : q = arr_get a p + d - 2 ^ 32).
    { subst q. unfold wrap32, uint32_mod. symmetry.
      apply Z.mod_unique with (q := 1); lia. }
    split; [exact Heq|]. split; [lia|]. subst s'.
    destruct (Z.eqb_spec q 0).
    + rewrite TestBit_ClearBit, Z.eqb_refl, andb_false_r by assumption.
      split; [discriminate|lia].
    + rewrite TestBit_SetBit, Z.eqb_refl, orb_true_r by assumption.
      split; [lia|reflexivity].
Qed.

(** X13. A delta that takes an in-range bid quantity below zero stores
    the sum plus 2^32, a value of at least 2^31, and leaves the level
    marked present; a delta that takes it to 2^32 or more stores the
    sum minus 2^32, and the level is marked present unless the sum is
    exactly 2^32, which empties it.  The same holds on the ask side. *)
Theorem X13_delta_wraps_around (b : OrderBook) (msg : DeltaMessage.t) :
  wf_book b -> wf_delta msg -> DeltaMessage.price msg < kMaxBookLevels ->
  let p := DeltaMessage.price msg in
  let d := DeltaMessage.delta msg in
  (DeltaMessage.side msg = kYes ->
     (arr_get (bids_ b) p + d < 0 ->
        arr_get (bids_ (ApplyDelta msg b)) p = arr_get (bids_ b) p + d + 2 ^ 32 /\
        2 ^ 31 <= arr_get (bids_ (ApplyDelta msg b)) p /\
        TestBit (bids_bitset_ (ApplyDelta msg b)) p = true) /\
     (2 ^ 32 <= arr_get (bids_ b) p + d ->
        arr_get (bids_ (ApplyDelta msg b)) p = arr_get (bids_ b) p + d - 2 ^ 32 /\
        arr_get (bids_ (ApplyDelta msg b)) p < 2 ^ 31 /\
        (TestBit (bids_bitset_ (ApplyDelta msg b)) p = true <->
         arr_get (bids_ b) p + d <> 2 ^ 32))) /\
  (DeltaMessage.side msg = kNo ->
     (arr_get (asks_ b) p + d < 0 ->
        arr_get (asks_ (ApplyDelta msg b)) p = arr_get (asks_ b) p + d + 2 ^ 32 /\
        2 ^ 31 <= arr_get (asks_ (ApplyDelta msg b)) p /\
        TestBit (asks_bitset_ (ApplyDelta msg b)) p = true) /\
     (2 ^ 32 <= arr_get (asks_ b) p + d ->
        arr_get (asks_ (ApplyDelta msg b)) p = arr_get (asks_ b) p + d - 2 ^ 32 /\
        arr_get (asks_ (ApplyDelta msg b)) p < 2 ^ 31 /\
        (TestBit (asks_bitset_ (ApplyDelta msg b)) p = true <->
         arr_get (asks_ b) p + d <> 2 ^ 32))).
Proof.
  intros Hwf [Hp Hd] Hlt p d. destruct Hwf. unfold is_uint32 in Hp.
  assert (Hr : 0 <= p < kArraySize) by (subst p; unfold kArraySize; lia).
  split; intros Hside.
  - rewrite (ApplyDelta_yes b msg Hside Hlt). cbn [bids_ bids_bitset_].
    fold p d. rewrite arr_get_set_eq by (lia || apply wf_array_index; assumption).
    apply level_wraps; assumption.
  - rewrite (ApplyDelta_no b msg Hside Hlt). cbn [asks_ asks_bitset_].
    fold p d. rewrite arr_get_set_eq by (lia || apply wf_array_index; assumption).
    apply level_wraps; assumption.
Qed.

(** ** Reachable books *)

Lemma BestBid_in_range b :
  wf_book b ->
  0 <= (BestBid b).1 < kMaxBookLevels /\ is_uint32 (BestBid b).2.
Proof.
  intros Hwf. unfold BestBid, kArraySize.
  destruct (Z.geb_spec (HighestSetBit (bids_bitset_ b)) 0);
    destruct (Z.ltb_spec (HighestSetBit (bids_bitset_ b)) kMaxBookLevels);
    cbn [andb fst snd];
    try (split; [unfold kMaxBookLevels | unfold is_uint32, uint32_mod]; lia).
  split; [lia|]. apply arr_get_uint32, Hwf.
Qed.

Lemma BestAsk_in_range b :
  wf_book b ->
  0 <= (BestAsk b).1 < kMaxBookLevels /\ is_uint32 (BestAsk b).2.
Proof.
  intros Hwf. unfold BestAsk, kArraySize.
  destruct (Z.geb_spec (LowestSetBit (asks_bitset_ b)) 0);
    destruct (Z.ltb_spec (LowestSetBit (asks_bitset_ b)) kMaxBookLevels);
    cbn [andb fst snd];
    try (split; [unfold kMaxBookLevels | unfold is_uint32, uint32_mod]; lia).
  split; [lia|]. apply arr_get_uint32, Hwf.
Qed.

(** X14. Whatever well-typed messages were applied, in any order, the
    book keeps 100 quantities per side, each below 2^32, sets no
    presence bit at position 100 or above, and [BestBid] and [BestAsk]
    return a price below 100 with a quantity below 2^32. *)
Theorem X14_reachable_books_stay_in_range (b : OrderBook) :
  reachable b ->
  length (bids_ b) = 100%nat /\ length (asks_ b) = 100%nat /\
  (forall p, is_uint32 (arr_get (bids_ b) p) /\ is_uint32 (arr_get (asks_ b) p)) /\
  (forall p, kMaxBookLevels <= p ->
     TestBit (bids_bitset_ b) p = false /\ TestBit (asks_bitset_ b) p = false) /\
  (0 <= (BestBid b).1 < kMaxBookLevels /\ is_uint32 (BestBid b).2) /\
  (0 <= (BestAsk b).1 < kMaxBookLevels /\ is_uint32 (BestAsk b).2).
Proof.
  intros Hreach. pose proof (reachable_wf b Hreach) as Hwf.
  pose proof (BestBid_in_range b Hwf). pose proof (BestAsk_in_range b Hwf).
  destruct Hwf as [[Hlb Hub] [Hla Hua] Hwb Hwa Hdb Hda].
  split; [exact Hlb|]. split; [exact Hla|].
  split; [intros p; split; apply arr_get_uint32; split; assumption|].
  split; [intros p Hp; split; [apply Hdb|apply Hda]; exact Hp|].
  split; assumption.
Qed.

(** ** Snapshots: what is read and what is stored *)

(** X15. After [ApplySnapshot], from any starting state: an in-range
    price holds the quantity of the last pair that lists it on that
    side and 0 when no pair does; its presence bit is set exactly when
    some pair listing it has a positive quantity, so it is clear when
    no pair lists it; and the book has its representation, pairs with
    a price of [kMaxBookLevels] or more having written nothing. *)
Theorem X15_snapshot_stores_listed_levels
    (snap : SnapshotMessage.t) (b : OrderBook) (p : Z) :
  wf_snapshot snap -> 0 <= p < kMaxBookLevels ->
  let yes := snapshot_levels (SnapshotMessage.yes_count snap)
               (SnapshotMessage.yes_price snap) (SnapshotMessage.yes_qty snap) in
  let no := snapshot_levels (SnapshotMessage.no_count snap)
              (SnapshotMessage.no_price snap) (SnapshotMessage.no_qty snap) in
  let b' := ApplySnapshot snap b in
  wf_book b' /\
  arr_get (bids_ b') p = default 0 (last_qty p yes) /\
  (TestBit (bids_bitset_ b') p = true <-> exists q, (p, q) ∈ yes /\ 0 < q) /\
  ((forall q, (p, q) ∉ yes) ->
     arr_get (bids_ b') p = 0 /\ TestBit (bids_bitset_ b') p = false) /\
  arr_get (asks_ b') p = default 0 (last_qty p no) /\
  (TestBit (asks_bitset_ b') p = true <-> exists q, (p, q) ∈ no /\ 0 < q) /\
  ((forall q, (p, q) ∉ no) ->
     arr_get (asks_ b') p = 0 /\ TestBit (asks_bitset_ b') p = false).
Proof.
  intros Hwf Hp yes no b'.
  destruct (ApplySnapshot_levels snap b p Hwf Hp) as (Hbg & Hbb & Hag & Hab).
  cbn zeta in *. fold yes no b' in Hbg, Hbb, Hag, Hab.
  split; [apply wf_ApplySnapshot; exact Hwf|].
  split; [exact Hbg|]. split; [exact Hbb|]. split.
  - intros Hnone. split.
    + rewrite Hbg. apply last_qty_none in Hnone. rewrite Hnone. reflexivity.
    + apply not_true_is_false. intros Hb.
      apply Hbb in Hb as (q & Hin & _). destruct (Hnone q Hin).
  - split; [exact Hag|]. split; [exact Hab|].
    intros Hnone. split.
    + rewrite Hag. apply last_qty_none in Hnone. rewrite Hnone. reflexivity.
    + apply not_true_is_false. intros Hb.
      apply Hab in Hb as (q & Hin & _). destruct (Hnone q Hin).
Qed.

Lemma snapshot_levels_agree count prices1 qtys1 prices2 qtys2 :
  (forall i, (i < Z.to_nat count)%nat ->
     prices1 !! i = prices2 !! i /\ qtys1 !! i = qtys2 !! i) ->
  snapshot_levels count prices1 qtys1 = snapshot_levels count prices2 qtys2.
Proof.
  intros Hagree. unfold snapshot_levels. apply map_ext_in.
  intros i Hi. apply in_seq in Hi. destruct (Hagree i) as [-> ->]; [lia|].
  reflexivity.
Qed.

Lemma snapshot_levels_none count prices qtys :
  count <= 0 -> snapshot_levels count prices qtys = [].
Proof.
  intros Hc. unfold snapshot_levels.
  replace (Z.to_nat count) with 0%nat by lia. reflexivity.
Qed.

Lemma ApplySnapshot_by_levels snap b :
  ApplySnapshot snap b =
  let yes := fold_left (fun st pq => load_level st pq.1 pq.2)
               (snapshot_levels (SnapshotMessage.yes_count snap)
                  (SnapshotMessage.yes_price snap) (SnapshotMessage.yes_qty snap))
               (zeroed, {| low := 0; high := 0 |}) in
  let no := fold_left (fun st pq => load_level st pq.1 pq.2)
              (snapshot_levels (SnapshotMessage.no_count snap)
                 (SnapshotMessage.no_price snap) (SnapshotMessage.no_qty snap))
              (zeroed, {| low := 0; high := 0 |}) in
  {| bids_ := yes.1; asks_ := no.1; bids_bitset_ := yes.2; asks_bitset_ := no.2 |}.
Proof.
  unfold ApplySnapshot. cbn [bids_ asks_ bids_bitset_ asks_bitset_ reset].
  rewrite !load_side_levels. reflexivity.
Qed.

(** X16. [ApplySnapshot] reads only the first [yes_count] and
    [no_count] entries of the message arrays: two snapshots with the
    same counts that agree on those entries give the same book, from
    any two starting states.  With both counts zero or negative the
    result is the freshly constructed book. *)
Theorem X16_snapshot_reads_counted_entries
    (s1 s2 : SnapshotMessage.t) (b1 b2 : OrderBook) :
  (SnapshotMessage.yes_count s1 = SnapshotMessage.yes_count s2 ->
   SnapshotMessage.no_count s1 = SnapshotMessage.no_count s2 ->
   (forall i, (i < Z.to_nat (SnapshotMessage.yes_count s1))%nat ->
      SnapshotMessage.yes_price s1 !! i = SnapshotMessage.yes_price s2 !! i /\
      SnapshotMessage.yes_qty s1 !! i = SnapshotMessage.yes_qty s2 !! i) ->
   (forall i, (i < Z.to_nat (SnapshotMessage.no_count s1))%nat ->
      SnapshotMessage.no_price s1 !! i = SnapshotMessage.no_price s2 !! i /\
      SnapshotMessage.no_qty s1 !! i = SnapshotMessage.no_qty s2 !! i) ->
   ApplySnapshot s1 b1 = ApplySnapshot s2 b2) /\
  (SnapshotMessage.yes_count s1 <= 0 -> SnapshotMessage.no_count s1 <= 0 ->
   ApplySnapshot s1 b1 = empty_book).
Proof.
  split.
  - intros Hyc Hnc Hy Hn. rewrite !ApplySnapshot_by_levels.
    rewrite <- Hyc, <- Hnc.
    rewrite (snapshot_levels_agree _ _ _ _ _ Hy), (snapshot_levels_agree _ _ _ _ _ Hn).
    reflexivity.
  - intros Hy Hn. rewrite ApplySnapshot_by_levels.
    rewrite !snapshot_levels_none by assumption. reflexivity.
Qed.

(** ** Top-N results as lists of levels *)

Lemma elem_of_levels a ps p q :
  (p, q) ∈ levels a ps <-> p ∈ ps /\ q = arr_get a p.
Proof.
  unfold levels. induction ps as [|x ps IH]; cbn [map].
  - split; [intros H; inversion H | intros [H _]; inversion H].
  - rewrite !elem_of_cons, IH. split.
    + intros [[= -> ->]|[Hin ->]]; auto.
    + intros [[->|Hin] ->]; auto.
Qed.

Lemma length_occupied_asc s : (length (occupied_asc s) <= 100)%nat.
Proof.
  unfold occupied_asc.
  etransitivity; [apply length_filter|]. rewrite length_seqZ. reflexivity.
Qed.

Lemma length_occupied_desc s : (length (occupied_desc s) <= 100)%nat.
Proof. unfold occupied_desc. rewrite length_reverse. apply length_occupied_asc. Qed.

Lemma GetTopNBids_all h b n :
  wf_book b -> kMaxBookLevels <= n -> is_int32 n ->
  GetTopNBids h n b
  = reserved h n (levels (bids_ b) (occupied_desc (bids_bitset_ b))).
Proof.
  intros Hwf Hn Hint. unfold kMaxBookLevels in Hn.
  rewrite GetTopNBids_prefix by (assumption || lia). f_equal.
  apply take_ge. unfold levels. rewrite length_map.
  pose proof (length_occupied_desc (bids_bitset_ b)). lia.
Qed.

Lemma GetTopNAsks_all h b n :
  wf_book b -> kMaxBookLevels <= n -> is_int32 n ->
  GetTopNAsks h n b
  = reserved h n (levels (asks_ b) (occupied_asc (asks_bitset_ b))).
Proof.
  intros Hwf Hn Hint. unfold kMaxBookLevels in Hn.
  rewrite GetTopNAsks_prefix by (assumption || lia). f_equal.
  apply take_ge. unfold levels. rewrite length_map.
  pose proof (length_occupied_asc (asks_bitset_ b)). lia.
Qed.

Lemma is_int32_levels : is_int32 kMaxBookLevels.
Proof. unfold is_int32, kMaxBookLevels. lia. Qed.

(** X17. For a count [n >= 0], [GetTopNBids] reserves room for [n]
    pairs and then returns the first [n] entries of the list of bid
    levels whose presence bit is set, taken in descending price order
    and each paired with its stored quantity; [GetTopNAsks] does the
    same in ascending order.  The result has [min n k] entries, [k]
    the number of such levels, and its prices are strictly ordered.
    When [n > 0] and the free store refuses the [8 * n] bytes of the
    reservation, the call leaves by [std::bad_alloc] instead, which is
    what happens for counts near [INT_MAX] on any book. *)
Theorem X17_top_n_for_nonnegative_count (b : OrderBook) (n : Z) :
  wf_book b -> 0 <= n -> is_int32 n ->
  exists rb ra : list Z,
    rb = take (Z.to_nat n) (occupied_desc (bids_bitset_ b)) /\
    ra = take (Z.to_nat n) (occupied_asc (asks_bitset_ b)) /\
    (forall h : heap,
       n = 0 \/ h (element_size * n) = true ->
       GetTopNBids h n b = Returns (levels (bids_ b) rb) /\
       GetTopNAsks h n b = Returns (levels (asks_ b) ra)) /\
    (forall h : heap,
       0 < n -> h (element_size * n) = false ->
       GetTopNBids h n b = Throws bad_alloc /\
       GetTopNAsks h n b = Throws bad_alloc) /\
    StronglySorted Z.gt rb /\ StronglySorted Z.lt ra /\
    length rb = Nat.min (Z.to_nat n) (length (occupied_desc (bids_bitset_ b))) /\
    length ra = Nat.min (Z.to_nat n) (length (occupied_asc (asks_bitset_ b))) /\
    (forall p, p ∈ occupied_desc (bids_bitset_ b) <->
               0 <= p < kMaxBookLevels /\ TestBit (bids_bitset_ b) p = true) /\
    (forall p, p ∈ occupied_asc (asks_bitset_ b) <->
               0 <= p < kMaxBookLevels /\ TestBit (asks_bitset_ b) p = true).
Proof.
  intros Hwf Hn Hint.
  exists (take (Z.to_nat n) (occupied_desc (bids_bitset_ b))),
         (take (Z.to_nat n) (occupied_asc (asks_bitset_ b))).
  do 2 (split; [reflexivity|]).
  split.
  { intros h Hg.
    rewrite GetTopNBids_prefix, GetTopNAsks_prefix, !levels_take by assumption.
    rewrite !reserved_granted by (destruct Hg; [left; lia | right; assumption]).
    split; reflexivity. }
  split.
  { intros h Hpos Hr.
    rewrite GetTopNBids_prefix, GetTopNAsks_prefix by assumption.
    rewrite !reserved_refused by assumption. split; reflexivity. }
  split; [apply take_sorted, occupied_desc_sorted|].
  split; [apply take_sorted, occupied_asc_sorted|].
  do 2 (split; [apply length_take|]).
  split; intros p; [apply elem_of_occupied_desc | apply elem_of_occupied_asc].
Qed.

(** X18. After a snapshot that lists no price twice on a side, the
    full top-N query of that side returns exactly the listed pairs
    with an in-range price and a positive quantity, bids by strictly
    descending and asks by strictly ascending price.  The lists do not
    depend on the free store [h]; the call returns them unless the
    reservation of [kMaxBookLevels] pairs is refused, in which case it
    leaves by [std::bad_alloc]. *)
Theorem X18_snapshot_then_top_n (snap : SnapshotMessage.t) (b : OrderBook) :
  wf_snapshot snap ->
  let yes := snapshot_levels (SnapshotMessage.yes_count snap)
               (SnapshotMessage.yes_price snap) (SnapshotMessage.yes_qty snap) in
  let no := snapshot_levels (SnapshotMessage.no_count snap)
              (SnapshotMessage.no_price snap) (SnapshotMessage.no_qty snap) in
  NoDup (map fst yes) -> NoDup (map fst no) ->
  exists rb ra : list (Z * Z),
    (forall h : heap,
       GetTopNBids h kMaxBookLevels (ApplySnapshot snap b)
       = reserved h kMaxBookLevels rb) /\
    (forall h : heap,
       GetTopNAsks h kMaxBookLevels (ApplySnapshot snap b)
       = reserved h kMaxBookLevels ra) /\
    (forall h : heap,
       h (element_size * kMaxBookLevels) = true ->
       GetTopNBids h kMaxBookLevels (ApplySnapshot snap b) = Returns rb /\
       GetTopNAsks h kMaxBookLevels (ApplySnapshot snap b) = Returns ra) /\
    (forall p q, (p, q) ∈ rb <-> (p, q) ∈ yes /\ p < kMaxBookLevels /\ 0 < q) /\
    (forall p q, (p, q) ∈ ra <-> (p, q) ∈ no /\ p < kMaxBookLevels /\ 0 < q) /\
    StronglySorted Z.gt (map fst rb) /\ StronglySorted Z.lt (map fst ra).
Proof.
  intros Hwf yes no Hyes Hno.
  pose proof (wf_ApplySnapshot snap b Hwf) as Hwf'.
  pose proof Hwf as [(_ & _ & _ & _ & Hyp & Hyq) (_ & _ & _ & _ & Hnp & Hnq)].
  pose proof (snapshot_levels_uint32 (SnapshotMessage.yes_count snap) _ _ Hyp Hyq)
    as Hyu.
  pose proof (snapshot_levels_uint32 (SnapshotMessage.no_count snap) _ _ Hnp Hnq)
    as Hnu.
  fold yes in Hyu. fold no in Hnu. rewrite Forall_forall in Hyu, Hnu.
  eexists _, _.
  split; [intros h; apply GetTopNBids_all; auto using is_int32_levels; reflexivity|].
  split; [intros h; apply GetTopNAsks_all; auto using is_int32_levels; reflexivity|].
  split.
  { intros h Hg.
    rewrite (GetTopNBids_all h), (GetTopNAsks_all h)
      by (auto using is_int32_levels; reflexivity).
    rewrite !reserved_granted by (right; exact Hg). split; reflexivity. }
  split; [|split; [|split; rewrite levels_prices;
                      [apply occupied_desc_sorted | apply occupied_asc_sorted]]].
  - intros p q. rewrite elem_of_levels, elem_of_occupied_desc. unfold kArraySize.
    split.
    + intros [[Hp Hbit] ->].
      destruct (ApplySnapshot_levels snap b p Hwf Hp) as (Hg & Hb & _ & _).
      cbn zeta in Hg, Hb. fold yes in Hg, Hb.
      apply Hb in Hbit as (q' & Hin & Hq').
      rewrite Hg, (last_qty_nodup p q' yes Hyes Hin). cbn.
      split; [exact Hin|]. split; [lia|exact Hq'].
    + intros (Hin & Hp & Hq).
      pose proof (Hyu _ Hin) as [[Hp0 _] _]. cbn in Hp0.
      destruct (ApplySnapshot_levels snap b p Hwf (conj Hp0 Hp)) as (Hg & Hb & _ & _).
      cbn zeta in Hg, Hb. fold yes in Hg, Hb.
      split; [split; [lia|apply Hb; eauto]|].
      rewrite Hg, (last_qty_nodup p q yes Hyes Hin). reflexivity.
  - intros p q. rewrite elem_of_levels, elem_of_occupied_asc. unfold kArraySize.
    split.
    + intros [[Hp Hbit] ->].
      destruct (ApplySnapshot_levels snap b p Hwf Hp) as (_ & _ & Hg & Hb).
      cbn zeta in Hg, Hb. fold no in Hg, Hb.
      apply Hb in Hbit as (q' & Hin & Hq').
      rewrite Hg, (last_qty_nodup p q' no Hno Hin). cbn.
      split; [exact Hin|]. split; [lia|exact Hq'].
    + intros (Hin & Hp & Hq).
      pose proof (Hnu _ Hin) as [[Hp0 _] _]. cbn in Hp0.
      destruct (ApplySnapshot_levels snap b p Hwf (conj Hp0 Hp)) as (_ & _ & Hg & Hb).
      cbn zeta in Hg, Hb. fold no in Hg, Hb.
      split; [split; [lia|apply Hb; eauto]|].
      rewrite Hg, (last_qty_nodup p q no Hno Hin). reflexivity.
Qed.

(** ** How the queries relate *)

Lemma is_int32_one : is_int32 1.
Proof. unfold is_int32. lia. Qed.

Lemma GetTopNBids_one h b :
  GetTopNBids h 1 b
  = reserved h 1 (let idx := HighestSetBit (bids_bitset_ b) in
                  if (idx <? 0) || (idx >=? kArraySize) then []
                  else [(idx, arr_get (bids_ b) idx)]).
Proof. rewrite GetTopNBids_loop by (lia || apply is_int32_one). reflexivity. Qed.

Lemma GetTopNAsks_one h b :
  GetTopNAsks h 1 b
  = reserved h 1 (let idx := LowestSetBit (asks_bitset_ b) in
                  if (idx <? 0) || (idx >=? kArraySize) then []
                  else [(idx, arr_get (asks_ b) idx)]).
Proof. rewrite GetTopNAsks_loop by (lia || apply is_int32_one). reflexivity. Qed.

(** X19. Asking for one level gives the best price: on a side with
    some presence bit set, [GetTopNBids 1] returns the one-element
    list holding [BestBid] and [GetTopNAsks 1] the one holding
    [BestAsk]; on a side with no presence bit set the list is empty.
    The call returns that list whenever the free store [h] grants the
    one pair that is reserved, and leaves by [std::bad_alloc] when it
    does not. *)
Theorem X19_top_one_is_best (b : OrderBook) :
  wf_book b ->
  ((exists p, TestBit (bids_bitset_ b) p = true) ->
     forall h : heap,
       GetTopNBids h 1 b = reserved h 1 [BestBid b] /\
       (h element_size = true -> GetTopNBids h 1 b = Returns [BestBid b])) /\
  (no_bit_set (bids_bitset_ b) ->
     forall h : heap,
       GetTopNBids h 1 b = reserved h 1 [] /\
       (h element_size = true -> GetTopNBids h 1 b = Returns [])) /\
  ((exists p, TestBit (asks_bitset_ b) p = true) ->
     forall h : heap,
       GetTopNAsks h 1 b = reserved h 1 [BestAsk b] /\
       (h element_size = true -> GetTopNAsks h 1 b = Returns [BestAsk b])) /\
  (no_bit_set (asks_bitset_ b) ->
     forall h : heap,
       GetTopNAsks h 1 b = reserved h 1 [] /\
       (h element_size = true -> GetTopNAsks h 1 b = Returns [])).
Proof.
  intros Hwf. pose proof Hwf as [_ _ Hwb Hwa Hdb Hda].
  assert (Hgr : forall (h : heap) o r,
             o = reserved h 1 r ->
             o = reserved h 1 r /\ (h element_size = true -> o = Returns r)).
  { intros h o r ->. split; [reflexivity|]. intros Hg.
    apply reserved_granted. right. exact Hg. }
  repeat apply conj.
  - intros Hex h. apply Hgr.
    pose proof (HighestSetBit_is_highest _ Hwb Hex) as Hh.
    pose proof (highest_in_domain _ _ Hdb Hh) as Hr.
    rewrite GetTopNBids_one, (BestBid_occupied b _ Hwf Hh). cbn zeta.
    destruct (Z.ltb_spec (HighestSetBit (bids_bitset_ b)) 0); [lia|].
    destruct (Z.geb_spec (HighestSetBit (bids_bitset_ b)) kArraySize); [lia|].
    reflexivity.
  - intros Hn h. apply Hgr.
    rewrite GetTopNBids_one, HighestSetBit_empty by assumption.
    reflexivity.
  - intros Hex h. apply Hgr.
    pose proof (LowestSetBit_is_lowest _ Hwa Hex) as Hl.
    pose proof (lowest_in_domain _ _ Hda Hl) as Hr.
    rewrite GetTopNAsks_one, (BestAsk_occupied b _ Hwf Hl). cbn zeta.
    destruct (Z.ltb_spec (LowestSetBit (asks_bitset_ b)) 0); [lia|].
    destruct (Z.geb_spec (LowestSetBit (asks_bitset_ b)) kArraySize); [lia|].
    reflexivity.
  - intros Hn h. apply Hgr.
    rewrite GetTopNAsks_one, LowestSetBit_empty by assumption.
    reflexivity.
Qed.

(** X20. A smaller request is a prefix of a larger one: for
    [0 <= n <= m], the list collected for [n] is the first [n] entries
    of the list collected for [m]; and for a count of [kMaxBookLevels]
    or more that list is the one collected for [kMaxBookLevels], every
    level whose bit is set.  Each call returns its list unless the
    free store [h] refuses its own reservation (of [m], [n] or
    [kMaxBookLevels] pairs), in which case it leaves by
    [std::bad_alloc]; so a large count can fail where a small one
    returns. *)
Theorem X20_top_n_prefixes (b : OrderBook) (n m : Z) :
  wf_book b -> 0 <= n <= m -> is_int32 m ->
  exists rb ra : list (Z * Z),
    rb = take (Z.to_nat m) (levels (bids_ b) (occupied_desc (bids_bitset_ b))) /\
    ra = take (Z.to_nat m) (levels (asks_ b) (occupied_asc (asks_bitset_ b))) /\
    (forall h : heap,
       GetTopNBids h m b = reserved h m rb /\
       GetTopNAsks h m b = reserved h m ra /\
       GetTopNBids h n b = reserved h n (take (Z.to_nat n) rb) /\
       GetTopNAsks h n b = reserved h n (take (Z.to_nat n) ra)) /\
    (kMaxBookLevels <= n ->
       take (Z.to_nat n) rb = rb /\ take (Z.to_nat n) ra = ra /\
       forall h : heap,
         GetTopNBids h kMaxBookLevels b = reserved h kMaxBookLevels rb /\
         GetTopNAsks h kMaxBookLevels b = reserved h kMaxBookLevels ra) /\
    (forall h : heap,
       h (element_size * n) = true -> h (element_size * m) = false -> 0 < m ->
       GetTopNBids h n b = Returns (take (Z.to_nat n) rb) /\
       GetTopNBids h m b = Throws bad_alloc).
Proof.
  intros Hwf Hnm Hm.
  assert (Hn : is_int32 n) by (unfold is_int32 in *; lia).
  eexists _, _.
  do 2 (split; [reflexivity|]).
  rewrite !take_take.
  replace (Z.to_nat n `min` Z.to_nat m)%nat with (Z.to_nat n) by lia.
  split; [|split].
  - intros h.
    split; [apply GetTopNBids_prefix; (assumption || lia)|].
    split; [apply GetTopNAsks_prefix; (assumption || lia)|].
    split; [apply GetTopNBids_prefix; (assumption || lia)|].
    apply GetTopNAsks_prefix; (assumption || lia).
  - intros Hbig. unfold kMaxBookLevels in Hbig.
    pose proof (length_occupied_desc (bids_bitset_ b)) as Hlb.
    pose proof (length_occupied_asc (asks_bitset_ b)) as Hla.
    assert (Hb : forall k, 100 <= k ->
              take (Z.to_nat k) (levels (bids_ b) (occupied_desc (bids_bitset_ b)))
              = levels (bids_ b) (occupied_desc (bids_bitset_ b))).
    { intros k Hk. apply take_ge. unfold levels. rewrite length_map. lia. }
    assert (Ha : forall k, 100 <= k ->
              take (Z.to_nat k) (levels (asks_ b) (occupied_asc (asks_bitset_ b)))
              = levels (asks_ b) (occupied_asc (asks_bitset_ b))).
    { intros k Hk. apply take_ge. unfold levels. rewrite length_map. lia. }
    rewrite (Hb n), (Hb m), (Ha n), (Ha m) by lia.
    do 2 (split; [reflexivity|]).
    intros h.
    split; [apply GetTopNBids_all | apply GetTopNAsks_all];
      first [assumption | reflexivity | apply is_int32_levels].
  - intros h Hgn Hrm Hpos.
    rewrite (GetTopNBids_prefix h b n), (GetTopNBids_prefix h b m)
      by (assumption || lia).
    rewrite reserved_granted by (right; exact Hgn).
    rewrite reserved_refused by assumption.
    split; reflexivity.
Qed.

(** ** Best prices after a delta *)

Lemma HighestSetBit_bound s :
  wf_bitset s -> bits_in_domain s -> -1 <= HighestSetBit s < kArraySize.
Proof.
  intros Hwf Hd. destruct (bitset_empty_or_bit s Hwf) as [Hn|Hex].
  - rewrite HighestSetBit_empty by assumption. unfold kArraySize, kMaxBookLevels. lia.
  - pose proof (highest_in_domain _ _ Hd (HighestSetBit_is_highest _ Hwf Hex)). lia.
Qed.

Lemma BestBid_after_SetBit a a' s s' p q :
  wf_bitset s -> bits_in_domain s -> 0 <= p < kArraySize ->
  BestBid {| bids_ := arr_set a p q; asks_ := a';
             bids_bitset_ := SetBit p s; asks_bitset_ := s' |}
  = (Z.max p (HighestSetBit s), arr_get (arr_set a p q) (Z.max p (HighestSetBit s))).
Proof.
  intros Hwf Hd Hp. pose proof (HighestSetBit_bound s Hwf Hd) as Hb.
  unfold BestBid. cbn [bids_ bids_bitset_].
  rewrite HighestSetBit_SetBit
    by (assumption || (unfold kArraySize, kMaxBookLevels in Hp; lia)).
  destruct (Z.geb_spec (Z.max p (HighestSetBit s)) 0); [|lia].
  destruct (Z.ltb_spec (Z.max p (HighestSetBit s)) kArraySize); [|lia].
  reflexivity.
Qed.

Lemma BestAsk_after_SetBit a a' s s' p q :
  wf_bitset s -> bits_in_domain s -> 0 <= p < kArraySize ->
  let l := if LowestSetBit s =? -1 then p else Z.min p (LowestSetBit s) in
  BestAsk {| bids_ := a'; asks_ := arr_set a p q;
             bids_bitset_ := s'; asks_bitset_ := SetBit p s |}
  = (l, arr_get (arr_set a p q) l).
Proof.
  intros Hwf Hd Hp l. unfold BestAsk. cbn [asks_ asks_bitset_].
  rewrite LowestSetBit_SetBit
    by (assumption || (unfold kArraySize, kMaxBookLevels in Hp; lia)).
  fold l.
  assert (Hl : 0 <= l < kArraySize).
  { subst l. destruct (Z.eqb_spec (LowestSetBit s) (-1)); [lia|].
    destruct (bitset_empty_or_bit s Hwf) as [Hn|Hex].
    - rewrite LowestSetBit_empty in * by assumption. lia.
    - pose proof (lowest_in_domain _ _ Hd (LowestSetBit_is_lowest _ Hwf Hex)). lia. }
  destruct (Z.geb_spec l 0); [|lia].
  destruct (Z.ltb_spec l kArraySize); [|lia].
  reflexivity.
Qed.

(** X21. After a delta on side "yes" that leaves a non-zero quantity
    [q] at an in-range price [p]: when [p] is at least the price
    [BestBid] returned before, [BestBid] now returns [(p, q)]; when [p]
    is below it, [BestBid] returns what it returned before.  On side
    "no", [BestAsk] returns [(p, q)] when the ask side had no presence
    bit set or [p] is at most the price [BestAsk] returned before, and
    what it returned before when [p] is above that price. *)
Theorem X21_best_price_after_delta (b : OrderBook) (msg : DeltaMessage.t) :
  wf_book b -> wf_delta msg -> DeltaMessage.price msg < kMaxBookLevels ->
  let p := DeltaMessage.price msg in
  (DeltaMessage.side msg = kYes ->
   let q := wrap32 (arr_get (bids_ b) p + DeltaMessage.delta msg) in
   q <> 0 ->
   ((BestBid b).1 <= p -> BestBid (ApplyDelta msg b) = (p, q)) /\
   (p < (BestBid b).1 -> BestBid (ApplyDelta msg b) = BestBid b)) /\
  (DeltaMessage.side msg = kNo ->
   let q := wrap32 (arr_get (asks_ b) p + DeltaMessage.delta msg) in
   q <> 0 ->
   (no_bit_set (asks_bitset_ b) \/ p <= (BestAsk b).1 ->
    BestAsk (ApplyDelta msg b) = (p, q)) /\
   ((exists r, TestBit (asks_bitset_ b) r = true) /\ (BestAsk b).1 < p ->
    BestAsk (ApplyDelta msg b) = BestAsk b)).
Proof.
  intros Hwf [Hp0 _] Hlt p. pose proof Hwf as [Hab Haa Hwb Hwa Hdb Hda].
  unfold is_uint32 in Hp0.
  assert (Hr : 0 <= p < kArraySize) by (subst p; unfold kArraySize; lia).
  split; intros Hside q Hq.
  - rewrite (ApplyDelta_yes b msg Hside Hlt). fold p q.
    destruct (Z.eqb_spec q 0); [contradiction|].
    rewrite BestBid_after_SetBit by assumption.
    destruct (bitset_empty_or_bit _ Hwb) as [Hn|Hex].
    + rewrite (BestBid_empty_side b Hwb Hn). cbn [fst].
      rewrite HighestSetBit_empty, Z.max_l by (assumption || lia).
      rewrite arr_get_set_eq by (lia || apply wf_array_index; assumption).
      split; [reflexivity|lia].
    + pose proof (HighestSetBit_is_highest _ Hwb Hex) as Hh.
      pose proof (highest_in_domain _ _ Hdb Hh) as Hhr.
      rewrite (BestBid_occupied b _ Hwf Hh). cbn [fst].
      split; intros Hcmp.
      * rewrite Z.max_l by lia.
        rewrite arr_get_set_eq by (lia || apply wf_array_index; assumption).
        reflexivity.
      * rewrite Z.max_r by lia. rewrite arr_get_set_ne by lia. reflexivity.
  - rewrite (ApplyDelta_no b msg Hside Hlt). fold p q.
    destruct (Z.eqb_spec q 0); [contradiction|].
    rewrite BestAsk_after_SetBit by assumption. cbn zeta.
    destruct (bitset_empty_or_bit _ Hwa) as [Hn|Hex].
    + rewrite (LowestSetBit_empty _ Hwa Hn), Z.eqb_refl.
      rewrite arr_get_set_eq by (lia || apply wf_array_index; assumption).
      split; [reflexivity|].
      intros [(r & Hset) _]. rewrite Hn in Hset. discriminate.
    + pose proof (LowestSetBit_is_lowest _ Hwa Hex) as Hl.
      pose proof (lowest_in_domain _ _ Hda Hl) as Hlr.
      rewrite (BestAsk_occupied b _ Hwf Hl). cbn [fst].
      destruct (Z.eqb_spec (LowestSetBit (asks_bitset_ b)) (-1)); [lia|].
      split.
      * intros [Hn|Hcmp];
          [destruct Hex as (r & Hset); rewrite Hn in Hset; discriminate|].
        rewrite Z.min_l by lia.
        rewrite arr_get_set_eq by (lia || apply wf_array_index; assumption).
        reflexivity.
      * intros [_ Hcmp]. rewrite Z.min_r by lia.
        rewrite arr_get_set_ne by lia. reflexivity.
Qed.

(** ** Top-N results after a level is emptied *)

Lemma occupied_asc_ClearBit s p :
  wf_bitset s -> 0 <= p < 128 ->
  occupied_asc (ClearBit p s) = filter (fun q => q <> p) (occupied_asc s).
Proof.
  intros Hwf Hp. unfold occupied_asc. rewrite list_filter_filter.
  apply list_filter_iff. intros q. rewrite TestBit_ClearBit by assumption.
  rewrite andb_true_iff, negb_true_iff, Z.eqb_neq. tauto.
Qed.

Lemma occupied_desc_ClearBit s p :
  wf_bitset s -> 0 <= p < 128 ->
  occupied_desc (ClearBit p s) = filter (fun q => q <> p) (occupied_desc s).
Proof.
  intros Hwf Hp. unfold occupied_desc.
  rewrite occupied_asc_ClearBit by assumption. symmetry. apply filter_reverse.
Qed.

Lemma levels_filter a ps p :
  filter (fun pq : Z * Z => pq.1 <> p) (levels a ps)
  = levels a (filter (fun q => q <> p) ps).
Proof.
  unfold levels. induction ps as [|x ps IH]; [reflexivity|].
  cbn [map]. rewrite !filter_cons. cbn [fst].
  destruct (decide (x <> p)); cbn [map]; rewrite IH; reflexivity.
Qed.

Lemma levels_arr_set a ps p v :
  p ∉ ps -> (forall x, x ∈ ps -> 0 <= x) -> 0 <= p ->
  levels (arr_set a p v) ps = levels a ps.
Proof.
  intros Hnot Hnn Hp. unfold levels. apply map_ext_in. intros x Hx.
  apply list_elem_of_In in Hx.
  rewrite arr_get_set_ne; [reflexivity|exact Hp|apply Hnn; exact Hx|].
  intros ->. contradiction.
Qed.

Lemma levels_after_clear a ps p v :
  (forall x, x ∈ ps -> 0 <= x) -> 0 <= p ->
  levels (arr_set a p v) (filter (fun q => q <> p) ps)
  = filter (fun pq : Z * Z => pq.1 <> p) (levels a ps).
Proof.
  intros Hnn Hp. rewrite levels_filter. apply levels_arr_set; [| |exact Hp].
  - intros Hin. apply list_elem_of_filter in Hin as [Hne _]. contradiction.
  - intros x Hx. apply list_elem_of_filter in Hx as [_ Hx]. auto.
Qed.

Lemma occupied_desc_nonneg s x : x ∈ occupied_desc s -> 0 <= x.
Proof. intros Hx. apply elem_of_occupied_desc in Hx. lia. Qed.

Lemma occupied_asc_nonneg s x : x ∈ occupied_asc s -> 0 <= x.
Proof. intros Hx. apply elem_of_occupied_asc in Hx. lia. Qed.

Lemma top_bids_after_clear h b p v a' s' n :
  wf_book b -> 0 <= p < kArraySize -> is_uint32 v -> 0 <= n -> is_int32 n ->
  GetTopNBids h n {| bids_ := arr_set (bids_ b) p v; asks_ := a';
                     bids_bitset_ := ClearBit p (bids_bitset_ b);
                     asks_bitset_ := s' |}
  = reserved h n (take (Z.to_nat n)
      (filter (fun pq : Z * Z => pq.1 <> p)
         (levels (bids_ b) (occupied_desc (bids_bitset_ b))))).
Proof.
  intros Hwf Hp Hv Hn Hint. destruct Hwf.
  assert (Hp128 : 0 <= p < 128) by (unfold kArraySize, kMaxBookLevels in Hp; lia).
  rewrite GetTopNBids_loop by assumption.
  cbn [bids_ bids_bitset_]. f_equal.
  rewrite <- levels_after_clear with (v := v)
    by first [lia | intros x Hx; apply (occupied_desc_nonneg _ _ Hx)].
  rewrite <- occupied_desc_ClearBit by assumption.
  unfold occupied_desc, occupied_asc.
  replace kArraySize with (Z.of_nat (Z.to_nat kArraySize)) at 1 by reflexivity.
  apply top_bids_loop_scan; [apply wf_ClearBit; assumption|reflexivity|].
  intros q Hq. apply bits_in_domain_ClearBit; (assumption || lia).
Qed.

Lemma top_asks_after_clear h b p v a' s' n :
  wf_book b -> 0 <= p < kArraySize -> is_uint32 v -> 0 <= n -> is_int32 n ->
  GetTopNAsks h n {| bids_ := a'; asks_ := arr_set (asks_ b) p v;
                     bids_bitset_ := s';
                     asks_bitset_ := ClearBit p (asks_bitset_ b) |}
  = reserved h n (take (Z.to_nat n)
      (filter (fun pq : Z * Z => pq.1 <> p)
         (levels (asks_ b) (occupied_asc (asks_bitset_ b))))).
Proof.
  intros Hwf Hp Hv Hn Hint. destruct Hwf.
  assert (Hp128 : 0 <= p < 128) by (unfold kArraySize, kMaxBookLevels in Hp; lia).
  rewrite GetTopNAsks_loop by assumption.
  cbn [asks_ asks_bitset_]. f_equal.
  rewrite <- levels_after_clear with (v := v)
    by first [lia | intros x Hx; apply (occupied_asc_nonneg _ _ Hx)].
  rewrite <- occupied_asc_ClearBit by assumption.
  unfold occupied_asc.
  replace kArraySize with (Z.of_nat (Z.to_nat kArraySize)) at 1 by reflexivity.
  apply top_asks_loop_scan; try reflexivity.
  - apply wf_ClearBit; assumption.
  - apply bits_in_domain_ClearBit; (assumption || lia).
  - intros q Hq. apply TestBit_outside. lia.
Qed.

(** X22. After a delta that brings an in-range level to exactly zero,
    the top-N query of that side, for any count [n >= 0], collects
    the first [n] entries of the list of all occupied levels of the
    book before -- what the full query collected then -- with the
    entry of that price taken out: the other levels keep their order
    and their quantities.  The call returns that list unless the free
    store [h] refuses the reservation of [n] pairs, in which case it
    leaves by [std::bad_alloc]. *)
Theorem X22_emptied_level_leaves_top_n
    (b : OrderBook) (msg : DeltaMessage.t) (n : Z) :
  wf_book b -> wf_delta msg -> DeltaMessage.price msg < kMaxBookLevels ->
  0 <= n -> is_int32 n ->
  let p := DeltaMessage.price msg in
  (DeltaMessage.side msg = kYes ->
   wrap32 (arr_get (bids_ b) p + DeltaMessage.delta msg) = 0 ->
   exists all,
     all = levels (bids_ b) (occupied_desc (bids_bitset_ b)) /\
     forall h : heap,
       GetTopNBids h kMaxBookLevels b = reserved h kMaxBookLevels all /\
       GetTopNBids h n (ApplyDelta msg b)
       = reserved h n
           (take (Z.to_nat n) (filter (fun pq : Z * Z => pq.1 <> p) all))) /\
  (DeltaMessage.side msg = kNo ->
   wrap32 (arr_get (asks_ b) p + DeltaMessage.delta msg) = 0 ->
   exists all,
     all = levels (asks_ b) (occupied_asc (asks_bitset_ b)) /\
     forall h : heap,
       GetTopNAsks h kMaxBookLevels b = reserved h kMaxBookLevels all /\
       GetTopNAsks h n (ApplyDelta msg b)
       = reserved h n
           (take (Z.to_nat n) (filter (fun pq : Z * Z => pq.1 <> p) all))).
Proof.
  intros Hwf [Hp0 _] Hlt Hn Hint p. unfold is_uint32 in Hp0.
  assert (Hr : 0 <= p < kArraySize) by (subst p; unfold kArraySize; lia).
  assert (H0 : is_uint32 0) by (unfold is_uint32, uint32_mod; lia).
  split; intros Hside Hzero; eexists; (split; [reflexivity|]); intros h.
  - split; [apply GetTopNBids_all; auto using is_int32_levels; reflexivity|].
    rewrite (ApplyDelta_yes b msg Hside Hlt). fold p. rewrite Hzero. cbn [Z.eqb].
    apply top_bids_after_clear; assumption.
  - split; [apply GetTopNAsks_all; auto using is_int32_levels; reflexivity|].
    rewrite (ApplyDelta_no b msg Hside Hlt). fold p. rewrite Hzero. cbn [Z.eqb].
    apply top_asks_after_clear; assumption.
Qed.

(** X23. After a trade that consumes an in-range level entirely (the
    stored quantity minus the count is zero in 32-bit arithmetic), the
    top-N query of the consumed side, for any count [n >= 0], collects
    the first [n] entries of the list of all occupied levels of the
    book before -- what the full query collected then -- with the
    entry of that price taken out.  The call returns that list unless
    the free store [h] refuses the reservation of [n] pairs, in which
    case it leaves by [std::bad_alloc]. *)
Theorem X23_filled_level_leaves_top_n
    (b : OrderBook) (trade : TradeMessage.t) (n : Z) :
  wf_book b -> wf_trade trade -> 0 < TradeMessage.count trade ->
  0 <= n -> is_int32 n ->
  (TradeMessage.taker_side trade = kYes ->
   TradeMessage.no_price trade < kMaxBookLevels ->
   wrap32 (arr_get (asks_ b) (TradeMessage.no_price trade)
           - TradeMessage.count trade) = 0 ->
   exists all,
     all = levels (asks_ b) (occupied_asc (asks_bitset_ b)) /\
     forall h : heap,
       GetTopNAsks h kMaxBookLevels b = reserved h kMaxBookLevels all /\
       GetTopNAsks h n (ApplyTrade trade b)
       = reserved h n
           (take (Z.to_nat n)
              (filter (fun pq : Z * Z => pq.1 <> TradeMessage.no_price trade)
                 all))) /\
  (TradeMessage.taker_side trade = kNo ->
   TradeMessage.yes_price trade < kMaxBookLevels ->
   wrap32 (arr_get (bids_ b) (TradeMessage.yes_price trade)
           - TradeMessage.count trade) = 0 ->
   exists all,
     all = levels (bids_ b) (occupied_desc (bids_bitset_ b)) /\
     forall h : heap,
       GetTopNBids h kMaxBookLevels b = reserved h kMaxBookLevels all /\
       GetTopNBids h n (ApplyTrade trade b)
       = reserved h n
           (take (Z.to_nat n)
              (filter (fun pq : Z * Z => pq.1 <> TradeMessage.yes_price trade)
                 all))).
Proof.
  intros Hwf (Hy & Hno & _) Hc Hn Hint. unfold is_uint32 in Hy, Hno.
  assert (H0 : is_uint32 0) by (unfold is_uint32, uint32_mod; lia).
  split; intros Hside Hlt Hzero; eexists; (split; [reflexivity|]); intros h.
  - split; [apply GetTopNAsks_all; auto using is_int32_levels; reflexivity|].
    rewrite (ApplyTrade_yes b trade Hc Hside Hlt). rewrite Hzero. cbn [Z.eqb].
    apply top_asks_after_clear; try assumption. unfold kArraySize. lia.
  - split; [apply GetTopNBids_all; auto using is_int32_levels; reflexivity|].
    rewrite (ApplyTrade_no b trade Hc Hside Hlt). rewrite Hzero. cbn [Z.eqb].
    apply top_bids_after_clear; try assumption. unfold kArraySize. lia.
Qed.

(** ** Top-N queries for a negative count *)

(** X24. For every negative count both top-N queries leave by
    [std::length_error], whatever the book holds and whatever the
    state [h] of the free store: the count reaches [reserve] as a
    [size_type] of at least 2^64 - 2^31, above [max_size()], and is
    refused before anything is allocated. *)
Theorem X24_negative_count_throws (h : heap) (b : OrderBook) (n : Z) :
  n < 0 -> is_int32 n ->
  2 ^ 64 - 2 ^ 31 <= to_size_t n /\ vector_max_size < to_size_t n /\
  GetTopNBids h n b = Throws length_error /\
  GetTopNAsks h n b = Throws length_error.
Proof.
  intros Hn Hint.
  pose proof (to_size_t_negative n Hn Hint) as Heq.
  pose proof max_size_value as Hmax.
  pose proof Hint as [Hlo _].
  split; [lia|]. split; [lia|].
  apply GetTopN_negative; assumption.
Qed.

(** ** Instances of the further theorems *)

Lemma wf_top_bit_only : wf_bitset top_bit_only.
Proof. apply wf_bitset_check; reflexivity. Qed.

Lemma wf_two_sided_snapshot : wf_snapshot two_sided_snapshot.
Proof. split; apply wf_levels_check; reflexivity. Qed.

Lemma reachable_two_sided_book : reachable two_sided_book.
Proof. apply reach_snapshot; [apply wf_two_sided_snapshot | apply reach_empty]. Qed.

Lemma wf_delta_small p d s :
  (0 <=? p) && (p <? uint32_mod) && (- 2 ^ 31 <=? d) && (d <? 2 ^ 31) = true ->
  wf_delta {| DeltaMessage.price := p; DeltaMessage.delta := d;
              DeltaMessage.side := s |}.
Proof.
  intros H. repeat (apply andb_true_iff in H as [H ?]).
  unfold wf_delta, is_uint32, is_int32. cbn.
  repeat split; (apply Z.leb_le || apply Z.ltb_lt); assumption.
Qed.

Lemma NoDup_two_sided_bids : NoDup [70; 65].
Proof.
  apply NoDup_cons. split; [|apply NoDup_singleton].
  intros H. apply list_elem_of_singleton in H. discriminate H.
Qed.

Lemma X1_SetBit_sets_one_bit_witness :
  wf_bitset empty_bitset /\ 0 <= 127 < kMaxBitPosition /\
  TestBit (SetBit 127 empty_bitset) 127 = true /\
  (forall q, q <> 127 ->
     TestBit (SetBit 127 empty_bitset) q = TestBit empty_bitset q) /\
  wf_bitset (SetBit 127 empty_bitset).
Proof.
  assert (Hr : 0 <= 127 < kMaxBitPosition) by (unfold kMaxBitPosition; lia).
  split; [exact wf_empty_bitset|]. split; [exact Hr|].
  exact (X1_SetBit_sets_one_bit empty_bitset 127 wf_empty_bitset Hr).
Defined.

Lemma X2_ClearBit_clears_one_bit_witness :
  wf_bitset top_bit_only /\ 0 <= 127 < kMaxBitPosition /\
  TestBit (ClearBit 127 top_bit_only) 127 = false /\
  (forall q, q <> 127 ->
     TestBit (ClearBit 127 top_bit_only) q = TestBit top_bit_only q) /\
  wf_bitset (ClearBit 127 top_bit_only).
Proof.
  assert (Hr : 0 <= 127 < kMaxBitPosition) by (unfold kMaxBitPosition; lia).
  split; [exact wf_top_bit_only|]. split; [exact Hr|].
  exact (X2_ClearBit_clears_one_bit top_bit_only 127 wf_top_bit_only Hr).
Defined.

Lemma X3_set_clear_round_trip_witness :
  wf_bitset empty_bitset /\ wf_bitset top_bit_only /\
  ClearBit 5 (SetBit 5 empty_bitset) = empty_bitset /\
  SetBit 127 (ClearBit 127 top_bit_only) = top_bit_only.
Proof.
  split; [exact wf_empty_bitset|]. split; [exact wf_top_bit_only|].
  destruct (X3_set_clear_round_trip empty_bitset 5 wf_empty_bitset)
    as (Hclear & _); [lia|].
  destruct (X3_set_clear_round_trip top_bit_only 127 wf_top_bit_only)
    as (_ & Hset & _); [lia|].
  split; [apply Hclear | apply Hset]; reflexivity.
Defined.

Lemma X4_TestBit_determines_words_witness :
  wf_bitset top_bit_only /\
  wf_bitset (ClearBit 5 (SetBit 5 top_bit_only)) /\
  ClearBit 5 (SetBit 5 top_bit_only) = top_bit_only.
Proof.
  assert (H5 : wf_bitset (ClearBit 5 (SetBit 5 top_bit_only)))
    by (apply wf_bitset_check; reflexivity).
  split; [exact wf_top_bit_only|]. split; [exact H5|].
  apply (X4_TestBit_determines_words _ _ H5 wf_top_bit_only).
  intros p Hp. reflexivity.
Defined.

Lemma X5_extremal_results_witness :
  wf_bitset top_bit_only /\
  0 <= LowestSetBit top_bit_only <= HighestSetBit top_bit_only /\
  HighestSetBit top_bit_only < kMaxBitPosition /\
  TestBit top_bit_only (LowestSetBit top_bit_only) = true /\
  TestBit top_bit_only (HighestSetBit top_bit_only) = true.
Proof.
  split; [exact wf_top_bit_only|].
  destruct (X5_extremal_results top_bit_only wf_top_bit_only) as (_ & _ & Hsome).
  apply Hsome. vm_compute. discriminate.
Defined.

Lemma X6_extremal_after_SetBit_witness :
  wf_bitset top_bit_only /\ 0 <= 3 < kMaxBitPosition /\
  HighestSetBit (SetBit 3 top_bit_only) = Z.max 3 (HighestSetBit top_bit_only) /\
  LowestSetBit (SetBit 3 top_bit_only)
  = if LowestSetBit top_bit_only =? -1 then 3
    else Z.min 3 (LowestSetBit top_bit_only).
Proof.
  assert (Hr : 0 <= 3 < kMaxBitPosition) by (unfold kMaxBitPosition; lia).
  split; [exact wf_top_bit_only|]. split; [exact Hr|].
  exact (X6_extremal_after_SetBit top_bit_only 3 wf_top_bit_only Hr).
Defined.

Lemma X7_delta_adjusts_one_level_witness :
  wf_book two_sided_book /\ wf_delta add_three /\
  DeltaMessage.price add_three < kMaxBookLevels /\
  arr_get (bids_ (ApplyDelta add_three two_sided_book)) 65 = 5 + 3 /\
  TestBit (bids_bitset_ (ApplyDelta add_three two_sided_book)) 65 = true /\
  asks_ (ApplyDelta add_three two_sided_book) = asks_ two_sided_book.
Proof.
  assert (Hd : wf_delta add_three) by (apply wf_delta_small; reflexivity).
  assert (Hp : DeltaMessage.price add_three < kMaxBookLevels)
    by (unfold kMaxBookLevels; cbn; lia).
  split; [exact wf_two_sided_book|]. split; [exact Hd|]. split; [exact Hp|].
  destruct (X7_delta_adjusts_one_level two_sided_book add_three
              wf_two_sided_book Hd Hp) as [Hyes _].
  destruct (Hyes eq_refl) as ((_ & Hexact & _ & _ & Hbit) & Hasks & _).
  assert (Hq : arr_get (bids_ (ApplyDelta add_three two_sided_book)) 65 = 5 + 3).
  { apply Hexact. vm_compute. split; [discriminate|reflexivity]. }
  split; [exact Hq|]. split; [|exact Hasks].
  apply Hbit.
  change (arr_get (bids_ (ApplyDelta add_three two_sided_book)) 65 <> 0).
  rewrite Hq. discriminate.
Defined.

Lemma X8_mutators_and_the_invariant_witness :
  wf_book two_sided_book /\ book_inv two_sided_book /\
  book_inv (ApplyDelta add_three two_sided_book) /\
  book_inv (ApplyTrade full_fill_trade two_sided_book) /\
  book_inv (ApplySnapshot two_sided_snapshot two_sided_book).
Proof.
  split; [exact wf_two_sided_book|]. split; [exact book_inv_two_sided_book|].
  destruct (X8_mutators_and_the_invariant two_sided_book add_three
              full_fill_trade two_sided_snapshot
              wf_two_sided_book book_inv_two_sided_book)
    as (Hdelta & Htrade & Hsnap).
  split; [apply Hdelta, wf_delta_small; reflexivity|]. split.
  - apply Htrade; [exact wf_full_fill_trade| |discriminate].
    intros _. vm_compute. discriminate.
  - apply Hsnap; [exact wf_two_sided_snapshot| |].
    + exact NoDup_two_sided_bids.
    + apply NoDup_singleton.
Defined.

Lemma X9_deltas_on_one_level_add_up_witness :
  wf_book two_sided_book /\ wf_delta add_three /\ wf_delta add_four /\
  ApplyDelta add_four (ApplyDelta add_three two_sided_book)
  = ApplyDelta {| DeltaMessage.price := 65; DeltaMessage.delta := 3 + 4;
                  DeltaMessage.side := kYes |} two_sided_book.
Proof.
  assert (H3 : wf_delta add_three) by (apply wf_delta_small; reflexivity).
  assert (H4 : wf_delta add_four) by (apply wf_delta_small; reflexivity).
  split; [exact wf_two_sided_book|]. split; [exact H3|]. split; [exact H4|].
  apply (X9_deltas_on_one_level_add_up two_sided_book add_three add_four
           wf_two_sided_book H3 H4); try reflexivity.
  unfold is_int32. cbn. lia.
Defined.

Lemma X10_delta_then_opposite_delta_witness :
  wf_book two_sided_book /\ book_inv two_sided_book /\ wf_delta add_three /\
  ApplyDelta remove_three (ApplyDelta add_three two_sided_book) = two_sided_book.
Proof.
  assert (H3 : wf_delta add_three) by (apply wf_delta_small; reflexivity).
  split; [exact wf_two_sided_book|]. split; [exact book_inv_two_sided_book|].
  split; [exact H3|].
  apply (X10_delta_then_opposite_delta two_sided_book add_three
           wf_two_sided_book book_inv_two_sided_book H3).
  unfold is_int32. cbn. lia.
Defined.

Lemma X11_deltas_commute_witness :
  wf_book two_sided_book /\ wf_delta add_three /\ wf_delta improve_bid /\
  ApplyDelta improve_bid (ApplyDelta add_three two_sided_book)
  = ApplyDelta add_three (ApplyDelta improve_bid two_sided_book).
Proof.
  assert (H3 : wf_delta add_three) by (apply wf_delta_small; reflexivity).
  assert (H8 : wf_delta improve_bid) by (apply wf_delta_small; reflexivity).
  split; [exact wf_two_sided_book|]. split; [exact H3|]. split; [exact H8|].
  apply (X11_deltas_commute two_sided_book add_three improve_bid
           wf_two_sided_book H3 H8).
  left. cbn. lia.
Defined.

Lemma X12_trade_is_a_negative_delta_witness :
  wf_book two_sided_book /\ wf_trade full_fill_trade /\
  0 < TradeMessage.count full_fill_trade /\
  TestBit (asks_bitset_ two_sided_book) 40 = true /\
  ApplyTrade full_fill_trade two_sided_book
  = ApplyDelta remove_eight_asks two_sided_book.
Proof.
  assert (Hc : 0 < TradeMessage.count full_fill_trade) by (cbn; lia).
  split; [exact wf_two_sided_book|]. split; [exact wf_full_fill_trade|].
  split; [exact Hc|]. split; [reflexivity|].
  destruct (X12_trade_is_a_negative_delta two_sided_book full_fill_trade
              wf_two_sided_book wf_full_fill_trade Hc) as [Hyes _].
  apply Hyes; [reflexivity| |reflexivity].
  unfold kMaxBookLevels. cbn. lia.
Defined.

Lemma X13_delta_wraps_around_witness :
  wf_book two_sided_book /\ wf_delta overdraw_bid /\
  DeltaMessage.price overdraw_bid < kMaxBookLevels /\
  arr_get (bids_ (ApplyDelta overdraw_bid two_sided_book)) 65 = 5 + -6 + 2 ^ 32 /\
  TestBit (bids_bitset_ (ApplyDelta overdraw_bid two_sided_book)) 65 = true.
Proof.
  assert (Hd : wf_delta overdraw_bid) by (apply wf_delta_small; reflexivity).
  assert (Hp : DeltaMessage.price overdraw_bid < kMaxBookLevels)
    by (unfold kMaxBookLevels; cbn; lia).
  split; [exact wf_two_sided_book|]. split; [exact Hd|]. split; [exact Hp|].
  destruct (X13_delta_wraps_around two_sided_book overdraw_bid
              wf_two_sided_book Hd Hp) as [Hyes _].
  destruct (Hyes eq_refl) as [Hunder _].
  destruct Hunder as (Hq & _ & Hbit); [vm_compute; reflexivity|].
  split; [exact Hq|exact Hbit].
Defined.

Lemma X14_reachable_books_stay_in_range_witness :
  reachable two_sided_book /\
  length (bids_ two_sided_book) = 100%nat /\
  0 <= (BestBid two_sided_book).1 < kMaxBookLevels /\
  0 <= (BestAsk two_sided_book).1 < kMaxBookLevels.
Proof.
  split; [exact reachable_two_sided_book|].
  destruct (X14_reachable_books_stay_in_range two_sided_book
              reachable_two_sided_book)
    as (Hlen & _ & _ & _ & [Hbid _] & [Hask _]).
  split; [exact Hlen|]. split; [exact Hbid|exact Hask].
Defined.

Lemma X15_snapshot_stores_listed_levels_witness :
  wf_snapshot two_sided_snapshot /\ 0 <= 70 < kMaxBookLevels /\
  wf_book (ApplySnapshot two_sided_snapshot wrapped_book) /\
  arr_get (bids_ (ApplySnapshot two_sided_snapshot wrapped_book)) 70 = 10 /\
  arr_get (asks_ (ApplySnapshot two_sided_snapshot wrapped_book)) 70 = 0 /\
  TestBit (asks_bitset_ (ApplySnapshot two_sided_snapshot wrapped_book)) 70 = false.
Proof.
  assert (Hp : 0 <= 70 < kMaxBookLevels) by (unfold kMaxBookLevels; lia).
  split; [exact wf_two_sided_snapshot|]. split; [exact Hp|].
  destruct (X15_snapshot_stores_listed_levels two_sided_snapshot wrapped_book 70
              wf_two_sided_snapshot Hp)
    as (Hwf & Hbg & _ & _ & _ & _ & Hnone).
  split; [exact Hwf|]. split; [exact Hbg|].
  apply Hnone. intros q Hin.
  apply list_elem_of_singleton in Hin. discriminate Hin.
Defined.

Lemma X16_snapshot_reads_counted_entries_witness :
  ApplySnapshot two_sided_snapshot wrapped_book
  = ApplySnapshot two_sided_snapshot_padded empty_book /\
  ApplySnapshot (snapshot_of [] []) two_sided_book = empty_book.
Proof.
  split.
  - destruct (X16_snapshot_reads_counted_entries two_sided_snapshot
                two_sided_snapshot_padded wrapped_book empty_book) as [Hsame _].
    apply Hsame; try reflexivity.
    + intros i Hi. change (i < 2)%nat in Hi.
      destruct i as [|[|i]]; [split; reflexivity | split; reflexivity | lia].
    + intros i Hi. change (i < 1)%nat in Hi.
      destruct i as [|i]; [split; reflexivity | lia].
  - destruct (X16_snapshot_reads_counted_entries (snapshot_of [] [])
                two_sided_snapshot two_sided_book empty_book) as [_ Hnone].
    apply Hnone; cbn; lia.
Defined.

Lemma X17_top_n_for_nonnegative_count_witness :
  (wf_book two_sided_book /\ 0 <= 1 /\ is_int32 1 /\
   exists rb ra : list Z,
     GetTopNBids small_heap 1 two_sided_book
     = Returns (levels (bids_ two_sided_book) rb) /\
     GetTopNAsks small_heap 1 two_sided_book
     = Returns (levels (asks_ two_sided_book) ra) /\
     StronglySorted Z.gt rb /\ StronglySorted Z.lt ra /\
     length rb = 1%nat /\ length ra = 1%nat) /\
  (0 <= 2 ^ 31 - 1 /\ is_int32 (2 ^ 31 - 1) /\
   GetTopNBids small_heap (2 ^ 31 - 1) two_sided_book = Throws bad_alloc /\
   GetTopNAsks small_heap (2 ^ 31 - 1) two_sided_book = Throws bad_alloc).
Proof.
  assert (H1 : is_int32 1) by (unfold is_int32; lia).
  assert (H0 : 0 <= 1) by lia.
  assert (Hm : is_int32 (2 ^ 31 - 1)) by (unfold is_int32; lia).
  assert (Hm0 : 0 <= 2 ^ 31 - 1) by lia.
  split.
  - split; [exact wf_two_sided_book|]. split; [exact H0|]. split; [exact H1|].
    destruct (X17_top_n_for_nonnegative_count two_sided_book 1
                wf_two_sided_book H0 H1)
      as (rb & ra & _ & _ & Hg & _ & Hsb & Hsa & Hlb & Hla & _).
    destruct (Hg small_heap (or_intror eq_refl)) as [Hb Ha].
    exists rb, ra. repeat split; assumption.
  - split; [exact Hm0|]. split; [exact Hm|].
    destruct (X17_top_n_for_nonnegative_count two_sided_book (2 ^ 31 - 1)
                wf_two_sided_book Hm0 Hm)
      as (rb & ra & _ & _ & _ & Hr & _).
    apply (Hr small_heap); [lia|reflexivity].
Defined.

Lemma X18_snapshot_then_top_n_witness :
  wf_snapshot two_sided_snapshot /\
  exists rb ra : list (Z * Z),
    GetTopNBids small_heap kMaxBookLevels
      (ApplySnapshot two_sided_snapshot wrapped_book)
    = Returns rb /\
    GetTopNAsks small_heap kMaxBookLevels
      (ApplySnapshot two_sided_snapshot wrapped_book)
    = Returns ra /\
    (forall p q, (p, q) ∈ rb <->
       (p, q) ∈ [(70, 10); (65, 5)] /\ p < kMaxBookLevels /\ 0 < q) /\
    (forall p q, (p, q) ∈ ra <->
       (p, q) ∈ [(40, 8)] /\ p < kMaxBookLevels /\ 0 < q).
Proof.
  split; [exact wf_two_sided_snapshot|].
  destruct (X18_snapshot_then_top_n two_sided_snapshot wrapped_book
              wf_two_sided_snapshot NoDup_two_sided_bids (NoDup_singleton 40))
    as (rb & ra & _ & _ & Hg & Hmb & Hma & _).
  destruct (Hg small_heap eq_refl) as [Hb Ha].
  exists rb, ra. split; [exact Hb|]. split; [exact Ha|].
  split; [exact Hmb|exact Hma].
Defined.

Lemma X19_top_one_is_best_witness :
  wf_book two_sided_book /\
  GetTopNBids small_heap 1 two_sided_book = Returns [BestBid two_sided_book] /\
  GetTopNAsks small_heap 1 two_sided_book = Returns [BestAsk two_sided_book] /\
  GetTopNBids small_heap 1 empty_book = Returns [] /\
  GetTopNAsks small_heap 1 empty_book = Returns [].
Proof.
  split; [exact wf_two_sided_book|].
  destruct (X19_top_one_is_best two_sided_book wf_two_sided_book)
    as (Hbid & _ & Hask & _).
  destruct (X19_top_one_is_best empty_book wf_empty_book)
    as (_ & Hnobid & _ & Hnoask).
  split; [apply (Hbid (ex_intro _ 70 eq_refl) small_heap); reflexivity|].
  split; [apply (Hask (ex_intro _ 40 eq_refl) small_heap); reflexivity|].
  split; [apply (Hnobid (no_bit_set_empty) small_heap); reflexivity
         |apply (Hnoask (no_bit_set_empty) small_heap); reflexivity].
Defined.

Lemma X20_top_n_prefixes_witness :
  wf_book two_sided_book /\ 0 <= 1 <= 2 /\ is_int32 2 /\
  exists rb ra : list (Z * Z),
    GetTopNBids small_heap 2 two_sided_book = Returns rb /\
    GetTopNAsks small_heap 2 two_sided_book = Returns ra /\
    GetTopNBids small_heap 1 two_sided_book = Returns (take 1 rb) /\
    GetTopNAsks small_heap 1 two_sided_book = Returns (take 1 ra).
Proof.
  assert (H2 : is_int32 2) by (unfold is_int32; lia).
  assert (H12 : 0 <= 1 <= 2) by lia.
  split; [exact wf_two_sided_book|]. split; [exact H12|]. split; [exact H2|].
  destruct (X20_top_n_prefixes two_sided_book 1 2 wf_two_sided_book H12 H2)
    as (rb & ra & _ & _ & Hall & _).
  exists rb, ra. exact (Hall small_heap).
Defined.

Lemma X21_best_price_after_delta_witness :
  wf_book two_sided_book /\ wf_delta improve_bid /\
  DeltaMessage.price improve_bid < kMaxBookLevels /\
  BestBid two_sided_book = (70, 10) /\
  BestBid (ApplyDelta improve_bid two_sided_book) = (80, 2) /\
  BestBid (ApplyDelta add_three two_sided_book) = BestBid two_sided_book.
Proof.
  assert (H8 : wf_delta improve_bid) by (apply wf_delta_small; reflexivity).
  assert (H3 : wf_delta add_three) by (apply wf_delta_small; reflexivity).
  assert (Hp8 : DeltaMessage.price improve_bid < kMaxBookLevels)
    by (unfold kMaxBookLevels; cbn; lia).
  assert (Hp3 : DeltaMessage.price add_three < kMaxBookLevels)
    by (unfold kMaxBookLevels; cbn; lia).
  split; [exact wf_two_sided_book|]. split; [exact H8|]. split; [exact Hp8|].
  split; [reflexivity|].
  destruct (X21_best_price_after_delta two_sided_book improve_bid
              wf_two_sided_book H8 Hp8) as [Hup _].
  destruct (X21_best_price_after_delta two_sided_book add_three
              wf_two_sided_book H3 Hp3) as [Hlow _].
  split.
  - destruct (Hup eq_refl) as [Hnew _]; [vm_compute; discriminate|].
    apply Hnew. vm_compute. discriminate.
  - destruct (Hlow eq_refl) as [_ Hkeep]; [vm_compute; discriminate|].
    apply Hkeep. vm_compute. reflexivity.
Defined.

Lemma X22_emptied_level_leaves_top_n_witness :
  wf_book two_sided_book /\ wf_delta cancel_best_bid /\
  exists all,
    GetTopNBids small_heap kMaxBookLevels two_sided_book = Returns all /\
    GetTopNBids small_heap 2 (ApplyDelta cancel_best_bid two_sided_book)
    = Returns (take 2 (filter (fun pq : Z * Z => pq.1 <> 70) all)).
Proof.
  assert (Hd : wf_delta cancel_best_bid) by (apply wf_delta_small; reflexivity).
  assert (Hp : DeltaMessage.price cancel_best_bid < kMaxBookLevels)
    by (unfold kMaxBookLevels; cbn; lia).
  assert (H2 : is_int32 2) by (unfold is_int32; lia).
  assert (H0 : 0 <= 2) by lia.
  split; [exact wf_two_sided_book|]. split; [exact Hd|].
  destruct (X22_emptied_level_leaves_top_n two_sided_book cancel_best_bid 2
              wf_two_sided_book Hd Hp H0 H2) as [Hyes _].
  destruct (Hyes eq_refl eq_refl) as (all & _ & Hall).
  exists all. exact (Hall small_heap).
Defined.

Lemma X23_filled_level_leaves_top_n_witness :
  wf_book two_sided_book /\ wf_trade full_fill_trade /\
  0 < TradeMessage.count full_fill_trade /\
  exists all,
    GetTopNAsks small_heap kMaxBookLevels two_sided_book = Returns all /\
    GetTopNAsks small_heap 2 (ApplyTrade full_fill_trade two_sided_book)
    = Returns (take 2 (filter (fun pq : Z * Z => pq.1 <> 40) all)).
Proof.
  assert (Hc : 0 < TradeMessage.count full_fill_trade) by (cbn; lia).
  assert (H2 : is_int32 2) by (unfold is_int32; lia).
  assert (H0 : 0 <= 2) by lia.
  assert (Hlt : TradeMessage.no_price full_fill_trade < kMaxBookLevels)
    by (unfold kMaxBookLevels; cbn; lia).
  split; [exact wf_two_sided_book|]. split; [exact wf_full_fill_trade|].
  split; [exact Hc|].
  destruct (X23_filled_level_leaves_top_n two_sided_book full_fill_trade 2
              wf_two_sided_book wf_full_fill_trade Hc H0 H2) as [Hyes _].
  destruct (Hyes eq_refl Hlt eq_refl) as (all & _ & Hall).
  exists all. exact (Hall small_heap).
Defined.

Lemma X24_negative_count_throws_witness :
  -5 < 0 /\ is_int32 (-5) /\
  GetTopNBids small_heap (-5) two_sided_book = Throws length_error /\
  GetTopNAsks small_heap (-5) two_sided_book = Throws length_error.
Proof.
  assert (Hn : -5 < 0) by lia.
  assert (Hi : is_int32 (-5)) by (unfold is_int32; lia).
  split; [exact Hn|]. split; [exact Hi|].
  destruct (X24_negative_count_throws small_heap two_sided_book (-5) Hn Hi)
    as (_ & _ & Hb & Ha).
  split; assumption.
Defined.
